(** * SMS gateway: queue storage and queue dispatchers

    A shallow embedding of the gateway's storage helpers ([AppStorage]:
    [saveQueue], [saveLog]) and of its queue dispatchers ([AppDispatcher]:
    the base [Dispatcher], the per-terminal [Terminal] dispatcher and the
    global [Activity] dispatcher), followed by the properties proved about
    them.

    Conventions of the embedding.
    - A table is the list of its rows in insertion order.
    - Columns written by the code with [0] and [1] are integers.
    - A JavaScript value that may be [undefined] or [null] is an [option].
    - A promise is represented by the way it settles; the continuation
      attached with [then] runs on fulfilment, the one attached with [catch]
      on rejection, and a rejection nobody catches runs nothing.
    - Calls made on collaborators (the terminal, sockets, plugins, the
      completion callbacks) are recorded, in order, as a list of events.
    - Console output is not part of the model.
    - A string is the sequence of its code units. *)

From Stdlib Require Import ZArith List String Ascii Bool Lia.
From Stdlib Require Import Permutation Sorted QArith Qround.
Import ListNotations.

Open Scope Z_scope.

(** ** JavaScript odds and ends *)

(** How a promise settles. *)
Inductive settled (A : Type) : Type :=
| Fulfilled (a : A)
| Rejected.
Arguments Fulfilled {A} a.
Arguments Rejected {A}.

(** Truthiness of a string, of a number and of a possibly missing value. *)
Definition truthy_string (s : string) : bool := negb (s =? "")%string.

Definition truthy_number (n : Z) : bool := negb (n =? 0).

Definition truthy {A : Type} (t : A -> bool) (v : option A) : bool :=
  match v with
  | Some a => t a
  | None => false
  end.

(** [a == b] on values that are strings or [undefined]. *)
Definition loose_eq (a b : option string) : bool :=
  match a, b with
  | Some x, Some y => (x =? y)%string
  | None, None => true
  | _, _ => false
  end.

(** [Array.prototype.indexOf(x) >= 0] on an array of strings. *)
Fixpoint includes (x : string) (l : list string) : bool :=
  match l with
  | [] => false
  | y :: l' => (x =? y)%string || includes x l'
  end.

(** [Array.prototype.forEach]: the callback runs on every element, in order;
    whatever it returns (the [bool] here) is discarded. *)
Fixpoint forEach {A S : Type} (cb : A -> S -> S * bool) (l : list A) (s : S) : S :=
  match l with
  | [] => s
  | x :: l' => forEach cb l' (fst (cb x s))
  end.

(** *** [isNaN] on a string

    [isNaN(s)] converts the string with StringToNumber and tells whether the
    result is [NaN], that is whether [s] fails to be a StringNumericLiteral:
    white space, then possibly a signed decimal literal ([Infinity], digits
    with an optional fraction and exponent) or an unsigned binary, octal or
    hexadecimal integer, then white space.  The white space recognised here
    is the one among the code units below 256. *)

Definition code (c : ascii) : nat := nat_of_ascii c.

Definition is_space (c : ascii) : bool :=
  ((9 <=? code c) && (code c <=? 13) || (code c =? 32) || (code c =? 160))%nat.

Definition is_digit (c : ascii) : bool :=
  ((48 <=? code c) && (code c <=? 57))%nat.

Definition is_binary_digit (c : ascii) : bool :=
  ((48 <=? code c) && (code c <=? 49))%nat.

Definition is_octal_digit (c : ascii) : bool :=
  ((48 <=? code c) && (code c <=? 55))%nat.

Definition is_hex_digit (c : ascii) : bool :=
  (is_digit c || (65 <=? code c) && (code c <=? 70)
   || (97 <=? code c) && (code c <=? 102))%nat.

Fixpoint drop_while (p : ascii -> bool) (s : string) : string :=
  match s with
  | String c s' => if p c then drop_while p s' else s
  | EmptyString => s
  end.

Definition only_space (s : string) : bool :=
  (drop_while is_space s =? "")%string.

(** What follows a non-empty run of characters satisfying [p]. *)
Definition after_some (p : ascii -> bool) (s : string) : option string :=
  match s with
  | String c s' => if p c then Some (drop_while p s') else None
  | EmptyString => None
  end.

Definition after_sign (s : string) : string :=
  match s with
  | String c s' => if ((code c =? 43) || (code c =? 45))%nat then s' else s
  | EmptyString => s
  end.

(** What follows an optional ExponentPart. *)
Definition after_exponent (s : string) : option string :=
  match s with
  | String c s' =>
      if ((code c =? 101) || (code c =? 69))%nat
      then after_some is_digit (after_sign s')
      else Some s
  | EmptyString => Some s
  end.

Definition ends_literal (s : string) : bool :=
  match after_exponent s with
  | Some rest => only_space rest
  | None => false
  end.

(** StrUnsignedDecimalLiteral, then white space. *)
Definition unsigned_decimal (s : string) : bool :=
  if String.prefix "Infinity" s then
    only_space (String.substring 8 (String.length s - 8) s)
  else
    match s with
    | String "."%char s' =>
        match after_some is_digit s' with
        | Some rest => ends_literal rest
        | None => false
        end
    | _ =>
        match after_some is_digit s with
        | Some (String "."%char rest) => ends_literal (drop_while is_digit rest)
        | Some rest => ends_literal rest
        | None => false
        end
    end.

(** NonDecimalIntegerLiteral, then white space. *)
Definition non_decimal (s : string) : bool :=
  match s with
  | String "0"%char (String c s') =>
      let digits :=
        if ((code c =? 98) || (code c =? 66))%nat then Some is_binary_digit
        else if ((code c =? 111) || (code c =? 79))%nat then Some is_octal_digit
        else if ((code c =? 120) || (code c =? 88))%nat then Some is_hex_digit
        else None in
      match digits with
      | Some p =>
          match after_some p s' with
          | Some rest => only_space rest
          | None => false
          end
      | None => false
      end
  | _ => false
  end.

Definition StringNumericLiteral (s : string) : bool :=
  let t := drop_while is_space s in
  (t =? "")%string || non_decimal t || unsigned_decimal (after_sign t).

Definition isNaN (s : string) : bool := negb (StringNumericLiteral s).

(** ** Ordering rows

    [ORDER BY] and [Array.prototype.sort] are both rendered by a stable
    insertion sort along a boolean "comes no later than" test. *)

Section OrderBy.
Context {A : Type}.
Variable leb : A -> A -> bool.

Fixpoint insert_by (x : A) (l : list A) : list A :=
  match l with
  | [] => [x]
  | y :: l' => if leb x y then x :: l else y :: insert_by x l'
  end.

Definition order_by (l : list A) : list A :=
  fold_right insert_by [] l.
End OrderBy.

(** ** The behaviour of the database during one call

    Which of the Sequelize promises issued by a call are rejected. *)
Record Faults : Type := {
  count_rejects : bool;
  create_rejects : bool;
  update_rejects : bool
}.

Definition no_faults : Faults :=
  {| count_rejects := false; create_rejects := false; update_rejects := false |}.

(** ** Rows *)

(** A row of [gw_queue], which is also the instance the dispatchers hold.
    [veto] is not a column: it is the property a plugin may set on the
    instance it is handed. *)
Module GwQueue.
Record t : Type := mk {
  id : Z;
  imsi : string;
  hash : string;
  type : Z;
  address : option string;
  data : string;
  priority : Z;
  processed : Z;
  status : Z;
  retry : option Z;
  time : Z;
  veto : bool
}.

(** The object given to [instance.update]: the columns to overwrite. *)
Record updates : Type := {
  set_processed : option Z;
  set_status : option Z;
  set_retry : option Z
}.

Definition pick {A : Type} (new : option A) (old : A) : A :=
  match new with
  | Some v => v
  | None => old
  end.

(** The instance after [update(u)]. *)
Definition update (u : updates) (q : t) : t :=
  {| id := id q; imsi := imsi q; hash := hash q; type := type q;
     address := address q; data := data q; priority := priority q;
     processed := pick (set_processed u) (processed q);
     status := pick (set_status u) (status q);
     retry := match set_retry u with Some r => Some r | None => retry q end;
     time := time q; veto := veto q |}.

(** The table after the row of that [id] was saved with [u]. *)
Definition save (i : Z) (u : updates) (db : list t) : list t :=
  map (fun r => if id r =? i then update u r else r) db.

(** The next value of the auto-increment key. *)
Definition next_id (db : list t) : Z :=
  1 + fold_right Z.max 0 (map id db).
End GwQueue.

(** A row of [gw_log]. *)
Module GwLog.
Record t : Type := mk {
  id : Z;
  imsi : string;
  hash : string;
  type : Z;
  address : option string;
  data : string;
  status : Z;
  time : Z
}.

Definition next_id (lg : list t) : Z :=
  1 + fold_right Z.max 0 (map id lg).
End GwLog.

(** The object a caller hands to [saveQueue]; [priority] and [time] may be
    missing. *)
Module Queue.
Record t : Type := mk {
  hash : string;
  type : Z;
  address : option string;
  data : string;
  priority : option Z;
  time : option Z
}.
End Queue.

(** ** AppStorage *)

Module AppStorage.

Definition ACTIVITY_CALL : Z := 1.
Definition ACTIVITY_RING : Z := 2.
Definition ACTIVITY_SMS : Z := 3.
Definition ACTIVITY_INBOX : Z := 4.
Definition ACTIVITY_USSD : Z := 5.
Definition ACTIVITY_CUSD : Z := 6.

Definition PRIORITY_ABOVE : Z := 10.
Definition PRIORITY_NORMAL : Z := 20.
Definition PRIORITY_BELOW : Z := 50.

(** [GwQueue.count({where: {imsi, hash}})] *)
Definition countQueue (db : list GwQueue.t) (origin h : string) : Z :=
  Z.of_nat (List.length (filter
    (fun r => (GwQueue.imsi r =? origin)%string && (GwQueue.hash r =? h)%string) db)).

(** [GwLog.count({where: {imsi, hash, type}})] *)
Definition countLog (lg : list GwLog.t) (origin h : string) (ty : Z) : Z :=
  Z.of_nat (List.length (filter
    (fun r => (GwLog.imsi r =? origin)%string && (GwLog.hash r =? h)%string
              && (GwLog.type r =? ty)) lg)).

(** The row [saveQueue] builds from the caller's object. *)
Definition newQueue (db : list GwQueue.t) (origin : string) (queue : Queue.t)
    (now : Z) : GwQueue.t :=
  {| GwQueue.id := GwQueue.next_id db;
     GwQueue.imsi := origin;
     GwQueue.hash := Queue.hash queue;
     GwQueue.type := Queue.type queue;
     GwQueue.address := Queue.address queue;
     GwQueue.data := Queue.data queue;
     GwQueue.priority :=
       match Queue.priority queue with
       | Some p => if truthy_number p then p else PRIORITY_NORMAL
       | None => PRIORITY_NORMAL
       end;
     GwQueue.processed := 0;
     GwQueue.status := 0;
     GwQueue.retry := None;
     GwQueue.time := GwQueue.pick (Queue.time queue) now;
     GwQueue.veto := false |}.

(** [saveQueue(origin, queue, done)] at time [now]: the table afterwards
    and the calls of [cb], each with its argument ([None] for [cb()]). *)
Definition saveQueue (f : Faults) (now : Z) (db : list GwQueue.t)
    (origin : string) (queue : Queue.t)
    : list GwQueue.t * list (option GwQueue.t) :=
  if count_rejects f then (db, [None])
  else if countQueue db origin (Queue.hash queue) =? 0 then
    if create_rejects f then (db, [None])
    else
      let result := newQueue db origin queue now in
      (db ++ [result], [Some result])
  else (db, [None]).

(** *** The two requests of [saveQueue]

    [saveQueue] asks the database twice: for the count and, once the count
    is answered with 0, for the create.  The database may serve other
    requests between the two. *)

(** The count is answered on the table [db]: whether the create is
    issued.  When it is not, [cb()] is called. *)
Definition counted (f : Faults) (db : list GwQueue.t) (origin : string)
    (queue : Queue.t) : bool :=
  negb (count_rejects f) && (countQueue db origin (Queue.hash queue) =? 0).

(** The create issued at time [now] is served on the table [db]: the table
    afterwards and the call of [cb]. *)
Definition created (f : Faults) (now : Z) (db : list GwQueue.t)
    (origin : string) (queue : Queue.t)
    : list GwQueue.t * list (option GwQueue.t) :=
  if create_rejects f then (db, [None])
  else
    let result := newQueue db origin queue now in
    (db ++ [result], [Some result]).

(** The row [saveLog] creates. *)
Definition newLog (lg : list GwLog.t) (origin : string) (log : GwQueue.t)
    : GwLog.t :=
  {| GwLog.id := GwLog.next_id lg;
     GwLog.imsi := origin;
     GwLog.hash := GwQueue.hash log;
     GwLog.type := GwQueue.type log;
     GwLog.address := GwQueue.address log;
     GwLog.data := GwQueue.data log;
     GwLog.status := GwQueue.status log;
     GwLog.time := GwQueue.time log |}.

(** [saveLog(origin, log, done)]: the log table afterwards and the calls
    of [done], each with its argument. *)
Definition saveLog (f : Faults) (lg : list GwLog.t) (origin : string)
    (log : GwQueue.t) : list GwLog.t * list GwLog.t :=
  if count_rejects f then (lg, [])
  else if countLog lg origin (GwQueue.hash log) (GwQueue.type log) =? 0 then
    if create_rejects f then (lg, [])
    else
      let result := newLog lg origin log in
      (lg ++ [result], [result])
  else (lg, []).

End AppStorage.

(** The two tables the dispatchers work on. *)
Record Store : Type := {
  gw_queue : list GwQueue.t;
  gw_log : list GwLog.t
}.

(** ** Terminals, as the dispatchers see them *)

Module Term.
Record opts : Type := {
  priority : Z;
  group : option string;
  allowCall : bool;
  sendMessage : bool;
  receiveMessage : bool;
  operators : list string
}.

Record t : Type := mk {
  name : string;
  connected : bool;
  busy : bool;
  options : opts
}.

(** The reply to [query('status', hash)]. *)
Record reply : Type := {
  success : bool;
  hash : option string;
  status : bool
}.

(** What the terminal answers during one [process]: for [dial],
    [sendMessage] and [ussd], [None] when the call returns nothing to wait
    for, otherwise how the promise settles, a fulfilled one carrying
    [term.reply.success] as the continuation reads it; for [query], how
    its promise settles. *)
Record answers : Type := {
  on_dial : option (settled bool);
  on_sendMessage : option (settled bool);
  on_ussd : option (settled bool);
  on_query : settled reply
}.
End Term.

(** ** The host application, as the activity dispatcher sees it *)

(** A connected gateway client. *)
Module Socket.
Record t : Type := mk {
  id : string;
  group : option string
}.
End Socket.

(** A plugin; [handle] gives the instance as the plugin leaves it. *)
Module Plugin.
Record t : Type := mk {
  name : string;
  group : option string;
  handle : GwQueue.t -> GwQueue.t
}.
End Plugin.

Module AppTerm.
Record config_t : Type := {
  blacklists : option (list string);
  premiumlen : option nat
}.

(** [get] and [getOperator] are the host's lookups of a terminal by name
    and of the operator of an address. *)
Record t : Type := mk {
  terminals : list Term.t;
  gwclients : list Socket.t;
  plugins : list Plugin.t;
  config : config_t;
  get : string -> option Term.t;
  getOperator : option string -> option string
}.
End AppTerm.

(** ** AppDispatcher *)

Module AppDispatcher.

Import AppStorage.

(** *** The base dispatcher *)
Module Dispatcher.

(** [fetching] is not a field of the source object: it counts the calls
    of [getQueues] whose callback has not run yet. *)
Record t : Type := mk {
  count : Z;
  queues : list GwQueue.t;
  loading : bool;
  loadTime : Z;
  reloadInterval : Z;
  fetching : nat
}.

Definition new (now : Z) : t :=
  {| count := 0; queues := []; loading := false; loadTime := now;
     reloadInterval := 5 * 60 * 1000; fetching := 0 |}.

(** [this.count++] *)
Definition tick (d : t) : t :=
  {| count := count d + 1; queues := queues d; loading := loading d;
     loadTime := loadTime d; reloadInterval := reloadInterval d;
     fetching := fetching d |}.

(** [load()], up to the return of [getQueues]: the fetch is started and
    not yet answered. *)
Definition load (d : t) : t :=
  if 0 <? count d then
    {| count := 0; queues := []; loading := true;
       loadTime := loadTime d; reloadInterval := reloadInterval d;
       fetching := S (fetching d) |}
  else d.

(** [reloadNeeded()] when [Date.now()] is [now]. *)
Definition reloadNeeded (now : Z) (d : t) : t :=
  if (0 <? count d) || ((count d =? 0) && (Nat.eqb (List.length (queues d)) 0)) then
    load (if (count d =? 0) && (reloadInterval d <=? now - loadTime d)
             && negb (loading d)
          then tick d else d)
  else d.

Section Check.
(** The [check] of the subtype. *)
Variable check : t -> t.

Definition reload (d : t) : t := check (tick d).

(** The callback [load] gave to [getQueues], run with [results] when
    [Date.now()] is [now]. *)
Definition loaded (results : list GwQueue.t) (now : Z) (d : t) : t :=
  check {| count := count d; queues := results; loading := false;
           loadTime := now; reloadInterval := reloadInterval d;
           fetching := pred (fetching d) |}.
End Check.

(** [queues.shift()] *)
Definition shift (d : t) : t :=
  {| count := count d; queues := tl (queues d); loading := loading d;
     loadTime := loadTime d; reloadInterval := reloadInterval d;
     fetching := fetching d |}.
End Dispatcher.

(** *** The terminal dispatcher *)
Module Terminal.

Record t : Type := mk {
  base : Dispatcher.t;
  term : Term.t;
  maxRetry : Z
}.

Definition new (term : Term.t) (now : Z) : t :=
  {| base := Dispatcher.new now; term := term; maxRetry := 3 |}.

(** Calls made on the terminal and on the row. *)
Inductive event : Type :=
| Query (cmd : string) (data : string)
| Dial (q : GwQueue.t)
| SendMessage (q : GwQueue.t)
| Ussd (q : GwQueue.t)
| Update (q : GwQueue.t) (u : GwQueue.updates)
| SaveLog (origin : string) (log : GwQueue.t).

(** [retry <= maxRetry] in SQL: never true of [NULL]. *)
Definition retry_lte (r : option Z) (m : Z) : bool :=
  match r with
  | Some n => n <=? m
  | None => false
  end.

(** The [where] clause of [getQueues]. *)
Definition where_ (this : t) (q : GwQueue.t) : bool :=
  (GwQueue.imsi q =? Term.name (term this))%string
  && (((GwQueue.processed q =? 0)
       && ((GwQueue.type q =? ACTIVITY_CALL) || (GwQueue.type q =? ACTIVITY_SMS)
           || (GwQueue.type q =? ACTIVITY_USSD)))
      || ((GwQueue.processed q =? 1)
          && retry_lte (GwQueue.retry q) (maxRetry this)
          && (GwQueue.type q =? ACTIVITY_SMS)
          && (GwQueue.status q =? 0))).

(** The [order] clause of [getQueues]: priority, then processed, then
    time, all ascending. *)
Definition order (a b : GwQueue.t) : bool :=
  if GwQueue.priority a <? GwQueue.priority b then true
  else if GwQueue.priority b <? GwQueue.priority a then false
  else if GwQueue.processed a <? GwQueue.processed b then true
  else if GwQueue.processed b <? GwQueue.processed a then false
  else GwQueue.time a <=? GwQueue.time b.

(** The [results] of [getQueues] on the table [db]. *)
Definition getQueues (this : t) (db : list GwQueue.t) : list GwQueue.t :=
  order_by order (filter (where_ this) db).

(** [check()] emits ['state'] on the terminal's connection and leaves
    the dispatcher as it is. *)
Definition check (d : Dispatcher.t) : Dispatcher.t := d.

Definition reload (this : t) : t :=
  {| base := Dispatcher.reload check (base this); term := term this;
     maxRetry := maxRetry this |}.

(** The ['idle'] handler when [Date.now()] is [now]: the dispatcher
    afterwards and the row handed to [process], if any. *)
Definition idle (now : Z) (this : t) : t * option GwQueue.t :=
  let d := Dispatcher.reloadNeeded now (base this) in
  match Dispatcher.queues d with
  | queue :: _ =>
      if negb (Term.busy (term this)) then
        ({| base := check (Dispatcher.shift d); term := term this;
            maxRetry := maxRetry this |}, Some queue)
      else
        ({| base := check d; term := term this; maxRetry := maxRetry this |}, None)
  | [] =>
      ({| base := check d; term := term this; maxRetry := maxRetry this |}, None)
  end.

(** The answer to the fetch started by [load], read from [db]. *)
Definition loaded (db : list GwQueue.t) (now : Z) (this : t) : t :=
  {| base := Dispatcher.loaded check (getQueues this db) now (base this);
     term := term this; maxRetry := maxRetry this |}.

(** The [updates] object built by [update(GwQueue, success)];
    [reply_success] is [this.term.reply.success]. *)
Definition updates (reply_success : bool) (q : GwQueue.t) (success : bool)
    : GwQueue.updates :=
  {| GwQueue.set_processed := Some 1;
     GwQueue.set_status :=
       if success then Some (if reply_success then 1 else 0) else None;
     GwQueue.set_retry :=
       if negb success && (GwQueue.type q =? ACTIVITY_SMS) then
         Some (if truthy truthy_number (GwQueue.retry q)
               then GwQueue.pick (GwQueue.retry q) 0 + 1
               else 1)
       else None |}.

(** [update(GwQueue, success)] *)
Definition update (f : Faults) (reply_success : bool) (st : Store)
    (q : GwQueue.t) (success : bool) : Store * list event :=
  let u := updates reply_success q success in
  if update_rejects f then (st, [Update q u])
  else
    let result := GwQueue.update u q in
    let db := GwQueue.save (GwQueue.id q) u (gw_queue st) in
    if negb (GwQueue.type q =? ACTIVITY_USSD) then
      ({| gw_queue := db;
          gw_log := fst (saveLog f (gw_log st) (GwQueue.imsi q) result) |},
       [Update q u; SaveLog (GwQueue.imsi q) result])
    else
      ({| gw_queue := db; gw_log := gw_log st |}, [Update q u]).

(** The local [f] of [process]: wait for [action] and record the
    outcome. *)
Definition settle (f : Faults) (st : Store) (q : GwQueue.t)
    (action : option (settled bool)) : Store * list event :=
  match action with
  | Some (Fulfilled reply_success) => update f reply_success st q true
  | Some Rejected => update f false st q false
  | None => (st, [])
  end.

Definition emit (e : event) (r : Store * list event) : Store * list event :=
  (fst r, e :: snd r).

(** [process(GwQueue)] *)
Definition process (f : Faults) (a : Term.answers) (st : Store)
    (q : GwQueue.t) : Store * list event :=
  if GwQueue.type q =? ACTIVITY_CALL then
    emit (Dial q) (settle f st q (Term.on_dial a))
  else if GwQueue.type q =? ACTIVITY_SMS then
    match GwQueue.retry q with
    | Some _ =>
        emit (Query "status" (GwQueue.hash q))
          match Term.on_query a with
          | Fulfilled status =>
              if Term.success status
                 && loose_eq (Term.hash status) (Some (GwQueue.hash q))
              then
                if Term.status status then
                  let u := {| GwQueue.set_processed := None;
                              GwQueue.set_status := Some 1;
                              GwQueue.set_retry := None |} in
                  (if update_rejects f then st
                   else {| gw_queue := GwQueue.save (GwQueue.id q) u (gw_queue st);
                           gw_log := gw_log st |},
                   [Update q u])
                else
                  emit (SendMessage q) (settle f st q (Term.on_sendMessage a))
              else
                emit (SendMessage q) (settle f st q (Term.on_sendMessage a))
          | Rejected => (st, [])
          end
    | None =>
        emit (SendMessage q) (settle f st q (Term.on_sendMessage a))
    end
  else if GwQueue.type q =? ACTIVITY_USSD then
    emit (Ussd q) (settle f st q (Term.on_ussd a))
  else (st, []).

End Terminal.

(** *** The activity dispatcher *)
Module Activity.

(** Calls made on sockets, on plugins, on the row and on [done]. *)
Inductive event : Type :=
| Emit (socket : string) (name : string) (hash : string)
    (address : option string) (data : option string) (time : Z)
| Handle (plugin : string) (q : GwQueue.t)
| Update (q : GwQueue.t) (u : GwQueue.updates)
| Done.

(** What [add] ends with. *)
Inductive added : Type :=
| NoTerminal
| AddQueue (term : Term.t) (data : Queue.t)
| TypeError.

(** The [where] clause of [getQueues]. *)
Definition where_ (q : GwQueue.t) : bool :=
  (GwQueue.processed q =? 0)
  && ((GwQueue.type q =? ACTIVITY_RING) || (GwQueue.type q =? ACTIVITY_INBOX)
      || (GwQueue.type q =? ACTIVITY_CUSD)).

(** The [order] clause of [getQueues]: priority, then time. *)
Definition order (a b : GwQueue.t) : bool :=
  if GwQueue.priority a <? GwQueue.priority b then true
  else if GwQueue.priority b <? GwQueue.priority a then false
  else GwQueue.time a <=? GwQueue.time b.

Definition getQueues (db : list GwQueue.t) : list GwQueue.t :=
  order_by order (filter where_ db).

(** One turn of the loop of [getTerminal]: [true] when [term] is pushed,
    [false] when a [continue] is taken. *)
Definition pushed (appterm : AppTerm.t) (type : Z) (address : option string)
    (group : option string) (term : Term.t) : bool :=
  if negb (Term.connected term) then false
  else if truthy truthy_string group
          && negb (loose_eq (Term.group (Term.options term)) group) then false
  else if (type =? ACTIVITY_CALL) && negb (Term.allowCall (Term.options term))
  then false
  else if (type =? ACTIVITY_SMS) && negb (Term.sendMessage (Term.options term))
  then false
  else if negb (Nat.eqb (List.length (Term.operators (Term.options term))) 0)
          && negb (type =? ACTIVITY_USSD) then
    match AppTerm.getOperator appterm address with
    | Some op =>
        if negb (truthy_string op) then false
        else includes op (Term.operators (Term.options term))
    | None => false
    end
  else true.

Definition getTerminal (appterm : AppTerm.t) (type : Z)
    (address : option string) (group : option string) : list Term.t :=
  filter (pushed appterm type address group) (AppTerm.terminals appterm).

(** The comparator [add] sorts with. *)
Definition by_priority (a b : Term.t) : bool :=
  Term.priority (Term.options a) <=? Term.priority (Term.options b).

(** [Math.floor(random * n)] for a draw [random] of [Math.random()],
    taken as a rational. *)
Definition floor_random (random : Q) (n : nat) : Z :=
  Qfloor (random * inject_Z (Z.of_nat n)).

(** [array[index]] *)
Definition at_index {A : Type} (l : list A) (index : Z) : option A :=
  if index <? 0 then None else nth_error l (Z.to_nat index).

(** [add(data, group, cb)] when [Math.random()] would give [random]. *)
Definition add (appterm : AppTerm.t) (random : Q) (data : Queue.t)
    (group : option string) : added :=
  let terminals := getTerminal appterm (Queue.type data) (Queue.address data) group in
  if Nat.eqb (List.length terminals) 0 then NoTerminal
  else
    let sorted :=
      if (1 <? List.length terminals)%nat then order_by by_priority terminals
      else terminals in
    let index :=
      if (1 <? List.length terminals)%nat
      then floor_random random (List.length terminals)
      else 0 in
    match at_index sorted index with
    | Some term => AddQueue term data
    | None => TypeError
    end.

Section Host.
(** The global [isNaN], on strings. *)
Variable isNaN : string -> bool.
Variable appterm : AppTerm.t.

(** [addressAllowed(address)]; [None] is the [undefined] returned for
    a missing or empty address. *)
Definition addressAllowed (address : option string) : option bool :=
  match address with
  | Some a =>
      if truthy_string a then
        let blacklists :=
          match AppTerm.blacklists (AppTerm.config appterm) with
          | Some l => l
          | None => []
          end in
        let premiumlen :=
          match AppTerm.premiumlen (AppTerm.config appterm) with
          | Some n => if Nat.eqb n 0 then 5%nat else n
          | None => 5%nat
          end in
        if isNaN a then Some false
        else if (String.length a <=? premiumlen)%nat then Some false
        else if includes a blacklists then Some false
        else Some true
      else None
  | None => None
  end.

(** The notification [socket] gets for [q], if its type has one. *)
Definition notification (socket : Socket.t) (q : GwQueue.t) : list event :=
  if GwQueue.type q =? ACTIVITY_RING then
    [Emit (Socket.id socket) "ring" (GwQueue.hash q) (GwQueue.address q)
       None (GwQueue.time q)]
  else if GwQueue.type q =? ACTIVITY_INBOX then
    [Emit (Socket.id socket) "message" (GwQueue.hash q) (GwQueue.address q)
       (Some (GwQueue.data q)) (GwQueue.time q)]
  else if GwQueue.type q =? ACTIVITY_CUSD then
    [Emit (Socket.id socket) "ussd" (GwQueue.hash q) (GwQueue.address q)
       (Some (GwQueue.data q)) (GwQueue.time q)]
  else [].

(** The callback of [gwclients.forEach]. *)
Definition notify (term : Term.t) (socket : Socket.t)
    (s : GwQueue.t * list event) : (GwQueue.t * list event) * bool :=
  if loose_eq (Term.group (Term.options term)) (Socket.group socket)
  then ((fst s, snd s ++ notification socket (fst s)), false)
  else (s, false).

(** The callback of [plugins.forEach]; its [return true] is the
    [true] of the result. *)
Definition dispatch (term : Term.t) (plugin : Plugin.t)
    (s : GwQueue.t * list event) : (GwQueue.t * list event) * bool :=
  if match Plugin.group plugin with None => true | Some _ => false end
     || loose_eq (Term.group (Term.options term)) (Plugin.group plugin)
  then
    let q := Plugin.handle plugin (fst s) in
    let s' := (q, snd s ++ [Handle (Plugin.name plugin) (fst s)]) in
    if GwQueue.veto q then (s', true) else (s', false)
  else (s, false).

(** The value of [processed] when the update is issued. *)
Definition allowed (term : Term.t) (q : GwQueue.t) : bool :=
  let processed :=
    if (GwQueue.type q =? ACTIVITY_RING) || (GwQueue.type q =? ACTIVITY_INBOX)
    then match addressAllowed (GwQueue.address q) with
         | Some true => true
         | _ => false
         end
    else true in
  if processed && negb (Term.receiveMessage (Term.options term))
     && (GwQueue.type q =? ACTIVITY_INBOX)
  then false
  else processed.

(** [processQueue(GwQueue, done)]: the table afterwards and the calls
    made, in order. *)
Definition processQueue (f : Faults) (db : list GwQueue.t) (q : GwQueue.t)
    : list GwQueue.t * list event :=
  match AppTerm.get appterm (GwQueue.imsi q) with
  | Some term =>
      let processed := allowed term q in
      let s :=
        if processed then
          forEach (dispatch term) (AppTerm.plugins appterm)
            (forEach (notify term) (AppTerm.gwclients appterm) (q, []))
        else (q, []) in
      let u := {| GwQueue.set_processed := Some 1;
                  GwQueue.set_status := Some (if processed then 1 else 0);
                  GwQueue.set_retry := None |} in
      (if update_rejects f then db
       else GwQueue.save (GwQueue.id (fst s)) u db,
       snd s ++ [Update (fst s) u; Done])
  | None => (db, [Done])
  end.
End Host.

End Activity.

End AppDispatcher.

(** * Vocabulary of the statements *)

Import AppStorage AppDispatcher.

(** ** Storage *)

(** The dedup key of a queue row: (imsi, hash). *)
Definition queue_key (r : GwQueue.t) : string * string :=
  (GwQueue.imsi r, GwQueue.hash r).

(** A row with that key is in the table. *)
Definition queued (db : list GwQueue.t) (origin h : string) : Prop :=
  exists r, In r db /\ GwQueue.imsi r = origin /\ GwQueue.hash r = h.

(** No two rows of the table share their key. *)
Definition deduplicated (db : list GwQueue.t) : Prop :=
  NoDup (map queue_key db).

(** A call of [saveQueue]: the database's behaviour, the time, the origin
    and the object. *)
Definition save_call : Type := (Faults * Z * string * Queue.t)%type.

(** The dedup key of the row the call is to add. *)
Definition call_key (c : save_call) : string * string :=
  match c with
  | (_, _, origin, queue) => (origin, Queue.hash queue)
  end.

(** The table, and the creates issued by calls of [saveQueue] that the
    database has not served yet. *)
Record saving : Type := {
  table : list GwQueue.t;
  creating : list save_call
}.

(** What the database does next: it answers the count of a call, or it
    serves one of the creates that wait, the one at index [i]. *)
Inductive save_turn : Type :=
| Count (c : save_call)
| Create (i : nat).

Definition save_step (e : save_turn) (s : saving) : option saving :=
  match e with
  | Count (f, now, origin, queue) =>
      Some (if counted f (table s) origin queue
            then {| table := table s;
                    creating := creating s ++ [(f, now, origin, queue)] |}
            else s)
  | Create i =>
      match nth_error (creating s) i with
      | Some (f, now, origin, queue) =>
          Some {| table := fst (created f now (table s) origin queue);
                  creating := firstn i (creating s)
                              ++ skipn (S i) (creating s) |}
      | None => None
      end
  end.

Fixpoint save_run (turns : list save_turn) (s : saving) : option saving :=
  match turns with
  | [] => Some s
  | e :: rest =>
      match save_step e s with
      | Some s' => save_run rest s'
      | None => None
      end
  end.

(** The calls for one key do not overlap: no count is answered while a
    create for the same key waits. *)
Fixpoint apart (turns : list save_turn) (s : saving) : Prop :=
  match turns with
  | [] => True
  | e :: rest =>
      match e with
      | Count c => ~ In (call_key c) (map call_key (creating s))
      | Create _ => True
      end
      /\ match save_step e s with
         | Some s' => apart rest s'
         | None => True
         end
  end.

(** A log row with that key (imsi, hash, type) is in the log. *)
Definition logged (lg : list GwLog.t) (origin h : string) (ty : Z) : Prop :=
  exists r, In r lg /\ GwLog.imsi r = origin /\ GwLog.hash r = h
            /\ GwLog.type r = ty.

(** ** Terminal dispatcher *)

(** The selection of the snapshot, in the words of the specification. *)
Definition selected (this : Terminal.t) (q : GwQueue.t) : Prop :=
  GwQueue.imsi q = Term.name (Terminal.term this)
  /\ ((GwQueue.processed q = 0
       /\ (GwQueue.type q = ACTIVITY_CALL \/ GwQueue.type q = ACTIVITY_SMS
           \/ GwQueue.type q = ACTIVITY_USSD))
      \/ (GwQueue.processed q = 1
          /\ (exists n, GwQueue.retry q = Some n /\ n <= Terminal.maxRetry this)
          /\ GwQueue.type q = ACTIVITY_SMS
          /\ GwQueue.status q = 0)).

(** [a] comes no later than [b] by (priority, processed, time), ascending. *)
Definition precedes (a b : GwQueue.t) : Prop :=
  GwQueue.priority a < GwQueue.priority b
  \/ (GwQueue.priority a = GwQueue.priority b
      /\ (GwQueue.processed a < GwQueue.processed b
          \/ (GwQueue.processed a = GwQueue.processed b
              /\ GwQueue.time a <= GwQueue.time b))).

(** The rows handed to [process] by [n] successive ['idle'] signals. *)
Fixpoint drain (n : nat) (now : Z) (this : Terminal.t) : list GwQueue.t :=
  match n with
  | O => []
  | S n' =>
      match Terminal.idle now this with
      | (this', Some q) => q :: drain n' now this'
      | (this', None) => drain n' now this'
      end
  end.

(** The instance after the calls of [update] recorded in a trace. *)
Definition instance_after (trace : list Terminal.event) (q : GwQueue.t)
    : GwQueue.t :=
  fold_left
    (fun q e =>
       match e with
       | Terminal.Update _ u => GwQueue.update u q
       | _ => q
       end)
    trace q.

(** The status query reports the message as sent. *)
Definition reports_sent (status : Term.reply) (q : GwQueue.t) : bool :=
  Term.success status
  && loose_eq (Term.hash status) (Some (GwQueue.hash q))
  && Term.status status.

(** The status query reports the message as still outstanding: it knows
    the message, and its status is not success. *)
Definition reports_outstanding (status : Term.reply) (q : GwQueue.t) : bool :=
  Term.success status
  && loose_eq (Term.hash status) (Some (GwQueue.hash q))
  && negb (Term.status status).

(** The status query itself fails: its answer reports no success. *)
Definition query_fails (status : Term.reply) : bool :=
  negb (Term.success status).

(** An attempt on [q] that fails: the database takes the update, the send
    is rejected, and the status query made for a retry is answered without
    reporting the message as sent. *)
Definition fails (round : Faults * Term.answers) (q : GwQueue.t) : Prop :=
  update_rejects (fst round) = false
  /\ Term.on_sendMessage (snd round) = Some Rejected
  /\ (GwQueue.retry q <> None ->
      exists status, Term.on_query (snd round) = Fulfilled status
                     /\ reports_sent status q = false).

(** [process] run on the instance once per round, each on the outcome of
    the one before. *)
Fixpoint attempts (rounds : list (Faults * Term.answers)) (st : Store)
    (q : GwQueue.t) : Store * GwQueue.t :=
  match rounds with
  | [] => (st, q)
  | round :: rest =>
      let r := Terminal.process (fst round) (snd round) st q in
      attempts rest (fst r) (instance_after (snd r) q)
  end.

(** Every round of the sequence fails on the instance it finds. *)
Fixpoint all_fail (rounds : list (Faults * Term.answers)) (st : Store)
    (q : GwQueue.t) : Prop :=
  match rounds with
  | [] => True
  | round :: rest =>
      fails round q
      /\ let r := Terminal.process (fst round) (snd round) st q in
         all_fail rest (fst r) (instance_after (snd r) q)
  end.

(** ** Activity dispatcher *)

(** A group was given to [add]. *)
Definition given (group : option string) : Prop :=
  exists g, group = Some g /\ g <> ""%string.

(** The operator the host resolves for the address. *)
Definition resolves (appterm : AppTerm.t) (address : option string)
    (op : string) : Prop :=
  AppTerm.getOperator appterm address = Some op /\ op <> ""%string.

(** Eligibility of a channel, in the words of the specification. *)
Definition eligible (appterm : AppTerm.t) (type : Z) (address : option string)
    (group : option string) (term : Term.t) : Prop :=
  Term.connected term = true
  /\ (given group -> Term.group (Term.options term) = group)
  /\ (type = ACTIVITY_CALL -> Term.allowCall (Term.options term) = true)
  /\ (type = ACTIVITY_SMS -> Term.sendMessage (Term.options term) = true)
  /\ (Term.operators (Term.options term) <> [] -> type <> ACTIVITY_USSD ->
      exists op, resolves appterm address op
                 /\ In op (Term.operators (Term.options term))).

(** The premium length in force. *)
Definition premium_length (appterm : AppTerm.t) : nat :=
  match AppTerm.premiumlen (AppTerm.config appterm) with
  | Some n => if Nat.eqb n 0 then 5%nat else n
  | None => 5%nat
  end.

(** The address is on the configured blacklist. *)
Definition blacklisted (appterm : AppTerm.t) (a : string) : Prop :=
  exists l, AppTerm.blacklists (AppTerm.config appterm) = Some l /\ In a l.

(** The plugin is in the scope of the terminal's group. *)
Definition in_scope (term : Term.t) (plugin : Plugin.t) : bool :=
  match Plugin.group plugin with
  | None => true
  | Some g =>
      match Term.group (Term.options term) with
      | Some g' => (g' =? g)%string
      | None => false
      end
  end.

(** The plugins whose [handle] a trace records, in order. *)
Definition handled (trace : list Activity.event) : list string :=
  flat_map
    (fun e =>
       match e with
       | Activity.Handle plugin _ => [plugin]
       | _ => []
       end)
    trace.

(** The socket notifications a trace records, in order. *)
Definition notified (trace : list Activity.event) : list string :=
  flat_map
    (fun e =>
       match e with
       | Activity.Emit socket _ _ _ _ _ => [socket]
       | _ => []
       end)
    trace.

(** The same plugin, setting [veto] on whatever it is handed. *)
Definition vetoing (p : Plugin.t) : Plugin.t :=
  {| Plugin.name := Plugin.name p;
     Plugin.group := Plugin.group p;
     Plugin.handle := fun q =>
       let q' := Plugin.handle p q in
       {| GwQueue.id := GwQueue.id q'; GwQueue.imsi := GwQueue.imsi q';
          GwQueue.hash := GwQueue.hash q'; GwQueue.type := GwQueue.type q';
          GwQueue.address := GwQueue.address q'; GwQueue.data := GwQueue.data q';
          GwQueue.priority := GwQueue.priority q';
          GwQueue.processed := GwQueue.processed q';
          GwQueue.status := GwQueue.status q'; GwQueue.retry := GwQueue.retry q';
          GwQueue.time := GwQueue.time q'; GwQueue.veto := true |} |}.

(** The retry counter, [0] for a row never retried. *)
Definition retries (q : GwQueue.t) : Z := GwQueue.pick (GwQueue.retry q) 0.

(** [addressAllowed(address) ? true : false] *)
Definition passes (isNaN : string -> bool) (appterm : AppTerm.t)
    (address : option string) : bool :=
  match Activity.addressAllowed isNaN appterm address with
  | Some true => true
  | _ => false
  end.

(** The updates [processQueue] issues. *)
Definition outcome (processed : bool) : GwQueue.updates :=
  {| GwQueue.set_processed := Some 1;
     GwQueue.set_status := Some (if processed then 1 else 0);
     GwQueue.set_retry := None |}.

(** The updates of a retry found to have been sent. *)
Definition reconciled : GwQueue.updates :=
  {| GwQueue.set_processed := None;
     GwQueue.set_status := Some 1;
     GwQueue.set_retry := None |}.

(** The host with other plugins. *)
Definition with_plugins (appterm : AppTerm.t) (plugins : list Plugin.t)
    : AppTerm.t :=
  {| AppTerm.terminals := AppTerm.terminals appterm;
     AppTerm.gwclients := AppTerm.gwclients appterm;
     AppTerm.plugins := plugins;
     AppTerm.config := AppTerm.config appterm;
     AppTerm.get := AppTerm.get appterm;
     AppTerm.getOperator := AppTerm.getOperator appterm |}.

(** The table after [processQueue] was run on [q] once per element of
    [rounds], each time on the table left by the run before. *)
Definition reprocessed (isNaN : string -> bool) (appterm : AppTerm.t)
    (rounds : list Faults) (db : list GwQueue.t) (q : GwQueue.t)
    : list GwQueue.t :=
  fold_left (fun db f => fst (Activity.processQueue isNaN appterm f db q))
    rounds db.

(** The selection of the activity snapshot. *)
Definition inbound (q : GwQueue.t) : Prop :=
  GwQueue.processed q = 0
  /\ (GwQueue.type q = ACTIVITY_RING \/ GwQueue.type q = ACTIVITY_INBOX
      \/ GwQueue.type q = ACTIVITY_CUSD).

(** One cycle of a terminal dispatcher over the store: a reload signal, an
    idle signal (which starts the fetch), the answer to the fetch, and an
    idle signal, which hands the head of the snapshot, if any, to
    [process]. *)
Definition cycle (now : Z) (round : Faults * Term.answers)
    (s : Terminal.t * Store) : Terminal.t * Store :=
  let started := fst (Terminal.idle now (Terminal.reload (fst s))) in
  let fetched := Terminal.loaded (gw_queue (snd s)) now started in
  match Terminal.idle now fetched with
  | (this, Some q) =>
      (this, fst (Terminal.process (fst round) (snd round) (snd s) q))
  | (this, None) => (this, snd s)
  end.

(** ** Sample data *)

Module Sample.

Local Open Scope string_scope.

Definition options (priority : Z) (group : string) : Term.opts :=
  {| Term.priority := priority; Term.group := Some group;
     Term.allowCall := true; Term.sendMessage := true;
     Term.receiveMessage := true; Term.operators := [] |}.

Definition term : Term.t :=
  {| Term.name := "510100000000001"; Term.connected := true;
     Term.busy := false; Term.options := options 10 "G" |}.

Definition term2 : Term.t :=
  {| Term.name := "510100000000002"; Term.connected := true;
     Term.busy := false; Term.options := options 10 "G" |}.

Definition term3 : Term.t :=
  {| Term.name := "510100000000003"; Term.connected := true;
     Term.busy := false; Term.options := options 20 "G" |}.

Definition this : Terminal.t := Terminal.new term 0.

(** A message to send, and the table after it was saved for [term]. *)
Definition sms : Queue.t :=
  {| Queue.hash := "h1"; Queue.type := ACTIVITY_SMS;
     Queue.address := Some "08123456789"; Queue.data := "hello";
     Queue.priority := None; Queue.time := None |}.

Definition row : GwQueue.t := newQueue [] (Term.name term) sms 0.

Definition st : Store :=
  {| gw_queue := fst (saveQueue no_faults 0 [] (Term.name term) sms);
     gw_log := [] |}.

(** Two calls for the sample message, the second made when the first is
    over. *)
Definition in_turn : list save_turn :=
  [Count (no_faults, 0, Term.name term, sms); Create 0%nat;
   Count (no_faults, 5, Term.name term, sms)].

(** Two calls for the sample message whose counts are answered before
    either create is served. *)
Definition overlap : list save_turn :=
  [Count (no_faults, 0, Term.name term, sms);
   Count (no_faults, 0, Term.name term, sms);
   Create 0%nat; Create 0%nat].

(** The terminal rejects every send and knows nothing of the message. *)
Definition unknown : Term.reply :=
  {| Term.success := false; Term.hash := None; Term.status := false |}.

Definition rejecting : Term.answers :=
  {| Term.on_dial := None; Term.on_sendMessage := Some Rejected;
     Term.on_ussd := None; Term.on_query := Fulfilled unknown |}.

Definition four : list (Faults * Term.answers) :=
  [(no_faults, rejecting); (no_faults, rejecting);
   (no_faults, rejecting); (no_faults, rejecting)].

(** The same message after one failed attempt. *)
Definition retried : GwQueue.t :=
  snd (attempts [(no_faults, rejecting)] st row).

(** The terminal reports the message as sent. *)
Definition sent : Term.reply :=
  {| Term.success := true; Term.hash := Some "h1"; Term.status := true |}.

Definition confirming : Term.answers :=
  {| Term.on_dial := None; Term.on_sendMessage := Some Rejected;
     Term.on_ussd := None; Term.on_query := Fulfilled sent |}.

(** Three rows for [term] with priorities 50, 10, 20 and equal times. *)
Definition prio (i p : Z) : GwQueue.t :=
  {| GwQueue.id := i; GwQueue.imsi := Term.name term; GwQueue.hash := "h";
     GwQueue.type := ACTIVITY_SMS; GwQueue.address := Some "08123456789";
     GwQueue.data := "hello"; GwQueue.priority := p; GwQueue.processed := 0;
     GwQueue.status := 0; GwQueue.retry := None; GwQueue.time := 7;
     GwQueue.veto := false |}.

Definition three : list GwQueue.t := [prio 1 50; prio 2 10; prio 3 20].

(** An inbound message, from a short number, for [term]. *)
Definition inbox (address : string) : GwQueue.t :=
  {| GwQueue.id := 9; GwQueue.imsi := Term.name term; GwQueue.hash := "h9";
     GwQueue.type := ACTIVITY_INBOX; GwQueue.address := Some address;
     GwQueue.data := "hi"; GwQueue.priority := 20; GwQueue.processed := 0;
     GwQueue.status := 0; GwQueue.retry := None; GwQueue.time := 7;
     GwQueue.veto := false |}.

(** The prepaid plugin: no group, and it leaves the instance alone. *)
Definition prepaid : Plugin.t :=
  {| Plugin.name := "prepaid"; Plugin.group := None;
     Plugin.handle := fun q => q |}.

Definition other : Plugin.t :=
  {| Plugin.name := "other"; Plugin.group := Some "H";
     Plugin.handle := fun q => q |}.

Definition find (terms : list Term.t) (name : string) : option Term.t :=
  List.find (fun t => (Term.name t =? name)%string) terms.

(** A host with the three terminals, one client in group G and one in
    group H, and two plugins. *)
Definition appterm : AppTerm.t :=
  {| AppTerm.terminals := [term3; term; term2];
     AppTerm.gwclients :=
       [ {| Socket.id := "s1"; Socket.group := Some "G" |};
         {| Socket.id := "s2"; Socket.group := Some "H" |} ];
     AppTerm.plugins := [vetoing prepaid; other; prepaid];
     AppTerm.config :=
       {| AppTerm.blacklists := Some ["08999999999"%string];
          AppTerm.premiumlen := None |};
     AppTerm.get := find [term3; term; term2];
     AppTerm.getOperator := fun _ => None |}.

(** A host that knows no terminal by name. *)
Definition stranger : AppTerm.t :=
  {| AppTerm.terminals := AppTerm.terminals appterm;
     AppTerm.gwclients := AppTerm.gwclients appterm;
     AppTerm.plugins := AppTerm.plugins appterm;
     AppTerm.config := AppTerm.config appterm;
     AppTerm.get := fun _ => None;
     AppTerm.getOperator := fun _ => None |}.

End Sample.

(** * Further vocabulary *)

(** The kinds of work bound to a channel, and the inbound kinds. *)
Definition outbound (ty : Z) : Prop :=
  ty = ACTIVITY_CALL \/ ty = ACTIVITY_SMS \/ ty = ACTIVITY_USSD.

Definition incoming (ty : Z) : Prop :=
  ty = ACTIVITY_RING \/ ty = ACTIVITY_INBOX \/ ty = ACTIVITY_CUSD.

(** [a] comes no later than [b] by (priority, time), ascending. *)
Definition precedes_inbound (a b : GwQueue.t) : Prop :=
  GwQueue.priority a < GwQueue.priority b
  \/ (GwQueue.priority a = GwQueue.priority b
      /\ GwQueue.time a <= GwQueue.time b).

(** The calls made on the terminal that a trace records, in order. *)
Definition calls (trace : list Terminal.event) : list Terminal.event :=
  filter
    (fun e =>
       match e with
       | Terminal.Query _ _ | Terminal.Dial _ | Terminal.SendMessage _
       | Terminal.Ussd _ => true
       | _ => false
       end)
    trace.

(** The database serves every request of the call. *)
Definition served (f : Faults) : Prop :=
  count_rejects f = false /\ create_rejects f = false
  /\ update_rejects f = false.

(** An attempt on a message that gets to [sendMessage]: the status query
    made for a retry is answered without reporting the message as sent. *)
Definition reaches_send (a : Term.answers) (q : GwQueue.t) : Prop :=
  GwQueue.retry q <> None ->
  exists status, Term.on_query a = Fulfilled status
                 /\ reports_sent status q = false.

(** What the terminal returns for the operation of a call or a USSD
    request. *)
Definition answer_for (a : Term.answers) (q : GwQueue.t)
    : option (settled bool) :=
  if GwQueue.type q =? ACTIVITY_CALL then Term.on_dial a else Term.on_ussd a.

(** The socket is in the group of the terminal. *)
Definition same_group (term : Term.t) (socket : Socket.t) : bool :=
  loose_eq (Term.group (Term.options term)) (Socket.group socket).

(** The event is a call of a plugin's [handle]. *)
Definition is_handle (e : Activity.event) : bool :=
  match e with
  | Activity.Handle _ _ => true
  | _ => false
  end.

(** The event is a notification of a socket. *)
Definition is_emit (e : Activity.event) : bool :=
  match e with
  | Activity.Emit _ _ _ _ _ _ => true
  | _ => false
  end.

(** No plugin of the host changes the [id] of the instance it handles. *)
Definition plugins_keep_id (appterm : AppTerm.t) : Prop :=
  forall plugin q,
    In plugin (AppTerm.plugins appterm) ->
    GwQueue.id (Plugin.handle plugin q) = GwQueue.id q.

(** ** The loop of the activity dispatcher

    [check] and [process] of the activity dispatcher, with what they leave
    pending: the callbacks given to [process.nextTick], the handlers
    registered with [once('queue')], the timer, the fetch started by
    [load], and the items given to [processQueue] whose [done] has not been
    called.  Each of [reload], the callback of [getQueues], a pending tick,
    a [done] and the timer runs to its end before the next one starts. *)

Module ActivityLoop.

Record t : Type := mk {
  base : Dispatcher.t;
  processing : bool;
  timeout : bool;
  ticks : nat;
  listeners : nat;
  handling : list GwQueue.t
}.

Definition new (now : Z) : t :=
  {| base := Dispatcher.new now; processing := false; timeout := false;
     ticks := 0; listeners := 0; handling := [] |}.

Definition with_base (d : Dispatcher.t) (a : t) : t :=
  {| base := d; processing := processing a; timeout := timeout a;
     ticks := ticks a; listeners := listeners a; handling := handling a |}.

(** [process()] *)
Definition process (a : t) : t :=
  let a1 :=
    if negb (Nat.eqb (List.length (Dispatcher.queues (base a))) 0)
       && negb (processing a)
    then {| base := base a; processing := true; timeout := timeout a;
            ticks := S (ticks a); listeners := S (listeners a);
            handling := handling a |}
    else a in
  if Nat.eqb (List.length (Dispatcher.queues (base a1))) 0 then
    if negb (timeout a1) then
      {| base := base a1; processing := processing a1; timeout := true;
         ticks := ticks a1; listeners := listeners a1;
         handling := handling a1 |}
    else a1
  else a1.

(** [check()] when [Date.now()] is [now]. *)
Definition check (appterm : AppTerm.t) (now : Z) (a : t) : t :=
  if negb (Nat.eqb (List.length (AppTerm.terminals appterm)) 0) then
    if Nat.eqb (List.length (AppTerm.gwclients appterm)) 0
       && Nat.eqb (List.length (AppTerm.plugins appterm)) 0
    then a
    else process (with_base (Dispatcher.reloadNeeded now (base a)) a)
  else a.

(** [reload()] *)
Definition reload (appterm : AppTerm.t) (now : Z) (a : t) : t :=
  check appterm now (with_base (Dispatcher.tick (base a)) a).

(** The callback [load] gave to [getQueues], run with [results]. *)
Definition loaded (appterm : AppTerm.t) (results : list GwQueue.t) (now : Z)
    (a : t) : t :=
  check appterm now
    (with_base (Dispatcher.loaded (fun d => d) results now (base a)) a).

(** The callback [process] gave to [process.nextTick]: with a non-empty
    snapshot it shifts the head and emits it, which hands it to
    [processQueue] once per registered handler and removes the handlers. *)
Definition tick (a : t) : t :=
  match Dispatcher.queues (base a) with
  | queue :: _ =>
      {| base := Dispatcher.shift (base a); processing := processing a;
         timeout := timeout a; ticks := pred (ticks a); listeners := 0;
         handling := handling a ++ repeat queue (listeners a) |}
  | [] =>
      {| base := base a; processing := processing a; timeout := timeout a;
         ticks := pred (ticks a); listeners := listeners a;
         handling := handling a |}
  end.

(** The [done] given to [processQueue], called for the oldest item in
    flight. *)
Definition done (appterm : AppTerm.t) (now : Z) (a : t) : t :=
  check appterm now
    {| base := base a; processing := false; timeout := timeout a;
       ticks := ticks a; listeners := listeners a;
       handling := tl (handling a) |}.

(** The callback given to [setTimeout]. *)
Definition timer (appterm : AppTerm.t) (now : Z) (a : t) : t :=
  check appterm now
    {| base := base a; processing := processing a; timeout := false;
       ticks := ticks a; listeners := listeners a; handling := handling a |}.

(** What can happen next. *)
Inductive turn : Type :=
| Reload (now : Z)
| Loaded (results : list GwQueue.t) (now : Z)
| Tick
| Done (now : Z)
| Timer (now : Z).

(** One turn, when there is something pending for it to run. *)
Definition step (appterm : AppTerm.t) (e : turn) (a : t) : option t :=
  match e with
  | Reload now => Some (reload appterm now a)
  | Loaded results now =>
      if Nat.eqb (Dispatcher.fetching (base a)) 0 then None
      else Some (loaded appterm results now a)
  | Tick => if Nat.eqb (ticks a) 0 then None else Some (tick a)
  | Done now =>
      match handling a with
      | [] => None
      | _ :: _ => Some (done appterm now a)
      end
  | Timer now => if timeout a then Some (timer appterm now a) else None
  end.

Fixpoint run (appterm : AppTerm.t) (turns : list turn) (a : t) : option t :=
  match turns with
  | [] => Some a
  | e :: rest =>
      match step appterm e a with
      | Some a' => run appterm rest a'
      | None => None
      end
  end.

End ActivityLoop.

(** At most one inbound item is scheduled or in flight, with the
    bookkeeping that goes with it. *)
Definition single_flight (a : ActivityLoop.t) : Prop :=
  (ActivityLoop.ticks a + List.length (ActivityLoop.handling a) <= 1)%nat
  /\ (ActivityLoop.listeners a <= 1)%nat
  /\ (ActivityLoop.processing a = false ->
      ActivityLoop.ticks a = 0%nat /\ ActivityLoop.handling a = []
      /\ ActivityLoop.listeners a = 0%nat)
  /\ (ActivityLoop.ticks a = 1%nat -> ActivityLoop.listeners a = 1%nat)
  /\ (ActivityLoop.handling a <> [] -> ActivityLoop.listeners a = 0%nat).

(** [processing] is set although nothing is scheduled or in flight. *)
Definition stuck (a : ActivityLoop.t) : Prop :=
  ActivityLoop.processing a = true
  /\ ActivityLoop.ticks a = 0%nat
  /\ ActivityLoop.handling a = [].

(** The host has nobody to fan out to, or no terminal. *)
Definition no_consumer (appterm : AppTerm.t) : Prop :=
  AppTerm.terminals appterm = []
  \/ (AppTerm.gwclients appterm = [] /\ AppTerm.plugins appterm = []).

(** ** The prepaid plugin *)

Module PrepaidPlugin.

(** [months] *)
Definition months : list (list string) :=
  [ ["jan"]; ["feb"; "peb"]; ["mar"]; ["apr"]; ["mei"; "may"]; ["jun"];
    ["jul"]; ["agu"; "aug"]; ["sep"]; ["okt"; "oct"]; ["nop"; "nov"];
    ["des"; "dec"] ]%string.

(** [String.prototype.toLowerCase] on the code units below 256: the
    capital letters A to Z and the capital letters from 192 to 222, the
    multiplication sign at 215 apart, move up by 32. *)
Definition lower (c : ascii) : ascii :=
  if ((65 <=? code c) && (code c <=? 90)
      || (192 <=? code c) && (code c <=? 222) && negb (code c =? 215))%nat
  then ascii_of_nat (code c + 32)
  else c.

Fixpoint toLowerCase (s : string) : string :=
  match s with
  | String c s' => String (lower c) (toLowerCase s')
  | EmptyString => EmptyString
  end.

(** The elements of an array with their indexes, as [forEach] passes
    them. *)
Definition indexed {A : Type} (l : list A) : list (A * Z) :=
  combine l (map Z.of_nat (seq 0 (List.length l))).

(** [monthIndex(month)] *)
Definition monthIndex (month : option string) : Z :=
  match month with
  | Some m =>
      if truthy_string m then
        let month := toLowerCase (String.substring 0 3 m) in
        forEach
          (fun (entry : list string * Z) (res : Z) =>
             if includes month (fst entry) then (snd entry + 1, true)
             else (res, false))
          (indexed months) 0
      else 0
  | None => 0
  end.

(** [str.indexOf(sep) >= 0], for a [sep] of one character. *)
Fixpoint has (sep : ascii) (str : string) : bool :=
  match str with
  | String c s => Ascii.eqb c sep || has sep s
  | EmptyString => false
  end.

(** The separator [fixDate] settles on: [forEach] goes through all three,
    its [return true] stops nothing. *)
Definition separator (str : string) : option ascii :=
  forEach
    (fun (sep : ascii) (res : option ascii) =>
       if has sep str then (Some sep, true) else (res, false))
    ["."; "-"; "/"]%char None.

(** [String.prototype.split(sep)] for a [sep] that is not empty: the
    pieces between the occurrences of [sep], each looked for from the end
    of the one before.  [skip] counts what is left of the occurrence being
    stepped over and [piece] is the piece read so far. *)
Fixpoint split_from (sep : string) (skip : nat) (piece str : string)
    : list string :=
  match str with
  | EmptyString => [piece]
  | String c s =>
      match skip with
      | S k => split_from sep k piece s
      | O =>
          if String.prefix sep str
          then piece :: split_from sep (String.length sep - 1) "" s
          else split_from sep 0 (piece ++ String c "") s
      end
  end.

Definition split (sep str : string) : list string :=
  split_from sep 0 "" str.

Definition is_letter (c : ascii) : bool :=
  ((65 <=? code c) && (code c <=? 90)
   || (97 <=? code c) && (code c <=? 122))%nat.

Fixpoint take_while (p : ascii -> bool) (s : string) : string :=
  match s with
  | String c s' => if p c then String c (take_while p s') else EmptyString
  | EmptyString => EmptyString
  end.

(** [new RegExp('[a-zA-Z]+').exec(str)]: the first run of letters. *)
Definition exec (str : string) : option string :=
  match drop_while (fun c => negb (is_letter c)) str with
  | EmptyString => None
  | s => Some (take_while is_letter s)
  end.

(** [parts.splice(1, 0, x)] *)
Definition splice {A : Type} (x : A) (parts : list A) : list A :=
  match parts with
  | [] => [x]
  | p :: rest => p :: x :: rest
  end.

(** The [parts] of [fixDate], when it has some. *)
Definition parts (str : string) : option (list string) :=
  match separator str with
  | Some sep => Some (split (String sep "") str)
  | None =>
      match exec str with
      | Some found => Some (splice found (split found str))
      | None => None
      end
  end.

(** What [fixDate] returns: the string as it came, or what [moment]
    makes of [new Date(y, m - 1, d)]; a number that is missing is [NaN]. *)
Inductive fixed : Type :=
| Kept (str : string)
| Formatted (y m d : option Z).

Section FixDate.

(** [parseInt], and [(new Date()).getFullYear().toString()]. *)
Variable parseInt : string -> option Z.
Variable year : string.

(** [fixDate(str)] *)
Definition fixDate (str : string) : fixed :=
  match parts str with
  | Some [p0; p1; p2] =>
      let d := parseInt p0 in
      let m := if negb (isNaN p1) then parseInt p1
               else Some (monthIndex (Some p1)) in
      let y := parseInt (if (String.length p2 =? 2)%nat
                         then String.substring 0 2 year ++ p2
                         else p2) in
      Formatted y m d
  | _ => Kept str
  end.

End FixDate.

(** An entry of [prepaid.json]. *)
Record data : Type := {
  ussd : string;
  response : list string
}.

(** The plugin: its host, the entries of [prepaid.json] by key, and the
    network code [term.info.network.code] of a terminal. *)
Record t : Type := mk {
  appterm : AppTerm.t;
  prepaid : string -> option data;
  network_code : Term.t -> string
}.

(** Calls made on the plugin itself and on a terminal. *)
Inductive event : Type :=
| Parse (queue : GwQueue.t) (d : data)
| AddUssdQueue (term : Term.t) (code : string).

(** [this.prepaid[term.info.network.code] ? ... :
     this.prepaid[imsi.substr(0, 5)]] *)
Definition entry (this : t) (term : Term.t) (imsi : string) : option data :=
  match prepaid this (network_code this term) with
  | Some d => Some d
  | None => prepaid this (String.substring 0 5 imsi)
  end.

(** [handle(queue)] *)
Definition handle (this : t) (queue : GwQueue.t) : list event :=
  if GwQueue.type queue =? ACTIVITY_CUSD then
    match AppTerm.get (appterm this) (GwQueue.imsi queue) with
    | Some term =>
        match entry this term (GwQueue.imsi queue) with
        | Some d =>
            if match GwQueue.address queue with
               | Some a => (ussd d =? a)%string
               | None => false
               end
            then [Parse queue d]
            else []
        | None => []
        end
    | None => []
    end
  else [].

(** The [POST] branch of [router] for [cmd = 'check'] and the imsi of the
    request body: [result.success] and the calls made. *)
Definition check (this : t) (imsi : string) : bool * list event :=
  match AppTerm.get (appterm this) imsi with
  | Some term =>
      match entry this term imsi with
      | Some d => (true, [AddUssdQueue term (ussd d)])
      | None => (false, [])
      end
  | None => (false, [])
  end.

End PrepaidPlugin.

(** ** Delivery reports and recent activity *)

(** A row of [gw_log] with the delivery report columns, which [saveLog]
    leaves empty. *)
Module GwLogRow.
Record t : Type := mk {
  log : GwLog.t;
  code : option Z;
  sent : option Z;
  received : option Z
}.
End GwLogRow.

(** The report handed to [updateReport]. *)
Module Report.
Record t : Type := mk {
  hash : string;
  code : Z;
  sent : Z;
  received : Z
}.
End Report.

Module AppStorageReports.

(** [condition]: the log row of a message of that origin and hash. *)
Definition condition (origin : string) (report : Report.t) (r : GwLogRow.t)
    : bool :=
  (GwLog.imsi (GwLogRow.log r) =? origin)%string
  && (GwLog.hash (GwLogRow.log r) =? Report.hash report)%string
  && (GwLog.type (GwLogRow.log r) =? ACTIVITY_SMS).

(** The instance after [update({code, sent, received})]. *)
Definition patched (report : Report.t) (r : GwLogRow.t) : GwLogRow.t :=
  {| GwLogRow.log := GwLogRow.log r;
     GwLogRow.code := Some (Report.code report);
     GwLogRow.sent := Some (Report.sent report);
     GwLogRow.received := Some (Report.received report) |}.

(** [updateReport(origin, report, done)]: the log afterwards and the calls
    of [done]; [find_rejects] tells whether the promise of [findOne] is
    rejected. *)
Definition updateReport (f : Faults) (find_rejects : bool)
    (lg : list GwLogRow.t) (origin : string) (report : Report.t)
    : list GwLogRow.t * list GwLogRow.t :=
  if count_rejects f then (lg, [])
  else if Z.of_nat (List.length (filter (condition origin report) lg)) =? 1 then
    if find_rejects then (lg, [])
    else
      match find (condition origin report) lg with
      | Some row =>
          if update_rejects f then (lg, [])
          else
            (map (fun r =>
                    if GwLog.id (GwLogRow.log r) =? GwLog.id (GwLogRow.log row)
                    then patched report r else r) lg,
             [patched report row])
      | None => (lg, [])
      end
  else (lg, []).

(** The kinds [countRecents] and [getRecents] look at. *)
Definition recent_kind (q : GwQueue.t) : bool :=
  (GwQueue.type q =? ACTIVITY_SMS) || (GwQueue.type q =? ACTIVITY_INBOX).

(** The addresses of the rows of those kinds. *)
Definition addresses (db : list GwQueue.t) : list (option string) :=
  map GwQueue.address (filter recent_kind db).

(** [ORDER BY a.time DESC] *)
Definition newest_first (a b : GwQueue.t) : bool :=
  GwQueue.time b <=? GwQueue.time a.

Section Collation.

(** When the database takes two addresses for the same one: its collation,
    which the queries leave to the database. *)
Variable collate : string -> string -> bool.

(** [NULL] addresses make one group. *)
Definition same_address (a b : option string) : bool :=
  match a, b with
  | Some x, Some y => collate x y
  | None, None => true
  | _, _ => false
  end.

(** The groups of [GROUP BY address]: one address for each group of rows
    of those kinds. *)
Fixpoint groups (l : list (option string)) : list (option string) :=
  match l with
  | [] => []
  | a :: l' =>
      if existsb (same_address a) l' then groups l' else a :: groups l'
  end.

(** [MAX(id)] over the rows of those kinds in the group of that address. *)
Definition max_id (db : list GwQueue.t) (address : option string) : Z :=
  match map GwQueue.id
          (filter (fun q => recent_kind q
                            && same_address (GwQueue.address q) address) db)
  with
  | [] => 0
  | i :: ids => fold_right Z.max i ids
  end.

(** The derived table [b]: one [id] per group. *)
Definition latest (db : list GwQueue.t) : list Z :=
  map (max_id db) (groups (addresses db)).

(** [a INNER JOIN b ON a.id = b.id] *)
Definition joined (db : list GwQueue.t) : list GwQueue.t :=
  flat_map
    (fun a => flat_map (fun b => if GwQueue.id a =? b then [a] else [])
                (latest db))
    db.

(** The [count] of the row [countRecents] resolves to. *)
Definition countRecents (db : list GwQueue.t) : Z :=
  Z.of_nat (List.length (joined db)).

(** [getRecents(offset, limit)]; rows of equal time are left in the order
    of the table. *)
Definition getRecents (db : list GwQueue.t) (offset limit : nat)
    : list GwQueue.t :=
  firstn limit (skipn offset (order_by newest_first (joined db))).

End Collation.

End AppStorageReports.

(** The comparison is an equivalence of addresses. *)
Definition collation (collate : string -> string -> bool) : Prop :=
  (forall x, collate x x = true)
  /\ (forall x y, collate x y = true -> collate y x = true)
  /\ (forall x y z,
        collate x y = true -> collate y z = true -> collate x z = true).

(** The row is a message sent or received. *)
Definition message (q : GwQueue.t) : Prop :=
  GwQueue.type q = ACTIVITY_SMS \/ GwQueue.type q = ACTIVITY_INBOX.

(** The two rows have the same address for the database. *)
Definition same_party (collate : string -> string -> bool)
    (a b : GwQueue.t) : Prop :=
  AppStorageReports.same_address collate (GwQueue.address a)
    (GwQueue.address b) = true.

(** The row is the latest message of its address. *)
Definition latest_of_address (collate : string -> string -> bool)
    (db : list GwQueue.t) (a : GwQueue.t) : Prop :=
  In a db /\ message a
  /\ forall r,
       In r db -> message r -> same_party collate r a ->
       GwQueue.id r <= GwQueue.id a.

(** Every character of the string passes the test. *)
Fixpoint every (p : ascii -> bool) (s : string) : bool :=
  match s with
  | String c s' => p c && every p s'
  | EmptyString => true
  end.

(** The character is none of the separators of [fixDate]. *)
Definition unseparated (c : ascii) : bool :=
  negb (Ascii.eqb c "." || Ascii.eqb c "-" || Ascii.eqb c "/").

(** The character is neither a separator nor a letter. *)
Definition plain (c : ascii) : bool :=
  unseparated c && negb (PrepaidPlugin.is_letter c).

(** The log row is the one of a message of that origin and hash. *)
Definition reported (origin : string) (report : Report.t) (r : GwLogRow.t)
    : Prop :=
  GwLog.imsi (GwLogRow.log r) = origin
  /\ GwLog.hash (GwLogRow.log r) = Report.hash report
  /\ GwLog.type (GwLogRow.log r) = ACTIVITY_SMS.

(** ** Further sample data *)

Module Sample2.

Local Open Scope string_scope.

(** The terminal takes the send but its reply reports no success. *)
Definition unsuccessful : Term.answers :=
  {| Term.on_dial := None;
     Term.on_sendMessage := Some (Fulfilled false);
     Term.on_ussd := None;
     Term.on_query := Fulfilled Sample.unknown |}.

(** The store after the first failed attempt on the sample message. *)
Definition failed_once : Store :=
  fst (attempts [(no_faults, Sample.rejecting)] Sample.st Sample.row).

(** A dispatcher that started two fetches, the second on a reload signal
    that came before the first was answered, when the first one has been
    answered, with no row, at time 3. *)
Definition answered_once : Dispatcher.t :=
  Dispatcher.loaded Terminal.check [] 3
    (Dispatcher.load
       (Dispatcher.tick
          (Dispatcher.load (Dispatcher.tick (Dispatcher.new 0))))).

(** A call to place through the sample terminal. *)
Definition call : GwQueue.t :=
  {| GwQueue.id := 4; GwQueue.imsi := Term.name Sample.term;
     GwQueue.hash := "h4"; GwQueue.type := ACTIVITY_CALL;
     GwQueue.address := Some "08123456789"; GwQueue.data := "";
     GwQueue.priority := 20; GwQueue.processed := 0;
     GwQueue.status := 0; GwQueue.retry := None; GwQueue.time := 1;
     GwQueue.veto := false |}.

(** The terminal takes the call and hangs up with an error. *)
Definition hanging_up : Term.answers :=
  {| Term.on_dial := Some Rejected;
     Term.on_sendMessage := None;
     Term.on_ussd := None;
     Term.on_query := Fulfilled Sample.unknown |}.

(** The store that holds the call. *)
Definition calling : Store :=
  {| gw_queue := [call]; gw_log := [] |}.

(** The log row of the sample message, as [saveLog] writes it, and a
    delivery report for it. *)
Definition delivered : GwLogRow.t :=
  {| GwLogRow.log := newLog [] (Term.name Sample.term) Sample.retried;
     GwLogRow.code := None; GwLogRow.sent := None;
     GwLogRow.received := None |}.

Definition delivery : Report.t :=
  {| Report.hash := "h1"; Report.code := 0; Report.sent := 7;
     Report.received := 9 |}.

(** A host without any terminal. *)
Definition nobody : AppTerm.t :=
  {| AppTerm.terminals := [];
     AppTerm.gwclients := AppTerm.gwclients Sample.appterm;
     AppTerm.plugins := AppTerm.plugins Sample.appterm;
     AppTerm.config := AppTerm.config Sample.appterm;
     AppTerm.get := fun _ => None;
     AppTerm.getOperator := fun _ => None |}.

(** The prepaid plugin of the sample host: one entry, under the first
    five digits of the imsi of the sample terminals. *)
Definition balance : PrepaidPlugin.data :=
  {| PrepaidPlugin.ussd := "*888#";
     PrepaidPlugin.response := ["Pulsa (?<BALANCE>[0-9]+)"] |}.

Definition plugin : PrepaidPlugin.t :=
  {| PrepaidPlugin.appterm := Sample.appterm;
     PrepaidPlugin.prepaid :=
       fun key => if (key =? "51010")%string then Some balance else None;
     PrepaidPlugin.network_code := fun _ => "51001" |}.

(** The answer to the balance request of the sample terminal. *)
Definition cusd : GwQueue.t :=
  {| GwQueue.id := 6; GwQueue.imsi := Term.name Sample.term;
     GwQueue.hash := "h6"; GwQueue.type := ACTIVITY_CUSD;
     GwQueue.address := Some "*888#"; GwQueue.data := "Pulsa 5000";
     GwQueue.priority := 20; GwQueue.processed := 0;
     GwQueue.status := 0; GwQueue.retry := None; GwQueue.time := 1;
     GwQueue.veto := false |}.

(** A reading of the strings of decimal digits, as [parseInt] reads the
    short ones; the others are not read. *)
Definition digits (s : string) : option Z :=
  if negb (s =? "") && every is_digit s then
    Some (fold_left (fun n c => 10 * n + Z.of_nat (code c - 48))
            (list_ascii_of_string s) 0)
  else None.

(** A row of the table, of that kind, with that party, at that time. *)
Definition talk (i kind : Z) (address : string) (time : Z) : GwQueue.t :=
  {| GwQueue.id := i; GwQueue.imsi := Term.name Sample.term;
     GwQueue.hash := "h"; GwQueue.type := kind;
     GwQueue.address := Some address; GwQueue.data := "";
     GwQueue.priority := 20; GwQueue.processed := 1;
     GwQueue.status := 1; GwQueue.retry := None; GwQueue.time := time;
     GwQueue.veto := false |}.

(** Two parties: a message sent to the first and its answer, a message of
    the second, and a call to the first. *)
Definition talks : list GwQueue.t :=
  [talk 1 ACTIVITY_SMS "0811" 10; talk 2 ACTIVITY_INBOX "0822" 20;
   talk 3 ACTIVITY_INBOX "0811" 30; talk 4 ACTIVITY_CALL "0811" 40].

End Sample2.

(** Unfolds the invariants of the activity loop. *)
Ltac same_flight :=
  unfold single_flight, stuck in *; simpl in *; intuition.

(** * Properties *)

(** ** Sorting *)

Section OrderByFacts.
Context {A : Type}.
Variable leb : A -> A -> bool.

Lemma insert_by_perm (x : A) (l : list A) :
  Permutation (insert_by leb x l) (x :: l).
Proof.
  induction l as [|y l IH]; simpl.
  - reflexivity.
  - destruct (leb x y).
    + reflexivity.
    + rewrite IH. apply perm_swap.
Qed.

Lemma order_by_perm (l : list A) : Permutation (order_by leb l) l.
Proof.
  induction l as [|x l IH]; simpl.
  - reflexivity.
  - rewrite insert_by_perm. now constructor.
Qed.

Lemma order_by_In (l : list A) (x : A) : In x (order_by leb l) <-> In x l.
Proof.
  split; apply Permutation_in; [|symmetry]; apply order_by_perm.
Qed.

Lemma order_by_length (l : list A) :
  List.length (order_by leb l) = List.length l.
Proof. apply Permutation_length, order_by_perm. Qed.

Hypothesis leb_total : forall a b, leb a b = false -> leb b a = true.
Hypothesis leb_trans :
  forall a b c, leb a b = true -> leb b c = true -> leb a c = true.

Lemma insert_by_sorted (x : A) (l : list A) :
  StronglySorted (fun a b => leb a b = true) l ->
  StronglySorted (fun a b => leb a b = true) (insert_by leb x l).
Proof.
  induction 1 as [|y l Hs IH Hy]; simpl.
  - constructor; constructor.
  - destruct (leb x y) eqn:E.
    + constructor.
      * now constructor.
      * constructor; trivial.
        eapply Forall_impl; [|exact Hy].
        intros b Hb. now apply leb_trans with y.
    + constructor; trivial.
      eapply Permutation_Forall.
      * symmetry. apply insert_by_perm.
      * constructor; auto.
Qed.

Lemma order_by_sorted (l : list A) :
  StronglySorted (fun a b => leb a b = true) (order_by leb l).
Proof.
  induction l as [|x l IH]; simpl.
  - constructor.
  - now apply insert_by_sorted.
Qed.

End OrderByFacts.

Lemma StronglySorted_impl {A : Type} (R S : A -> A -> Prop) (l : list A) :
  (forall a b, R a b -> S a b) -> StronglySorted R l -> StronglySorted S l.
Proof.
  intros HRS. induction 1 as [|x l Hs IH Hx]; constructor; trivial.
  eapply Forall_impl; [|exact Hx]. auto.
Qed.

(** ** The snapshot of the terminal dispatcher *)

Lemma terminal_order_precedes (a b : GwQueue.t) :
  Terminal.order a b = true <-> precedes a b.
Proof.
  unfold Terminal.order, precedes.
  destruct (Z.ltb_spec (GwQueue.priority a) (GwQueue.priority b));
  destruct (Z.ltb_spec (GwQueue.priority b) (GwQueue.priority a));
  destruct (Z.ltb_spec (GwQueue.processed a) (GwQueue.processed b));
  destruct (Z.ltb_spec (GwQueue.processed b) (GwQueue.processed a));
  destruct (Z.leb_spec (GwQueue.time a) (GwQueue.time b));
  split; intros; try lia; try discriminate; try reflexivity.
Qed.

Lemma terminal_order_total (a b : GwQueue.t) :
  Terminal.order a b = false -> Terminal.order b a = true.
Proof.
  intros H. apply terminal_order_precedes.
  assert (~ precedes a b) as N.
  { intros P. apply terminal_order_precedes in P. congruence. }
  unfold precedes in *. lia.
Qed.

Lemma terminal_order_trans (a b c : GwQueue.t) :
  Terminal.order a b = true -> Terminal.order b c = true ->
  Terminal.order a c = true.
Proof.
  rewrite !terminal_order_precedes. unfold precedes. lia.
Qed.

Lemma retry_lte_spec (r : option Z) (m : Z) :
  Terminal.retry_lte r m = true <-> exists n, r = Some n /\ n <= m.
Proof.
  destruct r as [n|]; simpl.
  - rewrite Z.leb_le. split.
    + intros H. now exists n.
    + intros [k [E H]]. now inversion E.
  - split; [discriminate|]. now intros [k [E _]].
Qed.

Lemma terminal_where_selected (this : Terminal.t) (q : GwQueue.t) :
  Terminal.where_ this q = true <-> selected this q.
Proof.
  unfold Terminal.where_, selected.
  rewrite !andb_true_iff, !orb_true_iff, !andb_true_iff, !orb_true_iff.
  rewrite retry_lte_spec, String.eqb_eq, !Z.eqb_eq.
  tauto.
Qed.

Lemma terminal_getQueues_In (this : Terminal.t) (db : list GwQueue.t) (q : GwQueue.t) :
  In q (Terminal.getQueues this db) <-> In q db /\ selected this q.
Proof.
  unfold Terminal.getQueues.
  rewrite order_by_In, filter_In, terminal_where_selected. tauto.
Qed.

Lemma terminal_getQueues_sorted (this : Terminal.t) (db : list GwQueue.t) :
  StronglySorted precedes (Terminal.getQueues this db).
Proof.
  apply StronglySorted_impl with (R := fun a b => Terminal.order a b = true).
  - intros a b. apply terminal_order_precedes.
  - apply order_by_sorted.
    + apply terminal_order_total.
    + apply terminal_order_trans.
Qed.

Lemma drain_queues (now : Z) (l : list GwQueue.t) :
  forall this : Terminal.t,
    Dispatcher.count (Terminal.base this) = 0 ->
    Term.busy (Terminal.term this) = false ->
    Dispatcher.queues (Terminal.base this) = l ->
    drain (List.length l) now this = l.
Proof.
  induction l as [|q l IH]; intros this Hc Hb Hq.
  - reflexivity.
  - simpl. unfold Terminal.idle, Dispatcher.reloadNeeded.
    rewrite Hc, Hq. simpl. rewrite Hq, Hb. simpl.
    f_equal. apply IH; simpl; trivial.
    now rewrite Hq.
Qed.

Lemma terminal_getQueues_three (this : Terminal.t) (a b c : GwQueue.t) :
  selected this a -> selected this b -> selected this c ->
  GwQueue.priority a = 50 -> GwQueue.priority b = 10 -> GwQueue.priority c = 20 ->
  Terminal.getQueues this [a; b; c] = [b; c; a].
Proof.
  intros Ha Hb Hc Pa Pb Pc.
  apply terminal_where_selected in Ha, Hb, Hc.
  assert (Terminal.order b c = true) as Obc
    by (unfold Terminal.order; rewrite Pb, Pc; reflexivity).
  assert (Terminal.order a b = false) as Oab
    by (unfold Terminal.order; rewrite Pa, Pb; reflexivity).
  assert (Terminal.order a c = false) as Oac
    by (unfold Terminal.order; rewrite Pa, Pc; reflexivity).
  unfold Terminal.getQueues, order_by.
  cbn [filter]. rewrite Ha, Hb, Hc.
  cbn [fold_right insert_by]. rewrite Obc.
  cbn [insert_by]. now rewrite Oab, Oac.
Qed.

(** C5. The snapshot of a terminal dispatcher holds exactly the rows of its
    channel that are unprocessed calls, messages or USSD requests, or
    processed, failed messages retried at most [maxRetry] times; it is
    ordered by priority, then processed, then time, ascending; the ['idle']
    signals hand its rows over in that order; rows of priorities 50, 10, 20
    (whatever their times) come out as 10, 20, 50. *)
Theorem terminal_snapshot (this : Terminal.t) (db : list GwQueue.t) :
  (forall q, In q (Terminal.getQueues this db) <-> In q db /\ selected this q)
  /\ Permutation (Terminal.getQueues this db) (filter (Terminal.where_ this) db)
  /\ StronglySorted precedes (Terminal.getQueues this db)
  /\ (forall now now',
        Dispatcher.count (Terminal.base this) = 0 ->
        Term.busy (Terminal.term this) = false ->
        drain (List.length (Terminal.getQueues this db)) now'
          (Terminal.loaded db now this)
        = Terminal.getQueues this db)
  /\ (forall a b c,
        db = [a; b; c] ->
        selected this a -> selected this b -> selected this c ->
        GwQueue.priority a = 50 -> GwQueue.priority b = 10 ->
        GwQueue.priority c = 20 ->
        GwQueue.time a = GwQueue.time b -> GwQueue.time b = GwQueue.time c ->
        map GwQueue.priority (Terminal.getQueues this db) = [10; 20; 50]).
Proof.
  split; [|split; [|split; [|split]]].
  - intros q. apply terminal_getQueues_In.
  - apply order_by_perm.
  - apply terminal_getQueues_sorted.
  - intros now now' Hc Hb. apply drain_queues; trivial.
  - intros a b c -> Ha Hb Hc Pa Pb Pc _ _.
    rewrite (terminal_getQueues_three this a b c); trivial.
    simpl. now rewrite Pa, Pb, Pc.
Qed.

Lemma terminal_snapshot_witness :
  map GwQueue.priority (Terminal.getQueues Sample.this Sample.three)
  = [10; 20; 50].
Proof.
  destruct (terminal_snapshot Sample.this Sample.three) as (_ & _ & _ & _ & H).
  apply (H (Sample.prio 1 50) (Sample.prio 2 10) (Sample.prio 3 20));
    try reflexivity;
    (split; [reflexivity|left; split; [reflexivity|right; left; reflexivity]]).
Defined.

(** ** Failed attempts and the retry counter *)

Lemma updates_failed_sms (b : bool) (q : GwQueue.t) :
  GwQueue.type q = ACTIVITY_SMS -> 0 <= retries q ->
  Terminal.updates b q false
  = {| GwQueue.set_processed := Some 1;
       GwQueue.set_status := None;
       GwQueue.set_retry := Some (retries q + 1) |}.
Proof.
  intros Ty Hr. unfold Terminal.updates, retries in *.
  rewrite Ty. simpl. f_equal.
  destruct (GwQueue.retry q) as [r|]; simpl in *; trivial.
  unfold truthy_number. destruct (Z.eqb_spec r 0); subst; reflexivity.
Qed.

Lemma save_In (q : GwQueue.t) (u : GwQueue.updates) (db : list GwQueue.t) :
  In q db -> In (GwQueue.update u q) (GwQueue.save (GwQueue.id q) u db).
Proof.
  intros H. unfold GwQueue.save.
  apply in_map_iff. exists q. split; trivial.
  now rewrite Z.eqb_refl.
Qed.

(** One failing attempt on a message: the row is saved with the updates of
    [update(GwQueue, false)], which the instance carries afterwards. *)
Lemma process_fails (round : Faults * Term.answers) (st : Store) (q : GwQueue.t) :
  GwQueue.type q = ACTIVITY_SMS -> fails round q ->
  let r := Terminal.process (fst round) (snd round) st q in
  let u := Terminal.updates false q false in
  gw_queue (fst r) = GwQueue.save (GwQueue.id q) u (gw_queue st)
  /\ instance_after (snd r) q = GwQueue.update u q
  /\ In (Terminal.SendMessage q) (snd r).
Proof.
  intros Ty (Hu & Hs & Hq). unfold Terminal.process.
  rewrite Ty. simpl.
  assert (forall st0,
    let r := Terminal.emit (Terminal.SendMessage q)
               (Terminal.settle (fst round) st0 q
                  (Term.on_sendMessage (snd round))) in
    gw_queue (fst r)
    = GwQueue.save (GwQueue.id q) (Terminal.updates false q false) (gw_queue st0)
    /\ instance_after (snd r) q
       = GwQueue.update (Terminal.updates false q false) q
    /\ In (Terminal.SendMessage q) (snd r)) as Send.
  { intros st0. rewrite Hs. unfold Terminal.settle, Terminal.update.
    rewrite Hu, Ty. simpl. auto. }
  destruct (GwQueue.retry q) as [n|] eqn:R.
  - destruct (Hq ltac:(discriminate)) as (status & Eq & Hrep).
    rewrite Eq. unfold reports_sent in Hrep.
    destruct (Send st) as (S1 & S2 & S3).
    destruct (Term.success status
              && loose_eq (Term.hash status) (Some (GwQueue.hash q))).
    + simpl in Hrep. rewrite Hrep. simpl in *. auto.
    + simpl in *. auto.
  - apply Send.
Qed.

Lemma attempts_app (l1 l2 : list (Faults * Term.answers)) :
  forall st q,
    attempts (l1 ++ l2) st q
    = attempts l2 (fst (attempts l1 st q)) (snd (attempts l1 st q)).
Proof.
  induction l1 as [|r l1 IH]; intros st q; simpl; trivial.
Qed.

Lemma all_fail_app (l1 l2 : list (Faults * Term.answers)) :
  forall st q,
    all_fail (l1 ++ l2) st q ->
    all_fail l1 st q
    /\ all_fail l2 (fst (attempts l1 st q)) (snd (attempts l1 st q)).
Proof.
  induction l1 as [|r l1 IH]; intros st q; simpl.
  - auto.
  - intros [Hf Hrest]. apply IH in Hrest. tauto.
Qed.

(** The instance after a sequence of failing attempts on a message. *)
Lemma attempts_fail (rounds : list (Faults * Term.answers)) :
  forall st q,
    GwQueue.type q = ACTIVITY_SMS -> 0 <= retries q ->
    In q (gw_queue st) ->
    all_fail rounds st q ->
    let q' := snd (attempts rounds st q) in
    GwQueue.imsi q' = GwQueue.imsi q
    /\ GwQueue.type q' = ACTIVITY_SMS
    /\ GwQueue.status q' = GwQueue.status q
    /\ retries q' = retries q + Z.of_nat (List.length rounds)
    /\ In q' (gw_queue (fst (attempts rounds st q)))
    /\ (rounds <> [] ->
        GwQueue.processed q' = 1
        /\ GwQueue.retry q' = Some (retries q + Z.of_nat (List.length rounds))).
Proof.
  induction rounds as [|round rounds IH]; intros st q Ty Hr Hin Hall.
  - simpl. repeat split; trivial; try lia; congruence.
  - destruct Hall as [Hf Hall].
    destruct (process_fails round st q Ty Hf) as (Hdb & Hinst & _).
    rewrite (updates_failed_sms false q Ty Hr) in Hdb, Hinst.
    cbn [attempts]. cbv zeta.
    set (r := Terminal.process (fst round) (snd round) st q) in *.
    set (q1 := instance_after (snd r) q) in *.
    assert (GwQueue.type q1 = ACTIVITY_SMS) as Ty1 by (rewrite Hinst; exact Ty).
    assert (retries q1 = retries q + 1) as Hr1 by (rewrite Hinst; reflexivity).
    assert (In q1 (gw_queue (fst r))) as Hin1.
    { rewrite Hdb, Hinst. now apply save_In. }
    specialize (IH (fst r) q1 Ty1 ltac:(lia) Hin1 Hall).
    cbv zeta in IH.
    destruct IH as (I1 & I2 & I3 & I4 & I5 & I6).
    assert (GwQueue.imsi q1 = GwQueue.imsi q) as E1 by (rewrite Hinst; reflexivity).
    assert (GwQueue.status q1 = GwQueue.status q) as E2 by (rewrite Hinst; reflexivity).
    assert (GwQueue.processed q1 = 1) as E3 by (rewrite Hinst; reflexivity).
    assert (GwQueue.retry q1 = Some (retries q + 1)) as E4
      by (rewrite Hinst; reflexivity).
    rewrite I1, I3, I4, E1, E2, Hr1.
    replace (Z.of_nat (List.length (round :: rounds)))
      with (1 + Z.of_nat (List.length rounds)) by (simpl List.length; lia).
    repeat split; trivial; try lia.
    + destruct rounds as [|r2 rounds].
      * simpl. exact E3.
      * apply I6. discriminate.
    + destruct rounds as [|r2 rounds].
      * simpl. rewrite E4. f_equal; lia.
      * destruct I6 as [_ I6]; [discriminate|]. rewrite I6, Hr1. f_equal; lia.
Qed.

Lemma not_selected_not_fetched (this : Terminal.t) (q : GwQueue.t) :
  Terminal.where_ this q = false ->
  forall db, ~ In q (Terminal.getQueues this db).
Proof.
  intros H db Hin. apply terminal_getQueues_In in Hin.
  destruct Hin as [_ Hs]. apply terminal_where_selected in Hs. congruence.
Qed.

(** C1, amended. A message saved for the channel of a terminal dispatcher
    whose attempts all fail is selected for each of [maxRetry + 1] attempts
    (the first one and [maxRetry] retries); after them its row has
    [processed = 1], [status = 0] and [retry = maxRetry + 1], one more than
    [maxRetry], and no snapshot selects it any more. *)
Theorem retry_cap (this : Terminal.t) (st : Store) (q : GwQueue.t)
    (rounds : list (Faults * Term.answers)) :
  0 <= Terminal.maxRetry this ->
  GwQueue.type q = ACTIVITY_SMS ->
  GwQueue.imsi q = Term.name (Terminal.term this) ->
  GwQueue.processed q = 0 ->
  GwQueue.status q = 0 ->
  GwQueue.retry q = None ->
  In q (gw_queue st) ->
  Z.of_nat (List.length rounds) = Terminal.maxRetry this + 1 ->
  all_fail rounds st q ->
  GwQueue.processed (snd (attempts rounds st q)) = 1
  /\ GwQueue.status (snd (attempts rounds st q)) = 0
  /\ GwQueue.retry (snd (attempts rounds st q)) = Some (Terminal.maxRetry this + 1)
  /\ In (snd (attempts rounds st q)) (gw_queue (fst (attempts rounds st q)))
  /\ (forall db, ~ In (snd (attempts rounds st q)) (Terminal.getQueues this db))
  /\ (forall before after,
        rounds = before ++ after -> after <> [] ->
        Terminal.where_ this (snd (attempts before st q)) = true).
Proof.
  intros Hm Ty Him Hp Hs Hr Hin Hlen Hall.
  assert (retries q = 0) as R0 by (unfold retries; now rewrite Hr).
  assert (rounds <> []) as Hne.
  { intros ->. simpl in Hlen. lia. }
  destruct (attempts_fail rounds st q Ty ltac:(lia) Hin Hall)
    as (I1 & I2 & I3 & I4 & I5 & I6).
  destruct (I6 Hne) as [I7 I8].
  rewrite R0, Hlen in I8. rewrite Z.add_0_l in I8.
  repeat split; trivial.
  - congruence.
  - apply not_selected_not_fetched.
    unfold Terminal.where_. rewrite I8. simpl.
    replace (Terminal.maxRetry this + 1 <=? Terminal.maxRetry this) with false
      by (symmetry; apply Z.leb_gt; lia).
    rewrite I7. simpl. now rewrite andb_false_r.
  - intros before after -> Hafter.
    apply all_fail_app in Hall. destruct Hall as [Hbefore _].
    destruct (attempts_fail before st q Ty ltac:(lia) Hin Hbefore)
      as (B1 & B2 & B3 & B4 & B5 & B6).
    apply terminal_where_selected. unfold selected.
    split; [congruence|].
    destruct before as [|b before].
    + left. simpl. rewrite Ty. auto.
    + right. destruct B6 as [B7 B8]; [discriminate|].
      repeat split; trivial; try congruence.
      eexists. split; [exact B8|].
      rewrite length_app in Hlen.
      destruct after; [congruence|]. simpl List.length in *. lia.
Qed.

Lemma sample_rounds_fail : all_fail Sample.four Sample.st Sample.row.
Proof.
  unfold Sample.four.
  repeat (cbn [all_fail]; split;
          [split; [reflexivity|split; [reflexivity|intros _; eexists; split; reflexivity]]|]).
  exact I.
Defined.

Lemma retry_cap_witness :
  GwQueue.retry (snd (attempts Sample.four Sample.st Sample.row)) = Some 4.
Proof.
  apply (retry_cap Sample.this Sample.st Sample.row Sample.four);
    try reflexivity.
  - simpl. lia.
  - simpl. auto.
  - exact sample_rounds_fail.
Defined.

(** C1, as stated, fails: after [maxRetry + 1 = 4] failed attempts the
    retry counter of the sample message is 4, not [maxRetry]. *)
Lemma retry_cap_counterexample :
  all_fail Sample.four Sample.st Sample.row
  /\ Z.of_nat (List.length Sample.four) = Terminal.maxRetry Sample.this + 1
  /\ GwQueue.retry (snd (attempts Sample.four Sample.st Sample.row)) = Some 4
  /\ GwQueue.retry (snd (attempts Sample.four Sample.st Sample.row))
     <> Some (Terminal.maxRetry Sample.this).
Proof.
  split; [exact sample_rounds_fail|].
  split; [reflexivity|].
  split; [reflexivity|].
  vm_compute. discriminate.
Qed.

(** The same on the dispatcher itself: four cycles on the sample message,
    each ending in a rejected send, leave its row with [retry = 4]; the
    snapshot of the fifth cycle is empty and the store stays as it is. *)
Example retry_cap_cycles :
  let s4 := fold_right (cycle 1) (Sample.this, Sample.st) Sample.four in
  map (fun q => (GwQueue.processed q, GwQueue.status q, GwQueue.retry q))
      (gw_queue (snd s4))
  = [(1, 0, Some 4)]
  /\ Terminal.getQueues Sample.this (gw_queue (snd s4)) = []
  /\ snd (cycle 1 (no_faults, Sample.rejecting) s4) = snd s4.
Proof. vm_compute. auto. Qed.

(** A send that is fulfilled while the terminal's reply reports no success
    is recorded as failed without a retry counter; such a row is not
    selected again. *)
Lemma unsuccessful_reply_not_retried (this : Terminal.t) (f : Faults)
    (a : Term.answers) (st : Store) (q : GwQueue.t) :
  GwQueue.type q = ACTIVITY_SMS -> GwQueue.retry q = None ->
  Term.on_sendMessage a = Some (Fulfilled false) ->
  let q' := instance_after (snd (Terminal.process f a st q)) q in
  GwQueue.processed q' = 1 /\ GwQueue.status q' = 0 /\ GwQueue.retry q' = None
  /\ Terminal.where_ this q' = false.
Proof.
  intros Ty Hr Hs. unfold Terminal.process. rewrite Ty, Hr, Hs. simpl.
  unfold Terminal.update, Terminal.updates. rewrite Ty. simpl.
  assert (forall q',
            GwQueue.processed q' = 1 -> GwQueue.retry q' = None ->
            Terminal.where_ this q' = false) as N.
  { intros q' P R. unfold Terminal.where_. rewrite P, R. simpl.
    now rewrite andb_false_r. }
  destruct (update_rejects f); simpl; repeat split; trivial;
    apply N; simpl; trivial.
Qed.

(** ** Retries and the status query *)

Lemma settle_sends_nothing (f : Faults) (st : Store) (q : GwQueue.t)
    (action : option (settled bool)) (q' : GwQueue.t) :
  ~ In (Terminal.SendMessage q') (snd (Terminal.settle f st q action)).
Proof.
  unfold Terminal.settle, Terminal.update.
  destruct action as [[b|]|];
    repeat match goal with |- context [if ?c then _ else _] => destruct c end;
    simpl; intuition discriminate.
Qed.

(** C3. For a message with a retry counter, [process] first queries the
    terminal for the status of the message's hash, before any send.  When
    the query is answered with success, the same hash and a true status,
    the row is updated with [status = 1] and nothing is sent.  When the
    answer reports the message as still outstanding, or the query itself
    fails (the answer reports no success), and generally whenever the
    answer does not report the message as sent, the message is sent, once,
    right after the query. *)
Theorem retry_reconciliation (f : Faults) (a : Term.answers) (st : Store)
    (q : GwQueue.t) (n : Z) :
  GwQueue.type q = ACTIVITY_SMS ->
  GwQueue.retry q = Some n ->
  (exists rest,
     snd (Terminal.process f a st q)
     = Terminal.Query "status" (GwQueue.hash q) :: rest)
  /\ (forall status,
        Term.on_query a = Fulfilled status ->
        reports_sent status q = true ->
        snd (Terminal.process f a st q)
        = [Terminal.Query "status" (GwQueue.hash q); Terminal.Update q reconciled]
        /\ (forall q', ~ In (Terminal.SendMessage q')
                         (snd (Terminal.process f a st q)))
        /\ GwQueue.status (instance_after (snd (Terminal.process f a st q)) q) = 1
        /\ (update_rejects f = false ->
            gw_queue (fst (Terminal.process f a st q))
            = GwQueue.save (GwQueue.id q) reconciled (gw_queue st)))
  /\ (forall status,
        Term.on_query a = Fulfilled status ->
        reports_sent status q = false ->
        exists rest,
          snd (Terminal.process f a st q)
          = Terminal.Query "status" (GwQueue.hash q)
            :: Terminal.SendMessage q :: rest
          /\ forall q', ~ In (Terminal.SendMessage q') rest)
  /\ (forall status,
        Term.on_query a = Fulfilled status ->
        reports_outstanding status q = true \/ query_fails status = true ->
        reports_sent status q = false
        /\ exists rest,
             snd (Terminal.process f a st q)
             = Terminal.Query "status" (GwQueue.hash q)
               :: Terminal.SendMessage q :: rest
             /\ forall q', ~ In (Terminal.SendMessage q') rest).
Proof.
  intros Ty Hr.
  assert (forall status,
            Term.on_query a = Fulfilled status ->
            reports_sent status q = false ->
            exists rest,
              snd (Terminal.process f a st q)
              = Terminal.Query "status" (GwQueue.hash q)
                :: Terminal.SendMessage q :: rest
              /\ forall q', ~ In (Terminal.SendMessage q') rest) as Resent.
  { intros status Eq Hrep. unfold Terminal.process. rewrite Ty, Hr. simpl.
    rewrite Eq. unfold reports_sent in Hrep.
    destruct (Term.success status
              && loose_eq (Term.hash status) (Some (GwQueue.hash q))).
    - simpl in Hrep. rewrite Hrep. simpl. eexists. split; [reflexivity|].
      intros q'. apply settle_sends_nothing.
    - simpl. eexists. split; [reflexivity|].
      intros q'. apply settle_sends_nothing. }
  split; [|split; [|split; [exact Resent|]]].
  - unfold Terminal.process. rewrite Ty, Hr. simpl. eexists. reflexivity.
  - intros status Eq Hrep. unfold Terminal.process. rewrite Ty, Hr. simpl.
    rewrite Eq. unfold reports_sent in Hrep.
    apply andb_true_iff in Hrep. destruct Hrep as [H1 H2].
    rewrite H1, H2. simpl. repeat split.
    + intros q' [H|[H|[]]]; discriminate.
    + intros Hu. now rewrite Hu.
  - intros status Eq H.
    assert (reports_sent status q = false) as N.
    { unfold reports_sent, reports_outstanding, query_fails in *.
      destruct (Term.success status), (Term.status status),
        (loose_eq (Term.hash status) (Some (GwQueue.hash q)));
        simpl in *; trivial; destruct H; discriminate. }
    split; [exact N|]. now apply (Resent status).
Qed.

Lemma retry_reconciliation_witness :
  snd (Terminal.process no_faults Sample.confirming Sample.st Sample.retried)
  = [Terminal.Query "status" "h1"; Terminal.Update Sample.retried reconciled].
Proof.
  destruct (retry_reconciliation no_faults Sample.confirming Sample.st
              Sample.retried 1 eq_refl eq_refl) as (_ & H & _).
  destruct (H Sample.sent eq_refl eq_refl) as (E & _).
  exact E.
Defined.

(** ** Loading the snapshot *)

(** C4, amended. [load] is guarded by the dirty counter alone: when the
    counter is positive it starts a fetch, also while an earlier fetch is
    in flight, and before the fetch is answered it has set the counter to
    0, emptied the snapshot and set [loading]; when the counter is not
    positive it does nothing.  With a positive counter [reloadNeeded] is
    [load].  While [loading] is set and the counter is
    0, [reloadNeeded] starts no fetch either.  [loading] is cleared
    whenever a fetch is answered, also when another fetch is still in
    flight, and a [reloadNeeded] that then finds the counter at 0 and the
    empty snapshot at least [reloadInterval] old starts another fetch.
    The [reload] of a terminal dispatcher starts no fetch; it only
    counts. *)
Theorem load_guard (d : Dispatcher.t) (now : Z) :
  (Dispatcher.count d <= 0 -> Dispatcher.load d = d)
  /\ (0 < Dispatcher.count d ->
      Dispatcher.count (Dispatcher.load d) = 0
      /\ Dispatcher.queues (Dispatcher.load d) = []
      /\ Dispatcher.loading (Dispatcher.load d) = true
      /\ Dispatcher.fetching (Dispatcher.load d) = S (Dispatcher.fetching d))
  /\ (0 < Dispatcher.count d ->
      Dispatcher.reloadNeeded now d = Dispatcher.load d)
  /\ (Dispatcher.loading d = true -> Dispatcher.count d = 0 ->
      Dispatcher.reloadNeeded now d = d)
  /\ (forall results answered,
        Dispatcher.loading
          (Dispatcher.loaded Terminal.check results answered d) = false
        /\ Dispatcher.fetching
             (Dispatcher.loaded Terminal.check results answered d)
           = pred (Dispatcher.fetching d))
  /\ (forall answered,
        Dispatcher.count d = 0 ->
        Dispatcher.reloadInterval d <= now - answered ->
        Dispatcher.fetching
          (Dispatcher.reloadNeeded now
             (Dispatcher.loaded Terminal.check [] answered d))
        = S (pred (Dispatcher.fetching d)))
  /\ (Dispatcher.fetching (Dispatcher.reload Terminal.check d)
      = Dispatcher.fetching d
      /\ Dispatcher.count (Dispatcher.reload Terminal.check d)
         = Dispatcher.count d + 1
      /\ Dispatcher.queues (Dispatcher.reload Terminal.check d)
         = Dispatcher.queues d
      /\ Dispatcher.loading (Dispatcher.reload Terminal.check d)
         = Dispatcher.loading d).
Proof.
  split; [|split; [|split; [|split; [|split; [|split]]]]].
  - intros H. unfold Dispatcher.load.
    destruct (Z.ltb_spec 0 (Dispatcher.count d)); [lia|reflexivity].
  - intros H. unfold Dispatcher.load.
    destruct (Z.ltb_spec 0 (Dispatcher.count d)); [|lia].
    simpl. auto.
  - intros H. unfold Dispatcher.reloadNeeded.
    destruct (Z.ltb_spec 0 (Dispatcher.count d)); [|lia].
    destruct (Z.eqb_spec (Dispatcher.count d) 0); [lia|]. reflexivity.
  - intros Hl Hc. unfold Dispatcher.reloadNeeded, Dispatcher.load.
    rewrite Hc, Hl. simpl. rewrite andb_false_r.
    destruct (Nat.eqb (List.length (Dispatcher.queues d)) 0);
      rewrite ?Hc; reflexivity.
  - intros results answered. split; reflexivity.
  - intros answered Hc Ht.
    unfold Dispatcher.reloadNeeded, Dispatcher.loaded, Terminal.check,
      Dispatcher.load, Dispatcher.tick.
    cbn [Dispatcher.count Dispatcher.queues Dispatcher.loading
         Dispatcher.loadTime Dispatcher.reloadInterval Dispatcher.fetching
         List.length Nat.eqb negb].
    rewrite Hc. cbn [Z.eqb Z.ltb Z.compare orb andb].
    destruct (Z.leb_spec (Dispatcher.reloadInterval d) (now - answered));
      [|lia].
    reflexivity.
  - repeat split.
Qed.

Lemma load_guard_witness :
  Dispatcher.fetching
    (Dispatcher.reloadNeeded 300003
       (Dispatcher.loaded Terminal.check [] 3
          (Dispatcher.load
             (Dispatcher.tick
                (Dispatcher.load (Dispatcher.tick (Dispatcher.new 0)))))))
  = 2%nat.
Proof.
  destruct (load_guard
              (Dispatcher.load
                 (Dispatcher.tick
                    (Dispatcher.load (Dispatcher.tick (Dispatcher.new 0)))))
              300003) as (_ & _ & _ & _ & _ & H & _).
  apply (H 3); [reflexivity|].
  simpl. lia.
Defined.

(** C4, as stated, fails: a terminal dispatcher gets a reload signal and
    an idle signal, which starts a fetch; before that fetch is answered it
    gets another reload signal and another idle signal, and a second fetch
    is started while [loading] is true. *)
Lemma load_guard_counterexample :
  let first := fst (Terminal.idle 1 (Terminal.reload Sample.this)) in
  let second := fst (Terminal.idle 2 (Terminal.reload first)) in
  Dispatcher.loading (Terminal.base first) = true
  /\ Dispatcher.fetching (Terminal.base first) = 1%nat
  /\ Dispatcher.fetching (Terminal.base second) = 2%nat.
Proof. repeat split. Qed.

(** ** Saving queue rows and log rows *)

Lemma filter_nil_iff {A : Type} (p : A -> bool) (l : list A) :
  filter p l = [] <-> forall x, In x l -> p x = false.
Proof.
  induction l as [|y l IH]; simpl.
  - split; [intros _ x []|reflexivity].
  - destruct (p y) eqn:E.
    + split; [discriminate|]. intros H. specialize (H y (or_introl eq_refl)).
      congruence.
    + rewrite IH. split.
      * intros H x [<-|Hx]; auto.
      * intros H x Hx. apply H. now right.
Qed.

Lemma countQueue_zero (db : list GwQueue.t) (origin h : string) :
  countQueue db origin h = 0 <-> ~ queued db origin h.
Proof.
  unfold countQueue, queued.
  rewrite <- Nat2Z.inj_0, Nat2Z.inj_iff, length_zero_iff_nil, filter_nil_iff.
  split.
  - intros H (r & Hin & E1 & E2). specialize (H r Hin).
    rewrite <- E1, <- E2, !String.eqb_refl in H. discriminate.
  - intros H r Hin.
    destruct (String.eqb_spec (GwQueue.imsi r) origin);
    destruct (String.eqb_spec (GwQueue.hash r) h); trivial.
    exfalso. apply H. now exists r.
Qed.

Lemma countLog_zero (lg : list GwLog.t) (origin h : string) (ty : Z) :
  countLog lg origin h ty = 0 <-> ~ logged lg origin h ty.
Proof.
  unfold countLog, logged.
  rewrite <- Nat2Z.inj_0, Nat2Z.inj_iff, length_zero_iff_nil, filter_nil_iff.
  split.
  - intros H (r & Hin & E1 & E2 & E3). specialize (H r Hin).
    rewrite <- E1, <- E2, <- E3, !String.eqb_refl, Z.eqb_refl in H.
    discriminate.
  - intros H r Hin.
    destruct (String.eqb_spec (GwLog.imsi r) origin);
    destruct (String.eqb_spec (GwLog.hash r) h);
    destruct (Z.eqb_spec (GwLog.type r) ty); trivial.
    exfalso. apply H. now exists r.
Qed.

Lemma queued_key (db : list GwQueue.t) (origin h : string) :
  queued db origin h <-> In (origin, h) (map queue_key db).
Proof.
  unfold queued, queue_key. rewrite in_map_iff. split.
  - intros (r & Hin & <- & <-). now exists r.
  - intros (r & E & Hin). inversion E. now exists r.
Qed.

Lemma saveQueue_queued (f : Faults) (now : Z) (db : list GwQueue.t)
    (origin : string) (queue : Queue.t) :
  queued db origin (Queue.hash queue) ->
  saveQueue f now db origin queue = (db, [None]).
Proof.
  intros H. unfold saveQueue.
  destruct (count_rejects f); trivial.
  destruct (Z.eqb_spec (countQueue db origin (Queue.hash queue)) 0) as [E|E];
    trivial.
  apply countQueue_zero in E. contradiction.
Qed.

Lemma saveQueue_deduplicated (f : Faults) (now : Z) (db : list GwQueue.t)
    (origin : string) (queue : Queue.t) :
  deduplicated db -> deduplicated (fst (saveQueue f now db origin queue)).
Proof.
  intros H. unfold saveQueue.
  destruct (count_rejects f); trivial.
  destruct (Z.eqb_spec (countQueue db origin (Queue.hash queue)) 0) as [E|E];
    trivial.
  destruct (create_rejects f); trivial.
  simpl. unfold deduplicated in *. rewrite map_app. simpl.
  apply countQueue_zero in E. rewrite queued_key in E.
  apply NoDup_app; trivial.
  - constructor; [intros []|constructor].
  - intros k Hk [<-|[]]. contradiction.
Qed.

Lemma saveQueue_requests (f : Faults) (now : Z) (db : list GwQueue.t)
    (origin : string) (queue : Queue.t) :
  saveQueue f now db origin queue
  = if counted f db origin queue then created f now db origin queue
    else (db, [None]).
Proof.
  unfold saveQueue, counted, created.
  destruct (count_rejects f); trivial.
Qed.

Lemma nth_error_remove {A : Type} (l : list A) :
  forall i c,
    nth_error l i = Some c ->
    exists l1 l2,
      l = l1 ++ c :: l2 /\ firstn i l ++ skipn (S i) l = l1 ++ l2.
Proof.
  induction l as [|a l IH]; intros [|i] c E; simpl in E; try discriminate.
  - injection E as ->. now exists [], l.
  - destruct (IH i c E) as (l1 & l2 & -> & R).
    exists (a :: l1), l2. split; trivial.
    cbn [firstn app]. f_equal. exact R.
Qed.

(** While the calls for one key do not overlap, the creates that wait are
    for pairwise different keys, none of which has a row, and the table
    has no two rows of one key. *)
Lemma apart_deduplicated (turns : list save_turn) :
  forall s s',
    deduplicated (table s) ->
    NoDup (map call_key (creating s)) ->
    (forall k, In k (map call_key (creating s)) ->
               ~ In k (map queue_key (table s))) ->
    apart turns s ->
    save_run turns s = Some s' ->
    deduplicated (table s').
Proof.
  induction turns as [|e turns IH]; intros s s' D N P A R.
  - simpl in R. injection R as <-. exact D.
  - destruct A as [A1 A2]. simpl in R.
    destruct e as [[[[f now] origin] queue]|i].
    + cbn [save_step] in A2, R.
      destruct (counted f (table s) origin queue) eqn:C;
        [|now apply (IH s s')].
      unfold counted in C. apply andb_true_iff in C. destruct C as [_ C].
      apply Z.eqb_eq, countQueue_zero in C. rewrite queued_key in C.
      eapply IH; [| | |exact A2|exact R]; cbn [table creating]; trivial.
      * rewrite map_app. apply NoDup_app; trivial.
        -- constructor; [intros []|constructor].
        -- intros k Hk [<-|[]]. contradiction.
      * intros k Hk. rewrite map_app in Hk. apply in_app_or in Hk.
        destruct Hk as [Hk|[<-|[]]]; auto.
    + cbn [save_step] in A2, R.
      destruct (nth_error (creating s) i) as [[[[f now] origin] queue]|] eqn:E;
        [|discriminate].
      destruct (nth_error_remove _ _ _ E) as (l1 & l2 & L & Rm).
      rewrite Rm in A2, R. rewrite L in N, P.
      rewrite map_app in N, P. cbn [map call_key] in N, P.
      pose proof (NoDup_remove_1 _ _ _ N) as N1.
      pose proof (NoDup_remove_2 _ _ _ N) as N2.
      assert (~ In (origin, Queue.hash queue) (map queue_key (table s))) as Q.
      { apply P. apply in_or_app. right. now left. }
      eapply IH; [| | |exact A2|exact R]; cbn [table creating].
      * unfold created. destruct (create_rejects f); trivial.
        cbn [fst]. unfold deduplicated in *. rewrite map_app.
        apply NoDup_app; trivial.
        -- constructor; [intros []|constructor].
        -- intros k Hk [<-|[]]. contradiction.
      * now rewrite map_app.
      * intros k Hk. rewrite map_app in Hk.
        assert (~ In k (map queue_key (table s))) as Pk.
        { apply P. apply in_app_or in Hk. apply in_or_app.
          destruct Hk; [now left|right; now right]. }
        unfold created. destruct (create_rejects f); trivial.
        cbn [fst]. rewrite map_app. intros Hin. apply in_app_or in Hin.
        destruct Hin as [Hin|[<-|[]]]; [contradiction|].
        apply N2. now rewrite <- map_app in Hk |- *.
Qed.

(** C2, amended. When the count of [saveQueue] sees a row with the imsi
    and the hash of the object, the table is left as it is and the
    callback is called once, without a row, however the database behaves;
    the call adds a row only when its count saw none under the key.  The
    count and the create are two requests, and the call is the one
    followed by the other.  When the calls for one key do not overlap, no
    count being answered while a create for the same key waits, the table
    built from the empty one has at most one row per key. *)
Theorem saveQueue_dedup (f : Faults) (now : Z) (db : list GwQueue.t)
    (origin : string) (queue : Queue.t) :
  (queued db origin (Queue.hash queue) ->
   saveQueue f now db origin queue = (db, [None]))
  /\ (fst (saveQueue f now db origin queue) = db
      \/ (~ queued db origin (Queue.hash queue)
          /\ fst (saveQueue f now db origin queue)
             = db ++ [newQueue db origin queue now]))
  /\ (deduplicated db ->
      deduplicated (fst (saveQueue f now db origin queue)))
  /\ saveQueue f now db origin queue
     = (if counted f db origin queue then created f now db origin queue
        else (db, [None]))
  /\ (forall turns s,
        apart turns {| table := []; creating := [] |} ->
        save_run turns {| table := []; creating := [] |} = Some s ->
        deduplicated (table s)).
Proof.
  split; [|split; [|split; [|split]]].
  - apply saveQueue_queued.
  - unfold saveQueue.
    destruct (count_rejects f); auto.
    destruct (Z.eqb_spec (countQueue db origin (Queue.hash queue)) 0) as [E|E];
      auto.
    destruct (create_rejects f); auto.
    right. split; trivial. now apply countQueue_zero.
  - apply saveQueue_deduplicated.
  - apply saveQueue_requests.
  - intros turns s A R.
    apply (apart_deduplicated turns {| table := []; creating := [] |} s);
      simpl; auto; constructor.
Qed.

Lemma saveQueue_dedup_witness :
  saveQueue no_faults 5 (gw_queue Sample.st) (Term.name Sample.term) Sample.sms
  = (gw_queue Sample.st, [None])
  /\ deduplicated (gw_queue Sample.st).
Proof.
  destruct (saveQueue_dedup no_faults 5 (gw_queue Sample.st)
              (Term.name Sample.term) Sample.sms) as (H & _ & _ & _ & S).
  split.
  - apply H. exists Sample.row. simpl. auto.
  - apply (S Sample.in_turn {| table := gw_queue Sample.st; creating := [] |}).
    + simpl. auto.
    + reflexivity.
Defined.

(** C2, as stated, fails: two calls for the sample message, both counts
    answered on the empty table before either create is served, leave two
    rows under the one key, through this insert path alone. *)
Lemma saveQueue_dedup_counterexample :
  save_run Sample.overlap {| table := []; creating := [] |}
  = Some {| table :=
              [newQueue [] (Term.name Sample.term) Sample.sms 0;
               newQueue [newQueue [] (Term.name Sample.term) Sample.sms 0]
                 (Term.name Sample.term) Sample.sms 0];
            creating := [] |}
  /\ map queue_key
       [newQueue [] (Term.name Sample.term) Sample.sms 0;
        newQueue [newQueue [] (Term.name Sample.term) Sample.sms 0]
          (Term.name Sample.term) Sample.sms 0]
     = [(Term.name Sample.term, Queue.hash Sample.sms);
        (Term.name Sample.term, Queue.hash Sample.sms)]
  /\ ~ deduplicated
        [newQueue [] (Term.name Sample.term) Sample.sms 0;
         newQueue [newQueue [] (Term.name Sample.term) Sample.sms 0]
           (Term.name Sample.term) Sample.sms 0].
Proof.
  split; [reflexivity|]. split; [reflexivity|].
  unfold deduplicated. simpl. intros N.
  inversion N as [|? ? Hin _]. apply Hin. now left.
Qed.

(** C10. [saveLog] adds a row only under a key (imsi, hash, type) no row of
    the log has; when a row with the key is there the log is left as it is
    and [done] is not called, however the database behaves; [saveQueue], in
    contrast, calls back exactly once in every outcome. *)
Theorem saveLog_dedup (f : Faults) (lg : list GwLog.t) (origin : string)
    (log : GwQueue.t) :
  (saveLog f lg origin log = (lg, [])
   \/ (~ logged lg origin (GwQueue.hash log) (GwQueue.type log)
       /\ saveLog f lg origin log
          = (lg ++ [newLog lg origin log], [newLog lg origin log])))
  /\ (logged lg origin (GwQueue.hash log) (GwQueue.type log) ->
      saveLog f lg origin log = (lg, []))
  /\ (forall f' now db origin' queue,
        List.length (snd (saveQueue f' now db origin' queue)) = 1%nat).
Proof.
  split; [|split].
  - unfold saveLog.
    destruct (count_rejects f); auto.
    destruct (Z.eqb_spec
                (countLog lg origin (GwQueue.hash log) (GwQueue.type log)) 0)
      as [E|E]; auto.
    destruct (create_rejects f); auto.
    right. split; trivial. now apply countLog_zero.
  - intros H. unfold saveLog.
    destruct (count_rejects f); trivial.
    destruct (Z.eqb_spec
                (countLog lg origin (GwQueue.hash log) (GwQueue.type log)) 0)
      as [E|E]; trivial.
    apply countLog_zero in E. contradiction.
  - intros f' now db origin' queue. unfold saveQueue.
    destruct (count_rejects f'); trivial.
    destruct (countQueue db origin' (Queue.hash queue) =? 0); trivial.
    destruct (create_rejects f'); trivial.
Qed.

Lemma saveLog_dedup_witness :
  saveLog no_faults
    (fst (saveLog no_faults [] (Term.name Sample.term) Sample.retried))
    (Term.name Sample.term) Sample.retried
  = (fst (saveLog no_faults [] (Term.name Sample.term) Sample.retried), []).
Proof.
  apply (saveLog_dedup no_faults).
  eexists. split; [left; reflexivity|]. repeat split.
Defined.

(** ** Choosing a terminal *)

Lemma loose_eq_eq (a b : option string) : loose_eq a b = true <-> a = b.
Proof.
  destruct a as [x|], b as [y|]; simpl;
    try (split; [discriminate|intros E; discriminate E]);
    try (split; reflexivity).
  rewrite String.eqb_eq. split; [now intros ->|now intros [= ->]].
Qed.

Lemma includes_In (x : string) (l : list string) :
  includes x l = true <-> In x l.
Proof.
  induction l as [|y l IH]; simpl.
  - split; [discriminate|intros []].
  - rewrite orb_true_iff, IH, String.eqb_eq. intuition.
Qed.

Lemma truthy_string_iff (s : string) : truthy_string s = true <-> s <> ""%string.
Proof.
  unfold truthy_string. destruct (String.eqb_spec s ""); simpl.
  - split; [discriminate|contradiction].
  - split; trivial.
Qed.

Lemma truthy_given (group : option string) :
  truthy truthy_string group = true <-> given group.
Proof.
  unfold given. destruct group as [g|]; simpl.
  - rewrite truthy_string_iff. split.
    + intros H. now exists g.
    + now intros (g' & [= ->] & H).
  - split; [discriminate|]. now intros (g' & E & _).
Qed.

Section Clauses.
Variable appterm : AppTerm.t.
Variable type : Z.
Variable address group : option string.
Variable term : Term.t.

(** The loop body of [getTerminal], one test per [continue]. *)
Lemma pushed_clauses :
  Activity.pushed appterm type address group term
  = Term.connected term
    && negb (truthy truthy_string group
             && negb (loose_eq (Term.group (Term.options term)) group))
    && negb ((type =? ACTIVITY_CALL)
             && negb (Term.allowCall (Term.options term)))
    && negb ((type =? ACTIVITY_SMS)
             && negb (Term.sendMessage (Term.options term)))
    && (if negb (Nat.eqb (List.length (Term.operators (Term.options term))) 0)
           && negb (type =? ACTIVITY_USSD)
        then match AppTerm.getOperator appterm address with
             | Some op =>
                 truthy_string op
                 && includes op (Term.operators (Term.options term))
             | None => false
             end
        else true).
Proof.
  unfold Activity.pushed.
  destruct (Term.connected term); simpl; trivial.
  destruct (truthy truthy_string group
            && negb (loose_eq (Term.group (Term.options term)) group));
    simpl; trivial.
  destruct ((type =? ACTIVITY_CALL)
            && negb (Term.allowCall (Term.options term))); simpl; trivial.
  destruct ((type =? ACTIVITY_SMS)
            && negb (Term.sendMessage (Term.options term))); simpl; trivial.
  destruct (negb (Nat.eqb (List.length (Term.operators (Term.options term))) 0)
            && negb (type =? ACTIVITY_USSD)); trivial.
  destruct (AppTerm.getOperator appterm address) as [op|]; trivial.
  destruct (truthy_string op); reflexivity.
Qed.

Lemma group_clause :
  negb (truthy truthy_string group
        && negb (loose_eq (Term.group (Term.options term)) group)) = true
  <-> (given group -> Term.group (Term.options term) = group).
Proof.
  rewrite <- truthy_given, <- loose_eq_eq.
  destruct (truthy truthy_string group), (loose_eq _ group); simpl;
    intuition discriminate.
Qed.

Lemma capability_clause (kind : Z) (capable : bool) :
  negb ((type =? kind) && negb capable) = true
  <-> (type = kind -> capable = true).
Proof.
  destruct (Z.eqb_spec type kind), capable; simpl; intuition discriminate.
Qed.

Lemma operator_clause :
  (if negb (Nat.eqb (List.length (Term.operators (Term.options term))) 0)
      && negb (type =? ACTIVITY_USSD)
   then match AppTerm.getOperator appterm address with
        | Some op =>
            truthy_string op && includes op (Term.operators (Term.options term))
        | None => false
        end
   else true) = true
  <-> (Term.operators (Term.options term) <> [] -> type <> ACTIVITY_USSD ->
       exists op, resolves appterm address op
                  /\ In op (Term.operators (Term.options term))).
Proof.
  unfold resolves.
  destruct (Term.operators (Term.options term)) as [|o ops] eqn:O.
  - simpl. split; [congruence|reflexivity].
  - destruct (Z.eqb_spec type ACTIVITY_USSD) as [U|U].
    + simpl. split; [contradiction|reflexivity].
    + cbn [List.length Nat.eqb negb andb].
      destruct (AppTerm.getOperator appterm address) as [op|].
      * rewrite andb_true_iff, truthy_string_iff, includes_In. split.
        -- intros [N I] _ _. now exists op.
        -- intros H. destruct H as (op' & [[= <-] N] & I); auto.
           discriminate.
      * split; [discriminate|].
        intros H. destruct H as (op' & [E _] & _); auto; discriminate.
Qed.

Lemma pushed_eligible :
  Activity.pushed appterm type address group term = true
  <-> eligible appterm type address group term.
Proof.
  rewrite pushed_clauses, !andb_true_iff.
  rewrite group_clause, !capability_clause, operator_clause.
  unfold eligible. tauto.
Qed.

End Clauses.

Lemma Qfloor_spec (x : Q) (i : Z) :
  Qfloor x = i <-> (inject_Z i <= x /\ x < inject_Z (i + 1))%Q.
Proof.
  split.
  - intros <-. split; [apply Qfloor_le|apply Qlt_floor].
  - intros [Hl Hu].
    apply Qfloor_resp_le in Hl. rewrite Qfloor_Z in Hl.
    assert (inject_Z (Qfloor x) < inject_Z (i + 1))%Q as H.
    { eapply Qle_lt_trans; [apply Qfloor_le|exact Hu]. }
    rewrite <- Zlt_Qlt in H. lia.
Qed.

Lemma floor_random_range (random : Q) (n : nat) :
  (0 <= random)%Q -> (random < 1)%Q -> (0 < n)%nat ->
  0 <= Activity.floor_random random n < Z.of_nat n.
Proof.
  intros H0 H1 Hn. unfold Activity.floor_random.
  set (m := inject_Z (Z.of_nat n)).
  assert (0 < m)%Q as Hm.
  { unfold m. change 0%Q with (inject_Z 0). rewrite <- Zlt_Qlt. lia. }
  split.
  - change 0 with (Qfloor 0). apply Qfloor_resp_le.
    apply Qmult_le_0_compat; trivial. now apply Qlt_le_weak.
  - rewrite Zlt_Qlt.
    eapply Qle_lt_trans; [apply Qfloor_le|].
    fold m. setoid_replace m with (1 * m)%Q at 2 by ring.
    apply Qmult_lt_compat_r; trivial.
Qed.

Lemma floor_random_hits (i n : nat) :
  (i < n)%nat ->
  (0 <= Z.of_nat i # Pos.of_nat n)%Q
  /\ (Z.of_nat i # Pos.of_nat n < 1)%Q
  /\ Activity.floor_random (Z.of_nat i # Pos.of_nat n) n = Z.of_nat i.
Proof.
  intros H.
  assert (Z.pos (Pos.of_nat n) = Z.of_nat n) as P.
  { rewrite <- positive_nat_Z, Nat2Pos.id; lia. }
  repeat split.
  - unfold Qle. simpl. lia.
  - unfold Qlt. simpl. lia.
  - unfold Activity.floor_random.
    transitivity (Qfloor (inject_Z (Z.of_nat i))); [|apply Qfloor_Z].
    apply Qfloor_comp.
    unfold Qeq, Qmult, inject_Z. simpl Qnum. simpl Qden.
    rewrite Pos.mul_1_r, P. lia.
Qed.

Lemma at_index_nat {A : Type} (l : list A) (i : nat) :
  Activity.at_index l (Z.of_nat i) = nth_error l i.
Proof.
  unfold Activity.at_index.
  destruct (Z.ltb_spec (Z.of_nat i) 0); [lia|]. now rewrite Nat2Z.id.
Qed.

Lemma at_index_In {A : Type} (l : list A) (i : Z) (x : A) :
  Activity.at_index l i = Some x -> In x l.
Proof.
  unfold Activity.at_index. destruct (i <? 0); [discriminate|].
  apply nth_error_In.
Qed.

Lemma by_priority_total (a b : Term.t) :
  Activity.by_priority a b = false -> Activity.by_priority b a = true.
Proof. unfold Activity.by_priority. rewrite Z.leb_gt, Z.leb_le. lia. Qed.

Lemma by_priority_trans (a b c : Term.t) :
  Activity.by_priority a b = true -> Activity.by_priority b c = true ->
  Activity.by_priority a c = true.
Proof. unfold Activity.by_priority. rewrite !Z.leb_le. lia. Qed.

Lemma add_many (appterm : AppTerm.t) (random : Q) (data : Queue.t)
    (group : option string) :
  (1 < List.length (Activity.getTerminal appterm (Queue.type data)
                      (Queue.address data) group))%nat ->
  Activity.add appterm random data group
  = match
      Activity.at_index
        (order_by Activity.by_priority
           (Activity.getTerminal appterm (Queue.type data)
              (Queue.address data) group))
        (Activity.floor_random random
           (List.length (Activity.getTerminal appterm (Queue.type data)
                           (Queue.address data) group)))
    with
    | Some term => Activity.AddQueue term data
    | None => Activity.TypeError
    end.
Proof.
  intros H. unfold Activity.add.
  set (ts := Activity.getTerminal _ _ _ _) in *.
  destruct (Nat.eqb_spec (List.length ts) 0); [lia|].
  destruct (Nat.ltb_spec 1 (List.length ts)); [reflexivity|lia].
Qed.

Lemma add_one (appterm : AppTerm.t) (random : Q) (data : Queue.t)
    (group : option string) (term : Term.t) :
  Activity.getTerminal appterm (Queue.type data) (Queue.address data) group
  = [term] ->
  Activity.add appterm random data group = Activity.AddQueue term data.
Proof.
  intros H. unfold Activity.add. now rewrite H.
Qed.

Lemma add_In (appterm : AppTerm.t) (random : Q) (data d : Queue.t)
    (group : option string) (term : Term.t) :
  Activity.add appterm random data group = Activity.AddQueue term d ->
  In term (Activity.getTerminal appterm (Queue.type data)
             (Queue.address data) group)
  /\ d = data.
Proof.
  unfold Activity.add.
  set (ts := Activity.getTerminal _ _ _ _).
  destruct (Nat.eqb (List.length ts) 0); [discriminate|].
  destruct (Activity.at_index _ _) as [t|] eqn:E; [|discriminate].
  intros [= <- <-]. split; trivial.
  apply at_index_In in E.
  destruct (1 <? List.length ts)%nat; trivial.
  now apply order_by_In in E.
Qed.

Lemma add_reaches (appterm : AppTerm.t) (data : Queue.t)
    (group : option string) (term : Term.t) :
  In term (Activity.getTerminal appterm (Queue.type data)
             (Queue.address data) group) ->
  exists random,
    (0 <= random)%Q /\ (random < 1)%Q
    /\ Activity.add appterm random data group = Activity.AddQueue term data.
Proof.
  intros Hin.
  remember (Activity.getTerminal appterm (Queue.type data)
              (Queue.address data) group) as ts eqn:Ets.
  destruct (Nat.ltb_spec 1 (List.length ts)) as [Hn|Hn].
  - assert (In term (order_by Activity.by_priority ts)) as Hs
      by now apply order_by_In.
    apply In_nth_error in Hs. destruct Hs as [i Hi].
    assert (i < List.length ts)%nat as Hlt.
    { rewrite <- (order_by_length Activity.by_priority).
      apply nth_error_Some. congruence. }
    destruct (floor_random_hits i (List.length ts) Hlt) as (R0 & R1 & Rf).
    exists (Z.of_nat i # Pos.of_nat (List.length ts)).
    repeat split; trivial.
    rewrite add_many; rewrite <- Ets; trivial.
    now rewrite Rf, at_index_nat, Hi.
  - exists 0%Q. repeat split; try easy.
    apply add_one. rewrite <- Ets.
    destruct ts as [|t [|t' ts]]; simpl in Hn, Hin.
    + contradiction.
    + destruct Hin as [->|[]]. reflexivity.
    + lia.
Qed.

Lemma add_dispatches (appterm : AppTerm.t) (random : Q) (data : Queue.t)
    (group : option string) :
  (0 <= random)%Q -> (random < 1)%Q ->
  Activity.getTerminal appterm (Queue.type data) (Queue.address data) group
  <> [] ->
  exists term, Activity.add appterm random data group
               = Activity.AddQueue term data.
Proof.
  intros H0 H1 Hne.
  remember (Activity.getTerminal appterm (Queue.type data)
              (Queue.address data) group) as ts eqn:Ets.
  destruct (Nat.ltb_spec 1 (List.length ts)) as [Hn|Hn].
  - rewrite add_many; rewrite <- Ets; trivial.
    destruct (floor_random_range random (List.length ts) H0 H1 ltac:(lia))
      as [Hl Hu].
    unfold Activity.at_index.
    destruct (Z.ltb_spec (Activity.floor_random random (List.length ts)) 0);
      [lia|].
    destruct (nth_error (order_by Activity.by_priority ts)
                (Z.to_nat (Activity.floor_random random (List.length ts))))
      as [t|] eqn:E.
    + now exists t.
    + apply nth_error_None in E. rewrite order_by_length in E. lia.
  - destruct ts as [|t [|t' ts]]; simpl in Hn.
    + congruence.
    + exists t. apply add_one. now rewrite <- Ets.
    + lia.
Qed.

(** C6. [add] hands the activity only to a terminal of the eligible set:
    the connected terminals of the group, when one is given, that allow
    calls for a call, send messages for a message and, when they list
    operators and the activity is not a USSD request, list the operator
    resolved for the address.  With more than one eligible terminal the
    terminal is taken from the set sorted by ascending priority at the
    index [floor (random * n)]: every index of the whole set is drawn
    exactly for the draws of one interval of width [1/n], so every eligible
    terminal is chosen for some draw. *)
Theorem terminal_selection (appterm : AppTerm.t) (data : Queue.t)
    (group : option string) :
  let terminals :=
    Activity.getTerminal appterm (Queue.type data) (Queue.address data) group in
  let n := List.length terminals in
  (forall term,
     In term terminals
     <-> In term (AppTerm.terminals appterm)
         /\ eligible appterm (Queue.type data) (Queue.address data) group term)
  /\ (forall random term d,
        Activity.add appterm random data group = Activity.AddQueue term d ->
        In term terminals /\ d = data)
  /\ (forall random,
        (0 <= random)%Q -> (random < 1)%Q -> terminals <> [] ->
        exists term, Activity.add appterm random data group
                     = Activity.AddQueue term data)
  /\ (forall random,
        (1 < n)%nat ->
        Activity.add appterm random data group
        = match
            Activity.at_index (order_by Activity.by_priority terminals)
              (Activity.floor_random random n)
          with
          | Some term => Activity.AddQueue term data
          | None => Activity.TypeError
          end)
  /\ Permutation (order_by Activity.by_priority terminals) terminals
  /\ StronglySorted
       (fun a b => Term.priority (Term.options a) <= Term.priority (Term.options b))
       (order_by Activity.by_priority terminals)
  /\ (forall random i,
        Activity.floor_random random n = i
        <-> (inject_Z i <= random * inject_Z (Z.of_nat n)
             /\ random * inject_Z (Z.of_nat n) < inject_Z (i + 1))%Q)
  /\ (forall random,
        (0 <= random)%Q -> (random < 1)%Q -> (0 < n)%nat ->
        0 <= Activity.floor_random random n < Z.of_nat n)
  /\ (forall term,
        In term terminals ->
        exists random,
          (0 <= random)%Q /\ (random < 1)%Q
          /\ Activity.add appterm random data group
             = Activity.AddQueue term data).
Proof.
  cbv zeta.
  split; [|split; [|split; [|split; [|split; [|split; [|split; [|split]]]]]]].
  - intros term. unfold Activity.getTerminal.
    now rewrite filter_In, pushed_eligible.
  - intros random term d. apply add_In.
  - intros random. apply add_dispatches.
  - intros random H. now apply add_many.
  - apply order_by_perm.
  - apply StronglySorted_impl
      with (R := fun a b => Activity.by_priority a b = true).
    + intros a b. unfold Activity.by_priority. now rewrite Z.leb_le.
    + apply order_by_sorted.
      * apply by_priority_total.
      * apply by_priority_trans.
  - intros random i. apply Qfloor_spec.
  - intros random. apply floor_random_range.
  - intros term. apply add_reaches.
Qed.

Lemma terminal_selection_witness :
  exists random,
    (0 <= random)%Q /\ (random < 1)%Q
    /\ Activity.add Sample.appterm random Sample.sms (Some "G"%string)
       = Activity.AddQueue Sample.term3 Sample.sms.
Proof.
  apply (terminal_selection Sample.appterm Sample.sms (Some "G"%string)).
  simpl. auto.
Defined.

(** ** The address gate and the fan-out *)

Section Gate.
Variable isNaN : string -> bool.
Variable appterm : AppTerm.t.

Lemma passes_spec (a : string) :
  passes isNaN appterm (Some a)
  = negb (isNaN a)
    && negb (String.length a <=? premium_length appterm)%nat
    && negb (includes a
               (match AppTerm.blacklists (AppTerm.config appterm) with
                | Some l => l
                | None => []
                end)).
Proof.
  unfold passes, Activity.addressAllowed, premium_length.
  destruct (truthy_string a) eqn:T.
  - destruct (isNaN a); simpl; trivial.
    destruct (String.length a <=? _)%nat; simpl; trivial.
    destruct (includes a _); reflexivity.
  - assert (a = ""%string) as ->.
    { unfold truthy_string in T. destruct (String.eqb_spec a ""); trivial.
      discriminate. }
    simpl. now rewrite andb_false_r.
Qed.

Lemma blacklisted_includes (a : string) :
  includes a (match AppTerm.blacklists (AppTerm.config appterm) with
              | Some l => l
              | None => []
              end) = true
  <-> blacklisted appterm a.
Proof.
  unfold blacklisted. rewrite includes_In.
  destruct (AppTerm.blacklists (AppTerm.config appterm)) as [l|].
  - split.
    + intros H. now exists l.
    + now intros (l' & [= ->] & H).
  - split; [intros []|]. now intros (l' & E & _).
Qed.

Lemma allowed_gate (term : Term.t) (q : GwQueue.t) :
  GwQueue.type q = ACTIVITY_RING \/ GwQueue.type q = ACTIVITY_INBOX ->
  passes isNaN appterm (GwQueue.address q) = false ->
  Activity.allowed isNaN appterm term q = false.
Proof.
  intros Ty H. unfold Activity.allowed. unfold passes in H.
  replace ((GwQueue.type q =? ACTIVITY_RING) || (GwQueue.type q =? ACTIVITY_INBOX))
    with true by (destruct Ty as [-> | ->]; reflexivity).
  rewrite H. reflexivity.
Qed.

Lemma processQueue_refused (f : Faults) (db : list GwQueue.t) (q : GwQueue.t)
    (term : Term.t) :
  AppTerm.get appterm (GwQueue.imsi q) = Some term ->
  Activity.allowed isNaN appterm term q = false ->
  Activity.processQueue isNaN appterm f db q
  = (if update_rejects f then db
     else GwQueue.save (GwQueue.id q) (outcome false) db,
     [Activity.Update q (outcome false); Activity.Done]).
Proof.
  intros G A. unfold Activity.processQueue. now rewrite G, A.
Qed.

End Gate.

(** C7. [addressAllowed] refuses every address [isNaN] holds for, every
    address no longer than the premium length (5 unless configured) and
    every address on the blacklist, and lets every other address pass.  A
    ring or an inbox row of a known terminal whose address is refused is
    notified to nobody and updated with [processed = 1] and [status = 0],
    which is what its row holds once the database has taken the update. *)
Theorem address_gate (isNaN : string -> bool) (appterm : AppTerm.t)
    (a : string) :
  (isNaN a = true -> passes isNaN appterm (Some a) = false)
  /\ ((String.length a <= premium_length appterm)%nat ->
      passes isNaN appterm (Some a) = false)
  /\ (AppTerm.premiumlen (AppTerm.config appterm) = None ->
      premium_length appterm = 5%nat)
  /\ (blacklisted appterm a -> passes isNaN appterm (Some a) = false)
  /\ (isNaN a = false ->
      (premium_length appterm < String.length a)%nat ->
      ~ blacklisted appterm a ->
      Activity.addressAllowed isNaN appterm (Some a) = Some true)
  /\ (forall f db q term,
        GwQueue.type q = ACTIVITY_RING \/ GwQueue.type q = ACTIVITY_INBOX ->
        AppTerm.get appterm (GwQueue.imsi q) = Some term ->
        passes isNaN appterm (GwQueue.address q) = false ->
        snd (Activity.processQueue isNaN appterm f db q)
        = [Activity.Update q (outcome false); Activity.Done]
        /\ GwQueue.processed (GwQueue.update (outcome false) q) = 1
        /\ GwQueue.status (GwQueue.update (outcome false) q) = 0
        /\ (update_rejects f = false -> In q db ->
            In (GwQueue.update (outcome false) q)
               (fst (Activity.processQueue isNaN appterm f db q)))).
Proof.
  split; [|split; [|split; [|split; [|split]]]].
  - intros H. rewrite passes_spec, H. reflexivity.
  - intros H. rewrite passes_spec.
    apply Nat.leb_le in H. rewrite H. simpl. now rewrite andb_false_r.
  - intros H. unfold premium_length. now rewrite H.
  - intros H. rewrite passes_spec.
    apply blacklisted_includes in H. rewrite H. simpl. now rewrite andb_false_r.
  - intros H1 H2 H3.
    pose proof (passes_spec isNaN appterm a) as P.
    rewrite H1 in P.
    apply Nat.leb_gt in H2. rewrite H2 in P.
    destruct (includes a _) eqn:B.
    + apply blacklisted_includes in B. contradiction.
    + simpl in P. unfold passes in P.
      destruct (Activity.addressAllowed isNaN appterm (Some a)) as [[|]|];
        trivial; discriminate.
  - intros f db q term Ty G P.
    rewrite (processQueue_refused isNaN appterm f db q term G
               (allowed_gate isNaN appterm term q Ty P)).
    simpl. repeat split.
    intros -> Hin. now apply save_In.
Qed.

Lemma address_gate_witness :
  passes isNaN Sample.appterm (Some "notanumber"%string) = false
  /\ passes isNaN Sample.appterm (Some "123"%string) = false
  /\ passes isNaN Sample.appterm (Some "08999999999"%string) = false
  /\ Activity.addressAllowed isNaN Sample.appterm (Some "08123456789"%string)
     = Some true
  /\ snd (Activity.processQueue isNaN Sample.appterm no_faults
            [Sample.inbox "123"] (Sample.inbox "123"))
     = [Activity.Update (Sample.inbox "123") (outcome false); Activity.Done].
Proof.
  split; [|split; [|split; [|split]]].
  - destruct (address_gate isNaN Sample.appterm "notanumber") as (H & _).
    apply H. reflexivity.
  - destruct (address_gate isNaN Sample.appterm "123") as (_ & H & _).
    apply H. vm_compute. lia.
  - destruct (address_gate isNaN Sample.appterm "08999999999")
      as (_ & _ & _ & H & _).
    apply H. eexists. split; [reflexivity|]. simpl. auto.
  - destruct (address_gate isNaN Sample.appterm "08123456789")
      as (_ & _ & _ & _ & H & _).
    apply H.
    + reflexivity.
    + vm_compute. lia.
    + intros (l & [= <-] & [E|[]]). discriminate.
  - destruct (address_gate isNaN Sample.appterm "123") as (_ & _ & _ & _ & _ & H).
    apply (H no_faults [Sample.inbox "123"] (Sample.inbox "123") Sample.term).
    + right. reflexivity.
    + reflexivity.
    + reflexivity.
Defined.

Section FanOut.
Variable isNaN : string -> bool.
Variable term : Term.t.

Lemma handled_app (l1 l2 : list Activity.event) :
  handled (l1 ++ l2) = handled l1 ++ handled l2.
Proof. apply flat_map_app. Qed.

Lemma notified_app (l1 l2 : list Activity.event) :
  notified (l1 ++ l2) = notified l1 ++ notified l2.
Proof. apply flat_map_app. Qed.

Lemma notification_handled (socket : Socket.t) (q : GwQueue.t) :
  handled (Activity.notification socket q) = [].
Proof.
  unfold Activity.notification.
  repeat match goal with |- context [if ?c then _ else _] => destruct c end;
    reflexivity.
Qed.

Lemma notify_handled (sockets : list Socket.t) :
  forall s,
    fst (forEach (Activity.notify term) sockets s) = fst s
    /\ handled (snd (forEach (Activity.notify term) sockets s))
       = handled (snd s).
Proof.
  induction sockets as [|socket sockets IH]; intros s; simpl.
  - auto.
  - destruct (IH (fst (Activity.notify term socket s))) as [I1 I2].
    rewrite I1, I2. unfold Activity.notify.
    destruct (loose_eq _ _); simpl; split; trivial.
    now rewrite handled_app, notification_handled, app_nil_r.
Qed.

Lemma dispatch_in_scope (plugin : Plugin.t) :
  match Plugin.group plugin with None => true | Some _ => false end
  || loose_eq (Term.group (Term.options term)) (Plugin.group plugin)
  = in_scope term plugin.
Proof.
  unfold in_scope.
  destruct (Plugin.group plugin) as [g|]; reflexivity.
Qed.

(** The fan-out reaches every plugin in scope, whatever the plugins do to
    the instance. *)
Lemma dispatch_handled (plugins : list Plugin.t) :
  forall s,
    handled (snd (forEach (Activity.dispatch term) plugins s))
    = handled (snd s) ++ map Plugin.name (filter (in_scope term) plugins).
Proof.
  induction plugins as [|plugin plugins IH]; intros s; simpl.
  - now rewrite app_nil_r.
  - rewrite IH. unfold Activity.dispatch.
    rewrite dispatch_in_scope.
    destruct (in_scope term plugin); simpl; trivial.
    destruct (GwQueue.veto _); simpl;
      now rewrite handled_app, <- app_assoc.
Qed.

Lemma vetoing_in_scope (plugins : list Plugin.t) :
  map Plugin.name (filter (in_scope term) (map vetoing plugins))
  = map Plugin.name (filter (in_scope term) plugins).
Proof.
  induction plugins as [|plugin plugins IH]; simpl; trivial.
  change (in_scope term (vetoing plugin)) with (in_scope term plugin).
  destruct (in_scope term plugin); simpl; now rewrite IH.
Qed.

Lemma processQueue_allowed (appterm : AppTerm.t) (f : Faults)
    (db : list GwQueue.t) (q : GwQueue.t) :
  AppTerm.get appterm (GwQueue.imsi q) = Some term ->
  Activity.allowed isNaN appterm term q = true ->
  handled (snd (Activity.processQueue isNaN appterm f db q))
  = map Plugin.name (filter (in_scope term) (AppTerm.plugins appterm))
  /\ exists before q',
       snd (Activity.processQueue isNaN appterm f db q)
       = before ++ [Activity.Update q' (outcome true); Activity.Done].
Proof.
  intros G A. unfold Activity.processQueue. rewrite G, A. simpl. split.
  - rewrite handled_app, dispatch_handled.
    destruct (notify_handled (AppTerm.gwclients appterm) (q, [])) as [_ N].
    rewrite N. simpl. now rewrite app_nil_r.
  - eexists. eexists. reflexivity.
Qed.

End FanOut.

(** C8. When [processQueue] fans an item out, [handle] is called on every
    plugin that has no group or the group of the item's terminal, in the
    order of the list, whatever the plugins do to the item: the same
    plugins are called when every one of them sets [veto]; and the call
    goes on to update the row with [processed = 1] and [status = 1] and to
    call [done]. *)
Theorem plugin_fanout (isNaN : string -> bool) (appterm : AppTerm.t)
    (f : Faults) (db : list GwQueue.t) (q : GwQueue.t) (term : Term.t) :
  AppTerm.get appterm (GwQueue.imsi q) = Some term ->
  Activity.allowed isNaN appterm term q = true ->
  handled (snd (Activity.processQueue isNaN appterm f db q))
  = map Plugin.name (filter (in_scope term) (AppTerm.plugins appterm))
  /\ handled
       (snd (Activity.processQueue isNaN
               (with_plugins appterm (map vetoing (AppTerm.plugins appterm)))
               f db q))
     = map Plugin.name (filter (in_scope term) (AppTerm.plugins appterm))
  /\ (forall plugin,
        In plugin (AppTerm.plugins appterm) ->
        Plugin.group plugin = None
        \/ Plugin.group plugin = Term.group (Term.options term) ->
        In (Plugin.name plugin)
           (handled (snd (Activity.processQueue isNaN appterm f db q))))
  /\ (exists before q',
        snd (Activity.processQueue isNaN appterm f db q)
        = before ++ [Activity.Update q' (outcome true); Activity.Done])
  /\ (exists before q',
        snd (Activity.processQueue isNaN
               (with_plugins appterm (map vetoing (AppTerm.plugins appterm)))
               f db q)
        = before ++ [Activity.Update q' (outcome true); Activity.Done]).
Proof.
  intros G A.
  destruct (processQueue_allowed isNaN term appterm f db q G A) as [H1 H2].
  destruct (processQueue_allowed isNaN term
              (with_plugins appterm (map vetoing (AppTerm.plugins appterm)))
              f db q G A) as [V1 V2].
  split; [exact H1|]. split; [|split; [|split; [exact H2|exact V2]]].
  - rewrite V1. apply vetoing_in_scope.
  - intros plugin Hin Hg. rewrite H1.
    apply in_map, filter_In. split; trivial.
    unfold in_scope. destruct Hg as [-> | ->]; trivial.
    destruct (Term.group (Term.options term)); trivial.
    apply String.eqb_refl.
Qed.

Lemma plugin_fanout_witness :
  handled (snd (Activity.processQueue isNaN Sample.appterm no_faults
                  [Sample.inbox "08123456789"] (Sample.inbox "08123456789")))
  = ["prepaid"%string; "prepaid"%string].
Proof.
  destruct (plugin_fanout isNaN Sample.appterm no_faults
              [Sample.inbox "08123456789"] (Sample.inbox "08123456789")
              Sample.term eq_refl eq_refl) as (H & _).
  exact H.
Defined.

(** ** Items of unknown terminals *)

Lemma activity_getQueues_In (db : list GwQueue.t) (q : GwQueue.t) :
  In q (Activity.getQueues db) <-> In q db /\ inbound q.
Proof.
  unfold Activity.getQueues, Activity.where_, inbound.
  rewrite order_by_In, filter_In, andb_true_iff, !orb_true_iff, !Z.eqb_eq.
  tauto.
Qed.

Lemma processQueue_unknown (isNaN : string -> bool) (appterm : AppTerm.t)
    (f : Faults) (db : list GwQueue.t) (q : GwQueue.t) :
  AppTerm.get appterm (GwQueue.imsi q) = None ->
  Activity.processQueue isNaN appterm f db q = (db, [Activity.Done]).
Proof.
  intros G. unfold Activity.processQueue. now rewrite G.
Qed.

Lemma reprocessed_unknown (isNaN : string -> bool) (appterm : AppTerm.t)
    (rounds : list Faults) (db : list GwQueue.t) (q : GwQueue.t) :
  AppTerm.get appterm (GwQueue.imsi q) = None ->
  reprocessed isNaN appterm rounds db q = db.
Proof.
  intros G. unfold reprocessed.
  induction rounds as [|f rounds IH]; simpl; trivial.
  now rewrite processQueue_unknown.
Qed.

(** C9. When the host knows no terminal of the item's imsi, [processQueue]
    leaves the table as it is, notifies no socket, calls no plugin, issues
    no update and calls [done]; an item of the activity snapshot is
    therefore in the snapshot again after any number of such runs. *)
Theorem unknown_channel (isNaN : string -> bool) (appterm : AppTerm.t)
    (f : Faults) (db : list GwQueue.t) (q : GwQueue.t) :
  AppTerm.get appterm (GwQueue.imsi q) = None ->
  Activity.processQueue isNaN appterm f db q = (db, [Activity.Done])
  /\ notified (snd (Activity.processQueue isNaN appterm f db q)) = []
  /\ handled (snd (Activity.processQueue isNaN appterm f db q)) = []
  /\ (forall rounds, reprocessed isNaN appterm rounds db q = db)
  /\ (In q (Activity.getQueues db) ->
      inbound q
      /\ forall rounds,
           In q (Activity.getQueues (reprocessed isNaN appterm rounds db q))).
Proof.
  intros G. rewrite processQueue_unknown by exact G.
  split; [reflexivity|]. split; [reflexivity|]. split; [reflexivity|].
  split.
  - intros rounds. now apply reprocessed_unknown.
  - intros Hin. split.
    + now apply activity_getQueues_In in Hin.
    + intros rounds. now rewrite reprocessed_unknown.
Qed.

Lemma unknown_channel_witness :
  Activity.processQueue isNaN Sample.stranger no_faults
    [Sample.inbox "08123456789"] (Sample.inbox "08123456789")
  = ([Sample.inbox "08123456789"], [Activity.Done]).
Proof.
  apply (unknown_channel isNaN Sample.stranger no_faults
           [Sample.inbox "08123456789"] (Sample.inbox "08123456789")).
  reflexivity.
Defined.

(** * Further properties *)

(** ** Saving and selecting *)

Lemma countQueue_app (db1 db2 : list GwQueue.t) (origin h : string) :
  countQueue (db1 ++ db2) origin h
  = countQueue db1 origin h + countQueue db2 origin h.
Proof.
  unfold countQueue. rewrite filter_app, length_app. lia.
Qed.

Lemma saveQueue_served (f : Faults) (now : Z) (db : list GwQueue.t)
    (origin : string) (queue : Queue.t) :
  count_rejects f = false -> create_rejects f = false ->
  ~ queued db origin (Queue.hash queue) ->
  saveQueue f now db origin queue
  = (db ++ [newQueue db origin queue now],
     [Some (newQueue db origin queue now)]).
Proof.
  intros Hc Hk Hq. unfold saveQueue. rewrite Hc, Hk.
  apply countQueue_zero in Hq. now rewrite Hq.
Qed.

Lemma next_id_fresh (db : list GwQueue.t) (r : GwQueue.t) :
  In r db -> GwQueue.id r < GwQueue.next_id db.
Proof.
  unfold GwQueue.next_id.
  induction db as [|a db IH]; cbn [In map fold_right]; [tauto|].
  intros [<-|H]; [lia|]. specialize (IH H). lia.
Qed.

(** X1. A call of [saveQueue] that the database serves, for a key no row
    has, appends exactly one row and hands it to the callback.  The row
    has the origin as imsi, the hash, type, address and data of the
    object, [processed = 0], [status = 0], no retry counter, the priority
    of the object or 20 when that is missing or 0, the time of the object
    or the current time when that is missing, and an id above every id of
    the table.  Afterwards the count under the key is 1 and every further
    call with the same origin and object leaves the table as it is. *)
Theorem saveQueue_inserts (f : Faults) (now : Z) (db : list GwQueue.t)
    (origin : string) (queue : Queue.t) :
  count_rejects f = false -> create_rejects f = false ->
  ~ queued db origin (Queue.hash queue) ->
  exists row,
    saveQueue f now db origin queue = (db ++ [row], [Some row])
    /\ GwQueue.imsi row = origin
    /\ GwQueue.hash row = Queue.hash queue
    /\ GwQueue.type row = Queue.type queue
    /\ GwQueue.address row = Queue.address queue
    /\ GwQueue.data row = Queue.data queue
    /\ GwQueue.processed row = 0
    /\ GwQueue.status row = 0
    /\ GwQueue.retry row = None
    /\ (forall p, Queue.priority queue = Some p -> p <> 0 ->
                  GwQueue.priority row = p)
    /\ (Queue.priority queue = None \/ Queue.priority queue = Some 0 ->
        GwQueue.priority row = 20)
    /\ (forall t, Queue.time queue = Some t -> GwQueue.time row = t)
    /\ (Queue.time queue = None -> GwQueue.time row = now)
    /\ (forall r, In r db -> GwQueue.id r < GwQueue.id row)
    /\ countQueue (db ++ [row]) origin (Queue.hash queue) = 1
    /\ (forall f' now',
          saveQueue f' now' (db ++ [row]) origin queue = (db ++ [row], [None])).
Proof.
  intros Hc Hk Hq. exists (newQueue db origin queue now).
  split; [now apply saveQueue_served|].
  repeat (split; [reflexivity|]).
  split; [|split; [|split; [|split; [|split; [|split]]]]].
  - intros p Hp Np. unfold newQueue. cbn [GwQueue.priority]. rewrite Hp.
    unfold truthy_number. now destruct (Z.eqb_spec p 0).
  - intros [Hp|Hp]; unfold newQueue; cbn [GwQueue.priority]; rewrite Hp;
      reflexivity.
  - intros t Ht. unfold newQueue. cbn [GwQueue.time]. now rewrite Ht.
  - intros Ht. unfold newQueue. cbn [GwQueue.time]. now rewrite Ht.
  - intros r Hr. now apply next_id_fresh.
  - rewrite countQueue_app. apply countQueue_zero in Hq. rewrite Hq.
    unfold countQueue. simpl. now rewrite !String.eqb_refl.
  - intros f' now'. apply saveQueue_queued.
    exists (newQueue db origin queue now). split.
    + apply in_or_app. right. now left.
    + split; reflexivity.
Qed.

Lemma saveQueue_inserts_witness :
  exists row,
    saveQueue no_faults 0 [] (Term.name Sample.term) Sample.sms
    = ([row], [Some row])
    /\ GwQueue.priority row = 20
    /\ GwQueue.time row = 0
    /\ GwQueue.status row = 0.
Proof.
  destruct (saveQueue_inserts no_faults 0 [] (Term.name Sample.term) Sample.sms)
    as (row & E & _ & _ & _ & _ & _ & _ & S & _ & _ & P & _ & T & _);
    try reflexivity.
  - intros (r & [] & _).
  - exists row. split; [exact E|]. split; [apply P; now left|].
    split; [now apply T|exact S].
Defined.

Lemma activity_order_precedes (a b : GwQueue.t) :
  Activity.order a b = true <-> precedes_inbound a b.
Proof.
  unfold Activity.order, precedes_inbound.
  destruct (Z.ltb_spec (GwQueue.priority a) (GwQueue.priority b));
  destruct (Z.ltb_spec (GwQueue.priority b) (GwQueue.priority a));
  destruct (Z.leb_spec (GwQueue.time a) (GwQueue.time b));
  split; intros; try lia; try discriminate; try reflexivity.
Qed.

Lemma activity_order_total (a b : GwQueue.t) :
  Activity.order a b = false -> Activity.order b a = true.
Proof.
  intros H. apply activity_order_precedes.
  assert (~ precedes_inbound a b) as N.
  { intros P. apply activity_order_precedes in P. congruence. }
  unfold precedes_inbound in *. lia.
Qed.

Lemma activity_order_trans (a b c : GwQueue.t) :
  Activity.order a b = true -> Activity.order b c = true ->
  Activity.order a c = true.
Proof.
  rewrite !activity_order_precedes. unfold precedes_inbound. lia.
Qed.

(** X2. The snapshot of the activity dispatcher holds exactly the
    unprocessed ring, inbox and CUSD rows of the table, whatever their
    channel, ordered by priority and then time, ascending; no row is ever
    in the snapshot of a terminal dispatcher and in the one of the activity
    dispatcher. *)
Theorem activity_snapshot (db : list GwQueue.t) :
  (forall q, In q (Activity.getQueues db) <-> In q db /\ inbound q)
  /\ Permutation (Activity.getQueues db) (filter Activity.where_ db)
  /\ StronglySorted precedes_inbound (Activity.getQueues db)
  /\ (forall this db' q,
        In q (Terminal.getQueues this db') -> ~ In q (Activity.getQueues db)).
Proof.
  split; [|split; [|split]].
  - intros q. apply activity_getQueues_In.
  - apply order_by_perm.
  - apply StronglySorted_impl with (R := fun a b => Activity.order a b = true).
    + intros a b. apply activity_order_precedes.
    + apply order_by_sorted.
      * apply activity_order_total.
      * apply activity_order_trans.
  - intros this db' q Ht Ha.
    apply terminal_getQueues_In in Ht. apply activity_getQueues_In in Ha.
    destruct Ht as [_ [_ Ht]]. destruct Ha as [_ [_ Ha]].
    unfold ACTIVITY_CALL, ACTIVITY_SMS, ACTIVITY_USSD, ACTIVITY_RING,
      ACTIVITY_INBOX, ACTIVITY_CUSD in *.
    lia.
Qed.

(** X3. The row a served [saveQueue] appends is selected by the terminal
    dispatcher of a channel exactly when it was saved for that channel with
    a call, message or USSD kind, and by the activity dispatcher exactly
    when its kind is ring, inbox or CUSD, whatever priority and time the
    object carried. *)
Theorem saved_row_is_dispatched (this : Terminal.t) (f : Faults) (now : Z)
    (db : list GwQueue.t) (origin : string) (queue : Queue.t) :
  count_rejects f = false -> create_rejects f = false ->
  ~ queued db origin (Queue.hash queue) ->
  (In (newQueue db origin queue now)
      (Terminal.getQueues this (fst (saveQueue f now db origin queue)))
   <-> origin = Term.name (Terminal.term this) /\ outbound (Queue.type queue))
  /\ (In (newQueue db origin queue now)
         (Activity.getQueues (fst (saveQueue f now db origin queue)))
      <-> incoming (Queue.type queue)).
Proof.
  intros Hc Hk Hq.
  rewrite (saveQueue_served f now db origin queue Hc Hk Hq). cbn [fst].
  assert (In (newQueue db origin queue now)
             (db ++ [newQueue db origin queue now])) as Hin
    by (apply in_or_app; right; now left).
  split.
  - rewrite terminal_getQueues_In. unfold selected, outbound. simpl.
    split.
    + intros (_ & Ho & [[_ Hty]|[Hp _]]); [auto|discriminate].
    + intros [Ho Hty]. auto.
  - rewrite activity_getQueues_In. unfold inbound, incoming. simpl. tauto.
Qed.

Lemma saved_row_is_dispatched_witness :
  In Sample.row (Terminal.getQueues Sample.this (gw_queue Sample.st)).
Proof.
  apply (saved_row_is_dispatched Sample.this no_faults 0 []
           (Term.name Sample.term) Sample.sms); try reflexivity.
  - intros (r & [] & _).
  - split; [reflexivity|]. right. left. reflexivity.
Defined.

(** ** Reloading the snapshot *)

Lemma reloadNeeded_dirty (d : Dispatcher.t) (now : Z) :
  0 < Dispatcher.count d -> Dispatcher.reloadNeeded now d = Dispatcher.load d.
Proof.
  unfold Dispatcher.reloadNeeded. intros H.
  destruct (Z.ltb_spec 0 (Dispatcher.count d)); [|lia].
  destruct (Z.eqb_spec (Dispatcher.count d) 0); [lia|]. reflexivity.
Qed.

Lemma reloadNeeded_kept (d : Dispatcher.t) (now : Z) :
  Dispatcher.count d = 0 -> Dispatcher.queues d <> [] ->
  Dispatcher.reloadNeeded now d = d.
Proof.
  unfold Dispatcher.reloadNeeded. intros Hc Hq. rewrite Hc. simpl.
  destruct (Dispatcher.queues d); [congruence|reflexivity].
Qed.

(** X4. [reloadNeeded] with a pending dirty signal is [load]; without one
    it leaves a non-empty snapshot alone however old it is, and refreshes
    an empty one only when the last load is at least [reloadInterval] old
    and [loading] is not set, in which case it starts a fetch, whether or
    not an earlier fetch is still in flight: the flag is what is tested,
    not the fetches. *)
Theorem reloadNeeded_cases (d : Dispatcher.t) (now : Z) :
  (0 < Dispatcher.count d -> Dispatcher.reloadNeeded now d = Dispatcher.load d)
  /\ (Dispatcher.count d = 0 -> Dispatcher.queues d <> [] ->
      Dispatcher.reloadNeeded now d = d)
  /\ (Dispatcher.count d = 0 -> Dispatcher.queues d = [] ->
      now - Dispatcher.loadTime d < Dispatcher.reloadInterval d ->
      Dispatcher.reloadNeeded now d = d)
  /\ (Dispatcher.count d = 0 -> Dispatcher.queues d = [] ->
      Dispatcher.loading d = true ->
      Dispatcher.reloadNeeded now d = d)
  /\ (Dispatcher.count d = 0 -> Dispatcher.queues d = [] ->
      Dispatcher.reloadInterval d <= now - Dispatcher.loadTime d ->
      Dispatcher.loading d = false ->
      Dispatcher.reloadNeeded now d = Dispatcher.load (Dispatcher.tick d)
      /\ Dispatcher.fetching (Dispatcher.reloadNeeded now d)
         = S (Dispatcher.fetching d)
      /\ Dispatcher.loading (Dispatcher.reloadNeeded now d) = true
      /\ Dispatcher.count (Dispatcher.reloadNeeded now d) = 0).
Proof.
  split; [apply reloadNeeded_dirty|].
  split; [apply reloadNeeded_kept|].
  unfold Dispatcher.reloadNeeded.
  split; [|split].
  - intros Hc Hq Ht. rewrite Hc, Hq. simpl.
    destruct (Z.leb_spec (Dispatcher.reloadInterval d) (now - Dispatcher.loadTime d));
      [lia|].
    simpl. unfold Dispatcher.load. now rewrite Hc.
  - intros Hc Hq Hl. rewrite Hc, Hq, Hl. simpl. rewrite andb_false_r.
    unfold Dispatcher.load. now rewrite Hc.
  - intros Hc Hq Ht Hl. rewrite Hc, Hq, Hl. simpl.
    destruct (Z.leb_spec (Dispatcher.reloadInterval d) (now - Dispatcher.loadTime d));
      [|lia].
    simpl. split; [reflexivity|].
    unfold Dispatcher.load, Dispatcher.tick. simpl. rewrite Hc. simpl. auto.
Qed.

Lemma reloadNeeded_cases_witness :
  Dispatcher.fetching Sample2.answered_once = 1%nat
  /\ Dispatcher.loading Sample2.answered_once = false
  /\ Dispatcher.fetching (Dispatcher.reloadNeeded 300003 Sample2.answered_once)
     = 2%nat.
Proof.
  destruct (reloadNeeded_cases Sample2.answered_once 300003)
    as (_ & _ & _ & _ & H).
  assert (Dispatcher.reloadInterval Sample2.answered_once
          <= 300003 - Dispatcher.loadTime Sample2.answered_once) as Old
    by (simpl; lia).
  destruct (H eq_refl eq_refl Old eq_refl) as (_ & E & _).
  split; [reflexivity|]. split; [reflexivity|].
  exact E.
Defined.

(** X5. A reload signal that reaches a terminal dispatcher while its fetch
    is in flight is kept: when the fetch is answered the dirty counter is
    still 1, so the next idle signal starts another fetch, and it does so
    before handing over any row of the snapshot just loaded. *)
Theorem reload_during_load (this : Terminal.t) (db : list GwQueue.t)
    (now now' now'' : Z) :
  0 < Dispatcher.count (Terminal.base this) ->
  let started := fst (Terminal.idle now this) in
  let answered := Terminal.loaded db now' (Terminal.reload started) in
  Dispatcher.fetching (Terminal.base started)
  = S (Dispatcher.fetching (Terminal.base this))
  /\ Dispatcher.count (Terminal.base answered) = 1
  /\ Dispatcher.queues (Terminal.base answered) = Terminal.getQueues this db
  /\ snd (Terminal.idle now'' answered) = None
  /\ Dispatcher.queues (Terminal.base (fst (Terminal.idle now'' answered))) = []
  /\ Dispatcher.fetching (Terminal.base (fst (Terminal.idle now'' answered)))
     = S (Dispatcher.fetching (Terminal.base this)).
Proof.
  intros H. cbv zeta.
  assert (Terminal.idle now this
          = ({| Terminal.base := Dispatcher.load (Terminal.base this);
                Terminal.term := Terminal.term this;
                Terminal.maxRetry := Terminal.maxRetry this |}, None)) as E.
  { unfold Terminal.idle.
    rewrite (reloadNeeded_dirty _ now H). unfold Dispatcher.load.
    destruct (Z.ltb_spec 0 (Dispatcher.count (Terminal.base this))); [|lia].
    reflexivity. }
  rewrite E. cbn [fst].
  unfold Dispatcher.load.
  destruct (Z.ltb_spec 0 (Dispatcher.count (Terminal.base this))); [|lia].
  unfold Terminal.idle. simpl. repeat split.
Qed.

Lemma reload_during_load_witness :
  Dispatcher.count
    (Terminal.base
       (Terminal.loaded (gw_queue Sample.st) 2
          (Terminal.reload
             (fst (Terminal.idle 1 (Terminal.reload Sample.this))))))
  = 1.
Proof.
  apply (reload_during_load (Terminal.reload Sample.this) (gw_queue Sample.st)
           1 2 3).
  simpl. lia.
Defined.

Lemma reloadNeeded_queues (d : Dispatcher.t) (now : Z) :
  Dispatcher.queues (Dispatcher.reloadNeeded now d) = []
  \/ (Dispatcher.reloadNeeded now d = d /\ Dispatcher.count d <= 0).
Proof.
  unfold Dispatcher.reloadNeeded, Dispatcher.load.
  destruct (Z.ltb_spec 0 (Dispatcher.count d)) as [Hc|Hc]; simpl.
  - destruct (Z.eqb_spec (Dispatcher.count d) 0); [lia|]. simpl.
    destruct (Z.ltb_spec 0 (Dispatcher.count d)); [|lia]. now left.
  - destruct ((Dispatcher.count d =? 0)
              && Nat.eqb (List.length (Dispatcher.queues d)) 0) eqn:C;
      [|now right].
    apply andb_true_iff in C. destruct C as [C1 C2].
    apply Nat.eqb_eq, length_zero_iff_nil in C2.
    rewrite C1. simpl.
    destruct ((Dispatcher.reloadInterval d <=? now - Dispatcher.loadTime d)
              && negb (Dispatcher.loading d)); simpl.
    + destruct (0 <? Dispatcher.count d + 1); simpl; now left.
    + destruct (0 <? Dispatcher.count d); simpl; now left.
Qed.

(** X6. An idle signal hands over at most the head of the snapshot, and
    only when the terminal is not busy and no dirty signal is pending; a
    pending signal makes it drop the whole snapshot and start a fetch
    instead, even when the terminal is free. *)
Theorem idle_pops (this : Terminal.t) (now : Z) :
  (forall this' q,
     Terminal.idle now this = (this', Some q) ->
     Term.busy (Terminal.term this) = false
     /\ Dispatcher.count (Terminal.base this) <= 0
     /\ Dispatcher.queues (Terminal.base this)
        = q :: Dispatcher.queues (Terminal.base this'))
  /\ (Term.busy (Terminal.term this) = true ->
      snd (Terminal.idle now this) = None)
  /\ (0 < Dispatcher.count (Terminal.base this) ->
      snd (Terminal.idle now this) = None
      /\ Dispatcher.queues (Terminal.base (fst (Terminal.idle now this))) = []
      /\ Dispatcher.fetching (Terminal.base (fst (Terminal.idle now this)))
         = S (Dispatcher.fetching (Terminal.base this)))
  /\ (forall q rest,
        Dispatcher.count (Terminal.base this) = 0 ->
        Term.busy (Terminal.term this) = false ->
        Dispatcher.queues (Terminal.base this) = q :: rest ->
        snd (Terminal.idle now this) = Some q
        /\ Dispatcher.queues (Terminal.base (fst (Terminal.idle now this)))
           = rest)
  /\ Terminal.term (fst (Terminal.idle now this)) = Terminal.term this
  /\ Terminal.maxRetry (fst (Terminal.idle now this)) = Terminal.maxRetry this.
Proof.
  split; [|split; [|split; [|split; [|split]]]].
  - intros this' q. unfold Terminal.idle.
    destruct (Dispatcher.queues
                (Dispatcher.reloadNeeded now (Terminal.base this)))
      as [|q0 rest] eqn:Q; [discriminate|].
    destruct (Term.busy (Terminal.term this)); simpl; [discriminate|].
    intros [= <- <-]. simpl. rewrite Q. simpl.
    destruct (reloadNeeded_queues (Terminal.base this) now) as [E|[E Hc]].
    + congruence.
    + rewrite E in Q. auto.
  - intros Hb. unfold Terminal.idle. rewrite Hb.
    destruct (Dispatcher.queues _); reflexivity.
  - intros Hc. unfold Terminal.idle.
    rewrite (reloadNeeded_dirty _ now Hc). unfold Dispatcher.load.
    destruct (Z.ltb_spec 0 (Dispatcher.count (Terminal.base this))); [|lia].
    simpl. auto.
  - intros q rest Hc Hb Hq. unfold Terminal.idle.
    rewrite reloadNeeded_kept by (trivial; congruence).
    rewrite Hq, Hb. simpl. now rewrite Hq.
  - unfold Terminal.idle.
    destruct (Dispatcher.queues _); [reflexivity|].
    destruct (Term.busy _); reflexivity.
  - unfold Terminal.idle.
    destruct (Dispatcher.queues _); [reflexivity|].
    destruct (Term.busy _); reflexivity.
Qed.

Lemma idle_pops_witness :
  snd (Terminal.idle 3
         (Terminal.loaded Sample.three 2
            (fst (Terminal.idle 1 (Terminal.reload Sample.this)))))
  = Some (Sample.prio 2 10).
Proof.
  destruct (idle_pops
              (Terminal.loaded Sample.three 2
                 (fst (Terminal.idle 1 (Terminal.reload Sample.this)))) 3)
    as (_ & _ & _ & H & _).
  apply (H (Sample.prio 2 10) [Sample.prio 3 20; Sample.prio 1 50]);
    reflexivity.
Defined.

(** ** Recording outcomes *)

Lemma countLog_logged (lg : list GwLog.t) (origin h : string) (ty : Z) :
  countLog lg origin h ty <> 0 -> logged lg origin h ty.
Proof.
  unfold countLog, logged. intros H.
  destruct (filter _ lg) as [|r rest] eqn:F; [now elim H|].
  assert (In r (filter
                  (fun r => (GwLog.imsi r =? origin)%string
                            && (GwLog.hash r =? h)%string
                            && (GwLog.type r =? ty)) lg)) as Hin
    by (rewrite F; now left).
  apply filter_In in Hin. destruct Hin as [Hin P].
  apply andb_true_iff in P. destruct P as [P P3].
  apply andb_true_iff in P. destruct P as [P1 P2].
  exists r. rewrite <- (proj1 (String.eqb_eq _ _) P1),
              <- (proj1 (String.eqb_eq _ _) P2),
              <- (proj1 (Z.eqb_eq _ _) P3).
  auto.
Qed.

Lemma saveLog_logged (f : Faults) (lg : list GwLog.t) (origin : string)
    (log : GwQueue.t) :
  logged lg origin (GwQueue.hash log) (GwQueue.type log) ->
  saveLog f lg origin log = (lg, []).
Proof.
  intros H. unfold saveLog.
  destruct (count_rejects f); trivial.
  destruct (Z.eqb_spec (countLog lg origin (GwQueue.hash log) (GwQueue.type log)) 0)
    as [E|E]; trivial.
  apply countLog_zero in E. contradiction.
Qed.

Lemma saveLog_served (f : Faults) (lg : list GwLog.t) (origin : string)
    (log : GwQueue.t) :
  served f ->
  logged (fst (saveLog f lg origin log)) origin (GwQueue.hash log)
    (GwQueue.type log).
Proof.
  intros (Hc & Hk & _). unfold saveLog. rewrite Hc, Hk.
  destruct (Z.eqb_spec (countLog lg origin (GwQueue.hash log) (GwQueue.type log)) 0)
    as [E|E].
  - simpl. exists (newLog lg origin log). split.
    + apply in_or_app. right. now left.
    + repeat split.
  - simpl. now apply countLog_logged.
Qed.

(** X7. [update] writes the outcome log at most once per item: once an
    update of a call or a message has been served, the log holds a row
    under the item's key (imsi, hash, type), and no later [update] of an
    instance with that key, whatever its outcome, adds or changes a log
    row; the update of a USSD request never touches the log. *)
Theorem outcome_logged_once (f : Faults) (reply : bool) (st : Store)
    (q : GwQueue.t) (success : bool) :
  (GwQueue.type q <> ACTIVITY_USSD -> served f ->
   logged (gw_log (fst (Terminal.update f reply st q success)))
     (GwQueue.imsi q) (GwQueue.hash q) (GwQueue.type q)
   /\ forall f' reply' q' success',
        GwQueue.imsi q' = GwQueue.imsi q ->
        GwQueue.hash q' = GwQueue.hash q ->
        GwQueue.type q' = GwQueue.type q ->
        gw_log
          (fst (Terminal.update f' reply'
                  (fst (Terminal.update f reply st q success)) q' success'))
        = gw_log (fst (Terminal.update f reply st q success)))
  /\ (GwQueue.type q = ACTIVITY_USSD ->
      gw_log (fst (Terminal.update f reply st q success)) = gw_log st).
Proof.
  split.
  - intros Ty Hf.
    assert (negb (GwQueue.type q =? ACTIVITY_USSD) = true) as N.
    { destruct (Z.eqb_spec (GwQueue.type q) ACTIVITY_USSD); [contradiction|].
      reflexivity. }
    assert (logged (gw_log (fst (Terminal.update f reply st q success)))
              (GwQueue.imsi q) (GwQueue.hash q) (GwQueue.type q)) as L.
    { unfold Terminal.update.
      destruct Hf as (Hc & Hk & Hu). rewrite Hu, N. simpl.
      apply (saveLog_served f (gw_log st) (GwQueue.imsi q)
               (GwQueue.update (Terminal.updates reply q success) q)).
      repeat split; trivial. }
    split; [exact L|].
    intros f' reply' q' success' E1 E2 E3.
    set (st1 := fst (Terminal.update f reply st q success)) in *.
    unfold Terminal.update.
    destruct (update_rejects f'); [reflexivity|].
    rewrite E3, N. simpl.
    rewrite saveLog_logged; [reflexivity|].
    simpl. now rewrite E1, E2, E3.
  - intros Ty. unfold Terminal.update.
    destruct (update_rejects f); [reflexivity|].
    rewrite Ty. reflexivity.
Qed.

Lemma outcome_logged_once_witness :
  gw_log
    (fst (Terminal.update no_faults true
            (fst (Terminal.update no_faults false Sample.st Sample.row false))
            Sample.retried true))
  = gw_log (fst (Terminal.update no_faults false Sample.st Sample.row false)).
Proof.
  destruct (outcome_logged_once no_faults false Sample.st Sample.row false)
    as (H & _).
  destruct H as (_ & E).
  - discriminate.
  - repeat split.
  - apply E; reflexivity.
Defined.

(** ** What [process] asks of the terminal *)

Lemma calls_settle (f : Faults) (st : Store) (q : GwQueue.t)
    (action : option (settled bool)) :
  calls (snd (Terminal.settle f st q action)) = [].
Proof.
  unfold Terminal.settle, Terminal.update.
  destruct action as [[b|]|];
    repeat match goal with |- context [if ?c then _ else _] => destruct c end;
    reflexivity.
Qed.

(** X8. [process] asks the terminal for exactly one operation, chosen by
    the kind of the item: [dial] for a call, [ussd] for a USSD request,
    [sendMessage] for a message without retry counter; for a message with
    one it queries the status first and sends only when the answer does not
    report the message as sent; for any other kind it does nothing at
    all. *)
Theorem process_by_kind (f : Faults) (a : Term.answers) (st : Store)
    (q : GwQueue.t) :
  (GwQueue.type q = ACTIVITY_CALL ->
   calls (snd (Terminal.process f a st q)) = [Terminal.Dial q])
  /\ (GwQueue.type q = ACTIVITY_USSD ->
      calls (snd (Terminal.process f a st q)) = [Terminal.Ussd q])
  /\ (GwQueue.type q = ACTIVITY_SMS -> GwQueue.retry q = None ->
      calls (snd (Terminal.process f a st q)) = [Terminal.SendMessage q])
  /\ (GwQueue.type q = ACTIVITY_SMS -> GwQueue.retry q <> None ->
      calls (snd (Terminal.process f a st q))
      = Terminal.Query "status" (GwQueue.hash q)
        :: match Term.on_query a with
           | Fulfilled status =>
               if reports_sent status q then [] else [Terminal.SendMessage q]
           | Rejected => []
           end)
  /\ (GwQueue.type q <> ACTIVITY_CALL -> GwQueue.type q <> ACTIVITY_SMS ->
      GwQueue.type q <> ACTIVITY_USSD ->
      Terminal.process f a st q = (st, [])).
Proof.
  unfold Terminal.process.
  split; [|split; [|split; [|split]]].
  - intros ->. simpl. now rewrite calls_settle.
  - intros ->. simpl. now rewrite calls_settle.
  - intros -> ->. simpl. now rewrite calls_settle.
  - intros -> Hr. simpl.
    destruct (GwQueue.retry q) as [n|]; [|congruence].
    simpl. f_equal.
    destruct (Term.on_query a) as [status|]; [|reflexivity].
    unfold reports_sent.
    destruct (Term.success status
              && loose_eq (Term.hash status) (Some (GwQueue.hash q))); simpl.
    + destruct (Term.status status); simpl; [reflexivity|].
      now rewrite calls_settle.
    + now rewrite calls_settle.
  - intros H1 H2 H3.
    destruct (Z.eqb_spec (GwQueue.type q) ACTIVITY_CALL); [contradiction|].
    destruct (Z.eqb_spec (GwQueue.type q) ACTIVITY_SMS); [contradiction|].
    destruct (Z.eqb_spec (GwQueue.type q) ACTIVITY_USSD); [contradiction|].
    reflexivity.
Qed.

Lemma process_by_kind_witness :
  calls (snd (Terminal.process no_faults Sample.rejecting Sample.st Sample.row))
  = [Terminal.SendMessage Sample.row].
Proof.
  destruct (process_by_kind no_faults Sample.rejecting Sample.st Sample.row)
    as (_ & _ & H & _).
  apply H; reflexivity.
Defined.

(** ** Items that are not retried, and items that are *)

Lemma update_served (f : Faults) (reply : bool) (st : Store) (q : GwQueue.t)
    (success : bool) :
  update_rejects f = false ->
  gw_queue (fst (Terminal.update f reply st q success))
  = GwQueue.save (GwQueue.id q) (Terminal.updates reply q success) (gw_queue st)
  /\ instance_after (snd (Terminal.update f reply st q success)) q
     = GwQueue.update (Terminal.updates reply q success) q.
Proof.
  intros Hu. unfold Terminal.update. rewrite Hu.
  destruct (negb (GwQueue.type q =? ACTIVITY_USSD)); simpl; auto.
Qed.

Lemma process_sends (f : Faults) (a : Term.answers) (st : Store)
    (q : GwQueue.t) :
  GwQueue.type q = ACTIVITY_SMS -> reaches_send a q ->
  fst (Terminal.process f a st q)
  = fst (Terminal.settle f st q (Term.on_sendMessage a))
  /\ instance_after (snd (Terminal.process f a st q)) q
     = instance_after (snd (Terminal.settle f st q (Term.on_sendMessage a))) q.
Proof.
  intros Ty Hq. unfold reaches_send in Hq.
  unfold Terminal.process. rewrite Ty. simpl.
  destruct (GwQueue.retry q) as [n|] eqn:R.
  - destruct (Hq ltac:(discriminate)) as (status & Eq & Hrep).
    rewrite Eq. unfold reports_sent in Hrep.
    destruct (Term.success status
              && loose_eq (Term.hash status) (Some (GwQueue.hash q))).
    + simpl in Hrep. rewrite Hrep. simpl. auto.
    + simpl. auto.
  - simpl. auto.
Qed.

(** X9. A message whose send is fulfilled while the terminal's reply
    reports no success is recorded as processed and failed with its retry
    counter untouched.  Without a counter it is therefore never selected
    again; with a counter that has not passed [maxRetry] it stays
    selected with the same counter, so such attempts are not bounded by
    [maxRetry]. *)
Theorem reply_without_success (this : Terminal.t) (f : Faults)
    (a : Term.answers) (st : Store) (q : GwQueue.t) :
  GwQueue.type q = ACTIVITY_SMS ->
  GwQueue.imsi q = Term.name (Terminal.term this) ->
  reaches_send a q ->
  Term.on_sendMessage a = Some (Fulfilled false) ->
  update_rejects f = false ->
  In q (gw_queue st) ->
  In (instance_after (snd (Terminal.process f a st q)) q)
     (gw_queue (fst (Terminal.process f a st q)))
  /\ GwQueue.processed (instance_after (snd (Terminal.process f a st q)) q) = 1
  /\ GwQueue.status (instance_after (snd (Terminal.process f a st q)) q) = 0
  /\ GwQueue.retry (instance_after (snd (Terminal.process f a st q)) q)
     = GwQueue.retry q
  /\ (GwQueue.retry q = None ->
      Terminal.where_ this
        (instance_after (snd (Terminal.process f a st q)) q) = false)
  /\ (forall n,
        GwQueue.retry q = Some n -> n <= Terminal.maxRetry this ->
        Terminal.where_ this
          (instance_after (snd (Terminal.process f a st q)) q) = true).
Proof.
  intros Ty Him Hq Hs Hu Hin.
  destruct (process_sends f a st q Ty Hq) as [E1 E2].
  rewrite E1, E2, Hs. simpl.
  destruct (update_served f false st q true Hu) as [D I].
  rewrite D, I.
  assert (Terminal.updates false q true
          = {| GwQueue.set_processed := Some 1;
               GwQueue.set_status := Some 0;
               GwQueue.set_retry := None |}) as U by reflexivity.
  rewrite U.
  split; [now apply save_In|].
  repeat split.
  - intros R. unfold Terminal.where_. simpl. rewrite R. simpl.
    now rewrite andb_false_r.
  - intros n R Hn. unfold Terminal.where_. simpl.
    rewrite R, Ty, Him, String.eqb_refl. simpl.
    rewrite !andb_true_r. apply Z.leb_le. exact Hn.
Qed.

Lemma reply_without_success_witness :
  Terminal.where_ Sample.this
    (instance_after
       (snd (Terminal.process no_faults Sample2.unsuccessful
               Sample2.failed_once Sample.retried))
       Sample.retried)
  = true.
Proof.
  assert (reaches_send Sample2.unsuccessful Sample.retried) as Hq.
  { intros _. exists Sample.unknown. split; reflexivity. }
  assert (In Sample.retried (gw_queue Sample2.failed_once)) as Hin
    by (simpl; auto).
  destruct (reply_without_success Sample.this no_faults Sample2.unsuccessful
              Sample2.failed_once Sample.retried
              eq_refl eq_refl Hq eq_refl eq_refl Hin)
    as (_ & _ & _ & _ & _ & H).
  apply (H 1); [reflexivity|]. simpl. lia.
Defined.

(** X10. A call or a USSD request is attempted once: whatever the terminal
    answers, fulfilled or rejected, the served update leaves the row
    processed with its retry counter untouched, and no snapshot selects it
    again.  When the terminal returns nothing to wait for, nothing is
    recorded at all. *)
Theorem call_attempted_once (this : Terminal.t) (f : Faults)
    (a : Term.answers) (st : Store) (q : GwQueue.t) :
  GwQueue.type q = ACTIVITY_CALL \/ GwQueue.type q = ACTIVITY_USSD ->
  (answer_for a q = None -> fst (Terminal.process f a st q) = st)
  /\ (answer_for a q <> None -> update_rejects f = false ->
      In q (gw_queue st) ->
      In (instance_after (snd (Terminal.process f a st q)) q)
         (gw_queue (fst (Terminal.process f a st q)))
      /\ GwQueue.processed (instance_after (snd (Terminal.process f a st q)) q)
         = 1
      /\ GwQueue.retry (instance_after (snd (Terminal.process f a st q)) q)
         = GwQueue.retry q
      /\ forall db,
           ~ In (instance_after (snd (Terminal.process f a st q)) q)
                (Terminal.getQueues this db)).
Proof.
  intros Ty.
  assert (Terminal.process f a st q
          = Terminal.emit
              (if GwQueue.type q =? ACTIVITY_CALL
               then Terminal.Dial q else Terminal.Ussd q)
              (Terminal.settle f st q (answer_for a q))) as E.
  { unfold Terminal.process, answer_for.
    destruct Ty as [-> | ->]; reflexivity. }
  assert ((GwQueue.type q =? ACTIVITY_SMS) = false) as NS
    by (destruct Ty as [-> | ->]; reflexivity).
  rewrite E. split.
  - intros ->. reflexivity.
  - intros Ha Hu Hin.
    assert (forall reply success,
              Terminal.updates reply q success
              = {| GwQueue.set_processed := Some 1;
                   GwQueue.set_status :=
                     if success then Some (if reply then 1 else 0) else None;
                   GwQueue.set_retry := None |}) as U.
    { intros reply success. unfold Terminal.updates.
      rewrite NS, andb_false_r. reflexivity. }
    assert (forall reply success,
              let r := Terminal.emit
                         (if GwQueue.type q =? ACTIVITY_CALL
                          then Terminal.Dial q else Terminal.Ussd q)
                         (Terminal.update f reply st q success) in
              In (instance_after (snd r) q) (gw_queue (fst r))
              /\ GwQueue.processed (instance_after (snd r) q) = 1
              /\ GwQueue.retry (instance_after (snd r) q) = GwQueue.retry q
              /\ forall db,
                   ~ In (instance_after (snd r) q) (Terminal.getQueues this db))
      as Done.
    { intros reply success. cbv zeta.
      destruct (update_served f reply st q success Hu) as [D I].
      assert (instance_after
                (snd (Terminal.emit
                        (if GwQueue.type q =? ACTIVITY_CALL
                         then Terminal.Dial q else Terminal.Ussd q)
                        (Terminal.update f reply st q success))) q
              = GwQueue.update (Terminal.updates reply q success) q) as I'.
      { rewrite <- I. unfold Terminal.emit. simpl.
        destruct (GwQueue.type q =? ACTIVITY_CALL); reflexivity. }
      rewrite I'. unfold Terminal.emit. cbn [fst]. rewrite D, U.
      split; [now apply save_In|].
      split; [reflexivity|]. split; [reflexivity|].
      apply not_selected_not_fetched.
      unfold Terminal.where_. simpl. rewrite NS. simpl.
      now rewrite !andb_false_r. }
    destruct (answer_for a q) as [[reply|]|]; [| |congruence].
    + apply (Done reply true).
    + apply (Done false false).
Qed.

Lemma call_attempted_once_witness :
  fst (Terminal.process no_faults Sample.rejecting Sample.st Sample2.call)
  = Sample.st
  /\ GwQueue.processed
       (instance_after
          (snd (Terminal.process no_faults Sample2.hanging_up Sample2.calling
                  Sample2.call))
          Sample2.call) = 1
  /\ GwQueue.retry
       (instance_after
          (snd (Terminal.process no_faults Sample2.hanging_up Sample2.calling
                  Sample2.call))
          Sample2.call) = None
  /\ In (instance_after
           (snd (Terminal.process no_faults Sample2.hanging_up Sample2.calling
                   Sample2.call))
           Sample2.call)
        (gw_queue
           (fst (Terminal.process no_faults Sample2.hanging_up Sample2.calling
                   Sample2.call))).
Proof.
  destruct (call_attempted_once Sample.this no_faults Sample.rejecting
              Sample.st Sample2.call (or_introl eq_refl)) as (H & _).
  destruct (call_attempted_once Sample.this no_faults Sample2.hanging_up
              Sample2.calling Sample2.call (or_introl eq_refl)) as (_ & K).
  assert (answer_for Sample2.hanging_up Sample2.call <> None) as Answered
    by discriminate.
  assert (In Sample2.call (gw_queue Sample2.calling)) as Held
    by (simpl; tauto).
  destruct (K Answered eq_refl Held) as (I & P & R & _).
  split; [apply H; reflexivity|].
  split; [exact P|]. split; [exact R|exact I].
Defined.

(** X11. When the status query reports a retried message as sent,
    [process] only sets [status = 1] on the row: the retry counter and
    [processed] stay as they were and the outcome log is not written, so a
    log row recorded at the failure keeps saying failed; once the database
    has taken the update the row is not selected again. *)
Theorem reconciliation_is_silent (this : Terminal.t) (f : Faults)
    (a : Term.answers) (st : Store) (q : GwQueue.t) (n : Z)
    (status : Term.reply) :
  GwQueue.type q = ACTIVITY_SMS ->
  GwQueue.retry q = Some n ->
  Term.on_query a = Fulfilled status ->
  reports_sent status q = true ->
  gw_log (fst (Terminal.process f a st q)) = gw_log st
  /\ GwQueue.retry (instance_after (snd (Terminal.process f a st q)) q) = Some n
  /\ GwQueue.processed (instance_after (snd (Terminal.process f a st q)) q)
     = GwQueue.processed q
  /\ (update_rejects f = false -> In q (gw_queue st) ->
      In (instance_after (snd (Terminal.process f a st q)) q)
         (gw_queue (fst (Terminal.process f a st q))))
  /\ (GwQueue.processed q = 1 ->
      forall db,
        ~ In (instance_after (snd (Terminal.process f a st q)) q)
             (Terminal.getQueues this db)).
Proof.
  intros Ty Hr Eq Hrep. unfold Terminal.process. rewrite Ty, Hr, Eq. simpl.
  unfold reports_sent in Hrep.
  apply andb_true_iff in Hrep. destruct Hrep as [H1 H2].
  rewrite H1, H2. simpl.
  split; [destruct (update_rejects f); reflexivity|].
  split; [exact Hr|]. split; [reflexivity|]. split.
  - intros -> Hin. simpl. now apply save_In.
  - intros Hp. apply not_selected_not_fetched.
    unfold Terminal.where_. simpl. rewrite Hp. simpl.
    now rewrite !andb_false_r.
Qed.

Lemma reconciliation_is_silent_witness :
  gw_log (fst (Terminal.process no_faults Sample.confirming Sample.st
                 Sample.retried))
  = gw_log Sample.st.
Proof.
  apply (reconciliation_is_silent Sample.this no_faults Sample.confirming
           Sample.st Sample.retried 1 Sample.sent); reflexivity.
Defined.

(** ** Fanning an inbound item out *)

Section FanOutTrace.
Variable isNaN : string -> bool.
Variable appterm : AppTerm.t.
Variable term : Term.t.

Lemma notify_trace (sockets : list Socket.t) :
  forall s,
    forEach (Activity.notify term) sockets s
    = (fst s,
       snd s ++ flat_map (fun socket => Activity.notification socket (fst s))
                  (filter (same_group term) sockets)).
Proof.
  induction sockets as [|socket sockets IH]; intros [q ev]; simpl.
  - now rewrite app_nil_r.
  - rewrite IH. unfold Activity.notify, same_group. simpl.
    destruct (loose_eq _ _); simpl; trivial.
    now rewrite <- app_assoc.
Qed.

Lemma dispatch_trace (plugins : list Plugin.t) :
  forall s,
    exists handles,
      snd (forEach (Activity.dispatch term) plugins s) = snd s ++ handles
      /\ forallb is_handle handles = true.
Proof.
  induction plugins as [|plugin plugins IH]; intros s; simpl.
  - exists []. now rewrite app_nil_r.
  - destruct (IH (fst (Activity.dispatch term plugin s))) as (hs & E & H).
    rewrite E. unfold Activity.dispatch.
    destruct (_ || _); simpl.
    + exists (Activity.Handle (Plugin.name plugin) (fst s) :: hs).
      split; [|exact H].
      destruct (GwQueue.veto _); simpl; now rewrite <- app_assoc.
    + now exists hs.
Qed.

Lemma dispatch_id (plugins : list Plugin.t) :
  (forall plugin q, In plugin plugins ->
                    GwQueue.id (Plugin.handle plugin q) = GwQueue.id q) ->
  forall s,
    GwQueue.id (fst (forEach (Activity.dispatch term) plugins s))
    = GwQueue.id (fst s).
Proof.
  induction plugins as [|plugin plugins IH]; intros K s; simpl; trivial.
  rewrite IH by (intros p q Hp; apply K; now right).
  unfold Activity.dispatch.
  destruct (_ || _); simpl; trivial.
  destruct (GwQueue.veto _); simpl; apply K; now left.
Qed.

Lemma notification_emits (socket : Socket.t) (q : GwQueue.t) :
  forallb is_emit (Activity.notification socket q) = true.
Proof.
  unfold Activity.notification.
  repeat match goal with |- context [if ?c then _ else _] => destruct c end;
    reflexivity.
Qed.

Lemma notification_incoming (socket : Socket.t) (q : GwQueue.t) :
  incoming (GwQueue.type q) ->
  notified (Activity.notification socket q) = [Socket.id socket].
Proof.
  unfold Activity.notification.
  intros [-> | [-> | ->]]; reflexivity.
Qed.

Lemma notifications_notified (sockets : list Socket.t) (q : GwQueue.t) :
  incoming (GwQueue.type q) ->
  notified (flat_map (fun socket => Activity.notification socket q) sockets)
  = map Socket.id sockets.
Proof.
  intros Ty. induction sockets as [|s l IH]; simpl; trivial.
  now rewrite notified_app, notification_incoming, IH.
Qed.

Lemma notifications_emits (sockets : list Socket.t) (q : GwQueue.t) :
  forallb is_emit
    (flat_map (fun socket => Activity.notification socket q) sockets) = true.
Proof.
  induction sockets as [|s l IH]; simpl; trivial.
  now rewrite forallb_app, notification_emits, IH.
Qed.

Lemma handles_not_notified (handles : list Activity.event) :
  forallb is_handle handles = true -> notified handles = [].
Proof.
  induction handles as [|e handles IH]; simpl; trivial.
  destruct e; simpl; try discriminate. exact IH.
Qed.

End FanOutTrace.

(** X12. When [processQueue] fans a ring, inbox or CUSD item out, the
    sockets notified are exactly the connected clients whose group is the
    group of the item's terminal, in the order of the list, each once; a
    client without group is notified only for a terminal without group.
    All notifications are emitted before the first plugin is called. *)
Theorem socket_notifications (isNaN : string -> bool) (appterm : AppTerm.t)
    (f : Faults) (db : list GwQueue.t) (q : GwQueue.t) (term : Term.t) :
  AppTerm.get appterm (GwQueue.imsi q) = Some term ->
  Activity.allowed isNaN appterm term q = true ->
  incoming (GwQueue.type q) ->
  notified (snd (Activity.processQueue isNaN appterm f db q))
  = map Socket.id (filter (same_group term) (AppTerm.gwclients appterm))
  /\ (forall socket,
        In socket (AppTerm.gwclients appterm) ->
        (In (Socket.id socket)
            (notified (snd (Activity.processQueue isNaN appterm f db q)))
         <-> exists socket',
               In socket' (AppTerm.gwclients appterm)
               /\ Socket.id socket' = Socket.id socket
               /\ Socket.group socket' = Term.group (Term.options term)))
  /\ exists emits rest,
       snd (Activity.processQueue isNaN appterm f db q) = emits ++ rest
       /\ forallb is_emit emits = true
       /\ notified rest = [].
Proof.
  intros G A Ty.
  assert (exists handles q',
            snd (Activity.processQueue isNaN appterm f db q)
            = flat_map (fun socket => Activity.notification socket q)
                (filter (same_group term) (AppTerm.gwclients appterm))
              ++ handles ++ [Activity.Update q' (outcome true); Activity.Done]
            /\ forallb is_handle handles = true) as (hs & q' & E & H).
  { unfold Activity.processQueue. rewrite G, A.
    rewrite notify_trace. cbn [fst snd app].
    destruct (dispatch_trace term (AppTerm.plugins appterm)
                (q, flat_map (fun socket => Activity.notification socket q)
                      (filter (same_group term) (AppTerm.gwclients appterm))))
      as (hs & E & H).
    exists hs. eexists. cbn [snd]. rewrite E. cbn [snd].
    rewrite <- app_assoc. split; [reflexivity|exact H]. }
  assert (notified (snd (Activity.processQueue isNaN appterm f db q))
          = map Socket.id (filter (same_group term) (AppTerm.gwclients appterm)))
    as N.
  { rewrite E, !notified_app, (handles_not_notified hs H). simpl.
    rewrite app_nil_r. now apply notifications_notified. }
  split; [exact N|]. split.
  - intros socket Hin. rewrite N, in_map_iff. split.
    + intros (s & Es & Hs). apply filter_In in Hs. destruct Hs as [Hs P].
      exists s. repeat split; trivial.
      unfold same_group in P. apply loose_eq_eq in P. now symmetry.
    + intros (s & Hs & Es & P). exists s. split; trivial.
      apply filter_In. split; trivial.
      unfold same_group. apply loose_eq_eq. now symmetry.
  - exists (flat_map (fun socket => Activity.notification socket q)
              (filter (same_group term) (AppTerm.gwclients appterm))).
    exists (hs ++ [Activity.Update q' (outcome true); Activity.Done]).
    split; [exact E|]. split.
    + apply notifications_emits.
    + rewrite notified_app, (handles_not_notified hs H). reflexivity.
Qed.

Lemma socket_notifications_witness :
  notified
    (snd (Activity.processQueue isNaN Sample.appterm no_faults
            [Sample.inbox "08123456789"] (Sample.inbox "08123456789")))
  = ["s1"%string].
Proof.
  destruct (socket_notifications isNaN Sample.appterm no_faults
              [Sample.inbox "08123456789"] (Sample.inbox "08123456789")
              Sample.term eq_refl eq_refl
              (or_intror (or_introl eq_refl))) as (H & _).
  exact H.
Defined.

(** X13. The allow test of [processQueue] by kind: a CUSD item is always
    fanned out, with any address, blacklisted or missing, since the
    address test is only made for rings and inbox messages; a ring is
    allowed exactly when its address passes, whether or not the terminal
    receives messages; an inbox message needs both a passing address and a
    terminal that receives messages, and is otherwise recorded as failed
    without any notification or plugin call. *)
Theorem allowed_by_kind (isNaN : string -> bool) (appterm : AppTerm.t)
    (term : Term.t) (q : GwQueue.t) :
  (GwQueue.type q = ACTIVITY_CUSD ->
   Activity.allowed isNaN appterm term q = true)
  /\ (GwQueue.type q = ACTIVITY_RING ->
      Activity.allowed isNaN appterm term q
      = passes isNaN appterm (GwQueue.address q))
  /\ (GwQueue.type q = ACTIVITY_INBOX ->
      Activity.allowed isNaN appterm term q
      = passes isNaN appterm (GwQueue.address q)
        && Term.receiveMessage (Term.options term))
  /\ (forall f db,
        GwQueue.type q = ACTIVITY_INBOX ->
        Term.receiveMessage (Term.options term) = false ->
        AppTerm.get appterm (GwQueue.imsi q) = Some term ->
        snd (Activity.processQueue isNaN appterm f db q)
        = [Activity.Update q (outcome false); Activity.Done]).
Proof.
  assert (GwQueue.type q = ACTIVITY_INBOX ->
          Activity.allowed isNaN appterm term q
          = passes isNaN appterm (GwQueue.address q)
            && Term.receiveMessage (Term.options term)) as Inbox.
  { intros Ty. unfold Activity.allowed, passes. rewrite Ty. simpl.
    destruct (Activity.addressAllowed isNaN appterm (GwQueue.address q))
      as [[|]|]; simpl; trivial.
    destruct (Term.receiveMessage (Term.options term)); reflexivity. }
  split; [|split; [|split]].
  - intros Ty. unfold Activity.allowed. rewrite Ty. simpl.
    now rewrite andb_false_r.
  - intros Ty. unfold Activity.allowed, passes. rewrite Ty. simpl.
    now rewrite andb_false_r.
  - exact Inbox.
  - intros f db Ty R G.
    rewrite (processQueue_refused isNaN appterm f db q term G); [reflexivity|].
    rewrite (Inbox Ty), R. apply andb_false_r.
Qed.

Lemma allowed_by_kind_witness :
  Activity.allowed isNaN Sample.appterm Sample.term
    {| GwQueue.id := 5; GwQueue.imsi := Term.name Sample.term;
       GwQueue.hash := "h5"; GwQueue.type := ACTIVITY_CUSD;
       GwQueue.address := Some "08999999999"%string; GwQueue.data := "";
       GwQueue.priority := 20; GwQueue.processed := 0; GwQueue.status := 0;
       GwQueue.retry := None; GwQueue.time := 1; GwQueue.veto := false |}
  = true.
Proof.
  apply (allowed_by_kind isNaN Sample.appterm Sample.term). reflexivity.
Defined.

(** X14. [processQueue] calls [done] exactly once, as the last thing it
    does, in every outcome: unknown terminal, refused or fanned out item,
    update taken or rejected by the database; it issues at most one update,
    and a rejected update leaves the table as it was. *)
Theorem processQueue_completes (isNaN : string -> bool) (appterm : AppTerm.t)
    (f : Faults) (db : list GwQueue.t) (q : GwQueue.t) :
  (exists before,
     snd (Activity.processQueue isNaN appterm f db q)
     = before ++ [Activity.Done]
     /\ ~ In Activity.Done before
     /\ (before = []
         \/ exists calls q' processed,
              before = calls ++ [Activity.Update q' (outcome processed)]
              /\ forallb (fun e => is_emit e || is_handle e) calls = true))
  /\ (update_rejects f = true ->
      fst (Activity.processQueue isNaN appterm f db q) = db).
Proof.
  unfold Activity.processQueue.
  destruct (AppTerm.get appterm (GwQueue.imsi q)) as [term|].
  - split.
    + destruct (Activity.allowed isNaN appterm term q).
      * rewrite notify_trace. cbn [fst snd app].
        destruct (dispatch_trace term (AppTerm.plugins appterm)
                    (q, flat_map (fun socket => Activity.notification socket q)
                          (filter (same_group term)
                             (AppTerm.gwclients appterm))))
          as (hs & E & H).
        cbn [snd] in E. cbn [snd]. rewrite E.
        set (emits := flat_map _ _) in *.
        set (q' := fst _).
        assert (forallb (fun e => is_emit e || is_handle e) (emits ++ hs)
                = true) as C.
        { rewrite forallb_app. apply andb_true_iff. split.
          - unfold emits.
            eapply forallb_forall. intros e He.
            pose proof (notifications_emits
                          (filter (same_group term) (AppTerm.gwclients appterm))
                          q) as Em.
            rewrite forallb_forall in Em. now rewrite (Em e He).
          - eapply forallb_forall. intros e He.
            rewrite forallb_forall in H. rewrite (H e He).
            apply orb_true_r. }
        exists ((emits ++ hs) ++ [Activity.Update q' (outcome true)]).
        split; [now rewrite <- !app_assoc|]. split.
        -- intros Hin. apply in_app_or in Hin. destruct Hin as [Hin|Hin].
           ++ rewrite forallb_forall in C. specialize (C _ Hin). discriminate.
           ++ destruct Hin as [Hin|[]]. discriminate.
        -- right. exists (emits ++ hs), q', true. auto.
      * exists [Activity.Update q (outcome false)]. simpl. split; trivial.
        split.
        -- intros [H|[]]. discriminate.
        -- right. exists [], q, false. auto.
    + intros ->. reflexivity.
  - split.
    + exists []. simpl. auto.
    + reflexivity.
Qed.

Lemma processQueue_completes_witness :
  fst (Activity.processQueue isNaN Sample.appterm
         {| count_rejects := false; create_rejects := false;
            update_rejects := true |}
         (gw_queue Sample.st) (Sample.inbox "08123456789"))
  = gw_queue Sample.st.
Proof.
  destruct (processQueue_completes isNaN Sample.appterm
              {| count_rejects := false; create_rejects := false;
                 update_rejects := true |}
              (gw_queue Sample.st) (Sample.inbox "08123456789")) as [_ H].
  apply H. reflexivity.
Defined.

(** X15. Once the database has taken the update of [processQueue] for an
    item of a known terminal, every row carrying the item's id is
    processed, so the activity snapshot holds no row of that id any more
    (plugins are assumed not to change the id of the instance they
    handle). *)
Theorem processed_not_reselected (isNaN : string -> bool)
    (appterm : AppTerm.t) (f : Faults) (db : list GwQueue.t) (q : GwQueue.t)
    (term : Term.t) :
  AppTerm.get appterm (GwQueue.imsi q) = Some term ->
  update_rejects f = false ->
  plugins_keep_id appterm ->
  (forall r,
     In r (fst (Activity.processQueue isNaN appterm f db q)) ->
     GwQueue.id r = GwQueue.id q -> GwQueue.processed r = 1)
  /\ (forall r,
        In r (Activity.getQueues
                (fst (Activity.processQueue isNaN appterm f db q))) ->
        GwQueue.id r <> GwQueue.id q)
  /\ List.length (fst (Activity.processQueue isNaN appterm f db q))
     = List.length db.
Proof.
  intros G Hu K.
  assert (exists u,
            fst (Activity.processQueue isNaN appterm f db q)
            = GwQueue.save (GwQueue.id q) u db
            /\ GwQueue.set_processed u = Some 1) as (u & E & P).
  { exists (outcome (Activity.allowed isNaN appterm term q)).
    split; [|reflexivity].
    unfold Activity.processQueue. rewrite G, Hu. cbn [fst].
    destruct (Activity.allowed isNaN appterm term q); [|reflexivity].
    rewrite (dispatch_id term (AppTerm.plugins appterm) K).
    rewrite notify_trace. reflexivity. }
  rewrite E.
  assert (forall r, In r (GwQueue.save (GwQueue.id q) u db) ->
                    GwQueue.id r = GwQueue.id q -> GwQueue.processed r = 1)
    as All.
  { intros r Hin Hid. unfold GwQueue.save in Hin.
    apply in_map_iff in Hin. destruct Hin as (r0 & Er & _).
    destruct (Z.eqb_spec (GwQueue.id r0) (GwQueue.id q)) as [I|I].
    - subst r. simpl. now rewrite P.
    - subst r. contradiction. }
  split; [exact All|]. split.
  - intros r Hin Hid. apply activity_getQueues_In in Hin.
    destruct Hin as [Hin [Hp _]].
    rewrite (All r Hin Hid) in Hp. discriminate.
  - unfold GwQueue.save. apply length_map.
Qed.

Lemma processed_not_reselected_witness :
  forallb (fun r => GwQueue.processed r =? 1)
    (fst (Activity.processQueue isNaN Sample.appterm no_faults
            [Sample.inbox "08123456789"] (Sample.inbox "08123456789")))
  = true.
Proof.
  assert (plugins_keep_id Sample.appterm) as K.
  { intros plugin q [<-|[<-|[<-|[]]]]; reflexivity. }
  destruct (processed_not_reselected isNaN Sample.appterm no_faults
              [Sample.inbox "08123456789"] (Sample.inbox "08123456789")
              Sample.term eq_refl eq_refl K) as (H & _).
  apply forallb_forall. intros r Hin. apply Z.eqb_eq. apply H; trivial.
  destruct Hin as [<-|[]]. reflexivity.
Defined.

(** ** Nobody, or only one, to take the activity *)

(** X16. [add] hands the activity to nobody exactly when no terminal of
    the host is eligible, for instance when none is connected; with a
    single eligible terminal that one gets it whatever the random draw, and
    an empty group string filters like no group at all. *)
Theorem add_without_choice (appterm : AppTerm.t) (data : Queue.t)
    (group : option string) :
  (forall random,
     Activity.add appterm random data group = Activity.NoTerminal
     <-> forall term,
           In term (AppTerm.terminals appterm) ->
           ~ eligible appterm (Queue.type data) (Queue.address data) group term)
  /\ ((forall term, In term (AppTerm.terminals appterm) ->
                    Term.connected term = false) ->
      forall random,
        Activity.add appterm random data group = Activity.NoTerminal)
  /\ (forall term random,
        Activity.getTerminal appterm (Queue.type data) (Queue.address data)
          group = [term] ->
        Activity.add appterm random data group = Activity.AddQueue term data)
  /\ Activity.getTerminal appterm (Queue.type data) (Queue.address data)
       (Some ""%string)
     = Activity.getTerminal appterm (Queue.type data) (Queue.address data)
         None.
Proof.
  assert (forall random,
            Activity.add appterm random data group = Activity.NoTerminal
            <-> forall term,
                  In term (AppTerm.terminals appterm) ->
                  ~ eligible appterm (Queue.type data) (Queue.address data)
                      group term) as First.
  { intros random. unfold Activity.add.
    remember (Activity.getTerminal appterm (Queue.type data)
                (Queue.address data) group) as ts eqn:Ets.
    assert (forall term,
              In term ts
              <-> In term (AppTerm.terminals appterm)
                  /\ eligible appterm (Queue.type data) (Queue.address data)
                       group term) as M.
    { intros term. rewrite Ets. unfold Activity.getTerminal.
      now rewrite filter_In, pushed_eligible. }
    destruct ts as [|t ts].
    - simpl. split; trivial.
      intros _ term Hin He. apply (proj2 (M term)). auto.
    - split.
      + cbn [List.length Nat.eqb].
        destruct (Activity.at_index _ _); discriminate.
      + intros H. exfalso.
        destruct (proj1 (M t) (or_introl eq_refl)) as [Hin He].
        exact (H t Hin He). }
  split; [exact First|]. split; [|split].
  - intros Hc random. apply First. intros term Hin [Hcon _].
    rewrite (Hc term Hin) in Hcon. discriminate.
  - intros term random E. now apply add_one.
  - reflexivity.
Qed.

Lemma add_without_choice_witness :
  Activity.add Sample.appterm (1 # 2) Sample.sms (Some "H"%string)
  = Activity.NoTerminal.
Proof.
  destruct (add_without_choice Sample.appterm Sample.sms (Some "H"%string))
    as (H & _).
  apply H. intros term Hin (_ & Hg & _).
  assert (given (Some "H"%string)) as Gv.
  { exists "H"%string. split; [reflexivity|discriminate]. }
  specialize (Hg Gv).
  destruct Hin as [<-|[<-|[<-|[]]]]; discriminate.
Defined.

(** ** The loop of the activity dispatcher *)

Section Loop.
Variable appterm : AppTerm.t.

Lemma process_flight (a : ActivityLoop.t) :
  single_flight a -> single_flight (ActivityLoop.process a).
Proof.
  intros (I1 & I2 & I3 & I4 & I5). unfold ActivityLoop.process.
  destruct (negb (Nat.eqb (List.length (Dispatcher.queues (ActivityLoop.base a))) 0)
            && negb (ActivityLoop.processing a)) eqn:C.
  - apply andb_true_iff in C. destruct C as [_ C].
    apply negb_true_iff in C. destruct (I3 C) as (T & H & L).
    assert (single_flight
              {| ActivityLoop.base := ActivityLoop.base a;
                 ActivityLoop.processing := true;
                 ActivityLoop.timeout := ActivityLoop.timeout a;
                 ActivityLoop.ticks := S (ActivityLoop.ticks a);
                 ActivityLoop.listeners := S (ActivityLoop.listeners a);
                 ActivityLoop.handling := ActivityLoop.handling a |}) as S1.
    { unfold single_flight. simpl. rewrite T, H, L. simpl.
      repeat split; try lia; try discriminate; congruence. }
    destruct S1 as (S1 & S2 & S3 & S4 & S5).
    cbv zeta. cbn [ActivityLoop.base ActivityLoop.timeout].
    destruct (Nat.eqb _ 0); [|same_flight].
    destruct (negb (ActivityLoop.timeout a)); same_flight.
  - cbv zeta.
    destruct (Nat.eqb _ 0); [|same_flight].
    destruct (negb (ActivityLoop.timeout a)); same_flight.
Qed.

Lemma check_flight (now : Z) (a : ActivityLoop.t) :
  single_flight a -> single_flight (ActivityLoop.check appterm now a).
Proof.
  intros H. unfold ActivityLoop.check.
  destruct (negb _); trivial.
  destruct (_ && _); trivial.
  apply process_flight. exact H.
Qed.

Lemma step_flight (e : ActivityLoop.turn) (a a' : ActivityLoop.t) :
  single_flight a -> ActivityLoop.step appterm e a = Some a' ->
  single_flight a'.
Proof.
  intros (I1 & I2 & I3 & I4 & I5) E.
  destruct e as [now|results now| |now|now]; simpl in E.
  - injection E as <-. apply check_flight. same_flight.
  - destruct (Nat.eqb _ 0); [discriminate|]. injection E as <-.
    apply check_flight. same_flight.
  - destruct (Nat.eqb_spec (ActivityLoop.ticks a) 0) as [T|T]; [discriminate|].
    injection E as <-.
    assert (ActivityLoop.ticks a = 1%nat) as T1 by lia.
    assert (ActivityLoop.handling a = []) as H0.
    { destruct (ActivityLoop.handling a); trivial. simpl in I1. lia. }
    assert (ActivityLoop.processing a = true) as P.
    { destruct (ActivityLoop.processing a) eqn:P; trivial.
      destruct (I3 eq_refl) as (T0 & _). lia. }
    unfold ActivityLoop.tick.
    destruct (Dispatcher.queues (ActivityLoop.base a)) as [|q rest];
      unfold single_flight; simpl; rewrite ?T1, ?H0, ?(I4 T1), ?P; simpl;
      repeat split; try lia; try discriminate; try congruence.
  - destruct (ActivityLoop.handling a) as [|q rest] eqn:H; [discriminate|].
    injection E as <-.
    assert (rest = []) as ->.
    { destruct rest; trivial. simpl in I1. lia. }
    assert (ActivityLoop.ticks a = 0%nat) as T by (simpl in I1; lia).
    assert (ActivityLoop.listeners a = 0%nat) as L by (apply I5; discriminate).
    apply check_flight. unfold single_flight. simpl. rewrite H, T, L. simpl.
    repeat split; try lia; try discriminate; congruence.
  - destruct (ActivityLoop.timeout a); [|discriminate]. injection E as <-.
    apply check_flight. same_flight.
Qed.

Lemma run_flight (turns : list ActivityLoop.turn) :
  forall a a',
    single_flight a -> ActivityLoop.run appterm turns a = Some a' ->
    single_flight a'.
Proof.
  induction turns as [|e turns IH]; intros a a' H E; simpl in E.
  - now injection E as <-.
  - destruct (ActivityLoop.step appterm e a) as [a1|] eqn:S; [|discriminate].
    apply (IH a1); trivial. now apply (step_flight e a).
Qed.

Lemma new_flight (now : Z) : single_flight (ActivityLoop.new now).
Proof.
  unfold single_flight. simpl. repeat split; try lia; try discriminate;
    congruence.
Qed.

Lemma process_stuck (a : ActivityLoop.t) :
  stuck a -> stuck (ActivityLoop.process a)
             /\ ActivityLoop.base (ActivityLoop.process a) = ActivityLoop.base a.
Proof.
  intros (P & T & H). unfold ActivityLoop.process. rewrite P, andb_false_r.
  cbv zeta. destruct (Nat.eqb _ 0); [|split; [same_flight|reflexivity]].
  destruct (negb (ActivityLoop.timeout a)); (split; [same_flight|reflexivity]).
Qed.

Lemma check_stuck (now : Z) (a : ActivityLoop.t) :
  stuck a -> stuck (ActivityLoop.check appterm now a).
Proof.
  intros H. unfold ActivityLoop.check.
  destruct (negb _); trivial.
  destruct (_ && _); trivial.
  apply process_stuck. exact H.
Qed.

Lemma step_stuck (e : ActivityLoop.turn) (a a' : ActivityLoop.t) :
  stuck a -> ActivityLoop.step appterm e a = Some a' ->
  stuck a' /\ e <> ActivityLoop.Tick /\ forall now, e <> ActivityLoop.Done now.
Proof.
  intros (P & T & H) E.
  destruct e as [now|results now| |now|now]; simpl in E.
  - injection E as <-. split; [|split; [discriminate|discriminate]].
    apply check_stuck. same_flight.
  - destruct (Nat.eqb _ 0); [discriminate|]. injection E as <-.
    split; [|split; [discriminate|discriminate]].
    apply check_stuck. same_flight.
  - rewrite T in E. discriminate.
  - rewrite H in E. discriminate.
  - destruct (ActivityLoop.timeout a); [|discriminate]. injection E as <-.
    split; [|split; [discriminate|discriminate]].
    apply check_stuck. same_flight.
Qed.

End Loop.

(** X17. The activity dispatcher handles one inbound item at a time: in
    every state it reaches from its creation, by reload signals, answers
    to its fetches, ticks, completions and timers in any order, at most one
    item is scheduled to be popped or given to [processQueue] and not yet
    done, at most one handler waits for it, and nothing is scheduled or in
    flight while [processing] is false. *)
Theorem one_item_in_flight (appterm : AppTerm.t) (now : Z)
    (turns : list ActivityLoop.turn) (a : ActivityLoop.t) :
  ActivityLoop.run appterm turns (ActivityLoop.new now) = Some a ->
  (ActivityLoop.ticks a + List.length (ActivityLoop.handling a) <= 1)%nat
  /\ (ActivityLoop.listeners a <= 1)%nat
  /\ (ActivityLoop.processing a = false ->
      ActivityLoop.ticks a = 0%nat /\ ActivityLoop.handling a = []
      /\ ActivityLoop.listeners a = 0%nat).
Proof.
  intros E.
  destruct (run_flight appterm turns _ _ (new_flight now) E)
    as (I1 & I2 & I3 & _).
  auto.
Qed.

Lemma one_item_in_flight_witness :
  exists a,
    ActivityLoop.run Sample.appterm
      [ActivityLoop.Reload 1;
       ActivityLoop.Loaded [Sample.inbox "08123456789"; Sample.inbox "123"] 2;
       ActivityLoop.Tick]
      (ActivityLoop.new 0)
    = Some a
    /\ (ActivityLoop.ticks a + List.length (ActivityLoop.handling a) <= 1)%nat.
Proof.
  eexists. split; [reflexivity|].
  eapply (one_item_in_flight Sample.appterm 0
            [ActivityLoop.Reload 1;
             ActivityLoop.Loaded
               [Sample.inbox "08123456789"; Sample.inbox "123"] 2;
             ActivityLoop.Tick]).
  reflexivity.
Defined.

(** X18. A tick that finds the snapshot empty, because a reload signal
    emptied it after [process] had scheduled the tick, leaves [processing]
    set with nothing scheduled; from such a state no tick and no [done]
    ever runs again, whatever reload signals, fetch answers and timers
    follow: no further item is handed to [processQueue]. *)
Theorem empty_tick_stalls (appterm : AppTerm.t) (a : ActivityLoop.t) :
  (ActivityLoop.processing a = true -> ActivityLoop.ticks a = 1%nat ->
   ActivityLoop.handling a = [] ->
   Dispatcher.queues (ActivityLoop.base a) = [] ->
   stuck (ActivityLoop.tick a))
  /\ (stuck a ->
      forall turns a',
        ActivityLoop.run appterm turns a = Some a' ->
        stuck a'
        /\ ~ In ActivityLoop.Tick turns
        /\ forall now, ~ In (ActivityLoop.Done now) turns).
Proof.
  split.
  - intros P T H Q. unfold ActivityLoop.tick. rewrite Q.
    unfold stuck. simpl. rewrite T. auto.
  - intros S turns. revert a S.
    induction turns as [|e turns IH]; intros a S a' E; simpl in E.
    + injection E as <-. split; [exact S|]. split; [intros []|intros now []].
    + destruct (ActivityLoop.step appterm e a) as [a1|] eqn:St; [|discriminate].
      destruct (step_stuck appterm e a a1 S St) as (S1 & N1 & N2).
      destruct (IH a1 S1 a' E) as (S' & T' & D').
      split; [exact S'|]. split.
      * intros [Hin|Hin]; [congruence|contradiction].
      * intros now [Hin|Hin]; [exact (N2 now Hin)|exact (D' now Hin)].
Qed.

Lemma empty_tick_stalls_witness :
  exists a,
    ActivityLoop.run Sample.appterm
      [ActivityLoop.Reload 1;
       ActivityLoop.Loaded [Sample.inbox "08123456789"] 2;
       ActivityLoop.Reload 3;
       ActivityLoop.Tick;
       ActivityLoop.Loaded [Sample.inbox "08123456789"] 4]
      (ActivityLoop.new 0)
    = Some a
    /\ stuck a
    /\ Dispatcher.queues (ActivityLoop.base a) = [Sample.inbox "08123456789"].
Proof.
  eexists. split; [reflexivity|]. split; [|reflexivity].
  destruct (empty_tick_stalls Sample.appterm
              (ActivityLoop.tick
                 (ActivityLoop.reload Sample.appterm 3
                    (ActivityLoop.loaded Sample.appterm
                       [Sample.inbox "08123456789"] 2
                       (ActivityLoop.reload Sample.appterm 1
                          (ActivityLoop.new 0)))))) as (_ & H).
  apply (H ltac:(repeat split)
           [ActivityLoop.Loaded [Sample.inbox "08123456789"] 4]).
  reflexivity.
Defined.

(** X19. [process] never leaves the dispatcher idle: after it, a
    non-empty snapshot has [processing] set and an empty one has the
    reload timer armed; and without a terminal, or without any client and
    plugin, [check] does nothing at all, so reload signals are only
    counted: no fetch is started and no timer armed. *)
Theorem check_and_process (appterm : AppTerm.t) (now : Z)
    (a : ActivityLoop.t) :
  (Dispatcher.queues (ActivityLoop.base a) <> [] ->
   ActivityLoop.processing (ActivityLoop.process a) = true)
  /\ (Dispatcher.queues (ActivityLoop.base a) = [] ->
      ActivityLoop.timeout (ActivityLoop.process a) = true)
  /\ ActivityLoop.base (ActivityLoop.process a) = ActivityLoop.base a
  /\ (no_consumer appterm ->
      ActivityLoop.check appterm now a = a
      /\ ActivityLoop.reload appterm now a
         = ActivityLoop.with_base (Dispatcher.tick (ActivityLoop.base a)) a).
Proof.
  split; [|split; [|split]].
  - intros Q. unfold ActivityLoop.process.
    destruct (Dispatcher.queues (ActivityLoop.base a)) as [|q rest] eqn:E;
      [congruence|].
    destruct (ActivityLoop.processing a) eqn:P; simpl; rewrite E; simpl; trivial.
  - intros Q. unfold ActivityLoop.process. rewrite Q.
    cbn [List.length Nat.eqb negb andb]. cbv zeta. rewrite Q.
    cbn [List.length Nat.eqb].
    destruct (ActivityLoop.timeout a) eqn:T; simpl; [exact T|reflexivity].
  - unfold ActivityLoop.process.
    destruct (_ && _); cbv zeta; simpl;
      destruct (Nat.eqb _ 0); trivial;
      destruct (negb _); reflexivity.
  - intros N.
    assert (forall a0, ActivityLoop.check appterm now a0 = a0) as C.
    { intros a0. unfold ActivityLoop.check.
      destruct N as [-> | [-> ->]]; simpl; trivial.
      destruct (negb _); reflexivity. }
    split; [apply C|]. unfold ActivityLoop.reload. apply C.
Qed.

Lemma check_and_process_witness :
  ActivityLoop.reload Sample2.nobody 1 (ActivityLoop.new 0)
  = ActivityLoop.with_base
      (Dispatcher.tick (ActivityLoop.base (ActivityLoop.new 0)))
      (ActivityLoop.new 0).
Proof.
  destruct (check_and_process Sample2.nobody 1 (ActivityLoop.new 0))
    as (_ & _ & _ & H).
  apply H. left. reflexivity.
Defined.

(** ** The prepaid plugin *)

Lemma substring_append (n : nat) :
  forall m rest : string,
    (n <= String.length m)%nat ->
    String.substring 0 n (m ++ rest)%string = String.substring 0 n m.
Proof.
  induction n as [|n IH]; intros m rest H.
  - destruct m; destruct rest; reflexivity.
  - destruct m as [|c m]; simpl in H; [lia|].
    simpl. f_equal. apply IH. lia.
Qed.

Lemma monthIndex_range_go (k : string) (l : list (list string * Z)) :
  forall res,
    0 <= res <= 12 ->
    (forall e, In e l -> 0 <= snd e <= 11) ->
    0 <= forEach
           (fun (entry : list string * Z) (res : Z) =>
              if includes k (fst entry) then (snd entry + 1, true)
              else (res, false)) l res <= 12.
Proof.
  induction l as [|e l IH]; intros res Hr Hl; simpl; trivial.
  apply IH.
  - destruct (includes k (fst e)); simpl; trivial.
    specialize (Hl e (or_introl eq_refl)). lia.
  - intros e' He'. apply Hl. now right.
Qed.

Lemma monthIndex_unknown_go (k : string) (l : list (list string * Z)) :
  forall res,
    (forall e, In e l -> ~ In k (fst e)) ->
    forEach
      (fun (entry : list string * Z) (res : Z) =>
         if includes k (fst entry) then (snd entry + 1, true)
         else (res, false)) l res = res.
Proof.
  induction l as [|e l IH]; intros res Hl; simpl; trivial.
  destruct (includes k (fst e)) eqn:I.
  - apply includes_In in I. elim (Hl e (or_introl eq_refl) I).
  - simpl. apply IH. intros e' He'. apply Hl. now right.
Qed.

(** X20. [monthIndex] gives the number, from 1 to 12, of the month whose
    Indonesian or English three-letter abbreviation starts the string, in
    any letter case and whatever follows the first three characters, and 0
    for a missing or empty string or when the first three characters are no
    such abbreviation. *)
Theorem monthIndex_spec (month : string) :
  0 <= PrepaidPlugin.monthIndex (Some month) <= 12
  /\ (forall i names,
        nth_error PrepaidPlugin.months i = Some names ->
        In (PrepaidPlugin.toLowerCase (String.substring 0 3 month)) names ->
        PrepaidPlugin.monthIndex (Some month) = Z.of_nat i + 1)
  /\ ((forall names,
         In names PrepaidPlugin.months ->
         ~ In (PrepaidPlugin.toLowerCase (String.substring 0 3 month)) names) ->
      PrepaidPlugin.monthIndex (Some month) = 0)
  /\ (forall rest,
        (3 <= String.length month)%nat ->
        PrepaidPlugin.monthIndex (Some (month ++ rest)%string)
        = PrepaidPlugin.monthIndex (Some month))
  /\ PrepaidPlugin.monthIndex (Some ""%string) = 0
  /\ PrepaidPlugin.monthIndex None = 0.
Proof.
  split; [|split; [|split; [|split; [|split]]]]; try reflexivity.
  - unfold PrepaidPlugin.monthIndex.
    destruct (truthy_string month); [|lia].
    apply monthIndex_range_go; [lia|].
    intros e He. vm_compute in He.
    repeat (destruct He as [<-|He]; [simpl; lia|]). contradiction.
  - intros i names Hn Hin.
    assert (truthy_string month = true) as T.
    { destruct month as [|c m]; [|reflexivity].
      exfalso. simpl in Hin.
      do 12 (destruct i as [|i];
             [injection Hn as <-; simpl in Hin; intuition discriminate|]).
      destruct i; discriminate. }
    unfold PrepaidPlugin.monthIndex. rewrite T. cbv zeta.
    remember (PrepaidPlugin.toLowerCase (String.substring 0 3 month)) as k
      eqn:Hk.
    clear Hk T.
    do 12 (destruct i as [|i];
           [injection Hn as <-; simpl in Hin;
            repeat (destruct Hin as [<-|Hin]; [reflexivity|]);
            contradiction|]).
    destruct i; discriminate.
  - intros H. unfold PrepaidPlugin.monthIndex.
    destruct (truthy_string month); [|reflexivity].
    apply monthIndex_unknown_go.
    intros [names i] He. apply H.
    unfold PrepaidPlugin.indexed in He. apply in_combine_l in He. exact He.
  - intros rest H. unfold PrepaidPlugin.monthIndex.
    rewrite substring_append by exact H.
    destruct month as [|c m]; [simpl in H; lia|]. reflexivity.
Qed.

Lemma monthIndex_spec_witness :
  PrepaidPlugin.monthIndex (Some "Agustus"%string) = 8.
Proof.
  destruct (monthIndex_spec "Agustus") as (_ & H & _).
  apply (H 7%nat ["agu"; "aug"]%string).
  - reflexivity.
  - left. reflexivity.
Defined.

(** X21. The balance check and the handler of the prepaid plugin agree:
    when [check] succeeds for an imsi it asks the terminal for one USSD
    code, and [handle] parses a CUSD item of that imsi exactly when its
    address is that code, with the same entry of the prepaid data; when
    [check] fails for an imsi it asks for nothing and no item of that imsi
    is ever parsed; items of other kinds are never parsed. *)
Theorem check_then_handle (this : PrepaidPlugin.t) (imsi : string) :
  (forall term code,
     PrepaidPlugin.check this imsi
     = (true, [PrepaidPlugin.AddUssdQueue term code]) ->
     forall queue,
       GwQueue.type queue = ACTIVITY_CUSD -> GwQueue.imsi queue = imsi ->
       (GwQueue.address queue = Some code ->
        exists d,
          PrepaidPlugin.handle this queue = [PrepaidPlugin.Parse queue d]
          /\ PrepaidPlugin.ussd d = code
          /\ PrepaidPlugin.entry this term imsi = Some d)
       /\ (GwQueue.address queue <> Some code ->
           PrepaidPlugin.handle this queue = []))
  /\ (fst (PrepaidPlugin.check this imsi) = false ->
      snd (PrepaidPlugin.check this imsi) = []
      /\ forall queue,
           GwQueue.imsi queue = imsi -> PrepaidPlugin.handle this queue = [])
  /\ (forall queue,
        GwQueue.type queue <> ACTIVITY_CUSD ->
        PrepaidPlugin.handle this queue = []).
Proof.
  split; [|split].
  - intros term code E queue Ty Him.
    unfold PrepaidPlugin.check in E. unfold PrepaidPlugin.handle.
    rewrite Ty, Him. simpl.
    destruct (AppTerm.get (PrepaidPlugin.appterm this) imsi) as [t|];
      [|discriminate].
    destruct (PrepaidPlugin.entry this t imsi) as [d|] eqn:En; [|discriminate].
    injection E as <- <-. split.
    + intros ->. rewrite String.eqb_refl. exists d. auto.
    + intros N. destruct (GwQueue.address queue) as [a|]; trivial.
      destruct (String.eqb_spec (PrepaidPlugin.ussd d) a) as [Ea|Ea]; trivial.
      congruence.
  - unfold PrepaidPlugin.check, PrepaidPlugin.handle. intros F.
    destruct (AppTerm.get (PrepaidPlugin.appterm this) imsi) as [t|] eqn:G.
    + destruct (PrepaidPlugin.entry this t imsi) as [d|] eqn:En;
        [discriminate|].
      split; trivial. intros queue ->. rewrite G, En.
      destruct (_ =? _); reflexivity.
    + split; trivial. intros queue ->. rewrite G.
      destruct (_ =? _); reflexivity.
  - intros queue Ty. unfold PrepaidPlugin.handle.
    destruct (Z.eqb_spec (GwQueue.type queue) ACTIVITY_CUSD); [contradiction|].
    reflexivity.
Qed.

Lemma check_then_handle_witness :
  PrepaidPlugin.handle Sample2.plugin Sample2.cusd
  = [PrepaidPlugin.Parse Sample2.cusd Sample2.balance].
Proof.
  destruct (check_then_handle Sample2.plugin (Term.name Sample.term))
    as (H & _).
  destruct (H Sample.term "*888#"%string eq_refl Sample2.cusd eq_refl eq_refl)
    as (P & _).
  destruct (P eq_refl) as (d & E & _ & En).
  rewrite E. injection En as <-. reflexivity.
Defined.

(** ** Delivery reports *)

Lemma condition_reported (origin : string) (report : Report.t)
    (r : GwLogRow.t) :
  AppStorageReports.condition origin report r = true
  <-> reported origin report r.
Proof.
  unfold AppStorageReports.condition, reported.
  rewrite !andb_true_iff, !String.eqb_eq, Z.eqb_eq. tauto.
Qed.

Lemma two_members {A : Type} (l : list A) (x y : A) :
  In x l -> In y l -> x <> y -> (2 <= List.length l)%nat.
Proof.
  destruct l as [|a [|b l]]; simpl; intros Hx Hy N.
  - contradiction.
  - destruct Hx as [<-|[]], Hy as [<-|[]]. contradiction.
  - lia.
Qed.

Lemma find_filter {A : Type} (p : A -> bool) (l : list A) (x : A) :
  filter p l = [x] -> find p l = Some x.
Proof.
  induction l as [|a l IH]; simpl; [discriminate|].
  destruct (p a); [now intros [= ->]|exact IH].
Qed.

Lemma unique_id_log (lg : list GwLogRow.t) (x y : GwLogRow.t) :
  NoDup (map (fun r => GwLog.id (GwLogRow.log r)) lg) ->
  In x lg -> In y lg ->
  GwLog.id (GwLogRow.log x) = GwLog.id (GwLogRow.log y) -> x = y.
Proof.
  induction lg as [|a lg IH]; simpl; intros N Hx Hy E; [contradiction|].
  inversion N as [|? ? Na Nl]; subst.
  destruct Hx as [<-|Hx], Hy as [<-|Hy]; trivial.
  - elim Na. rewrite E. now apply (in_map (fun r => GwLog.id (GwLogRow.log r))).
  - elim Na. rewrite <- E.
    now apply (in_map (fun r => GwLog.id (GwLogRow.log r))).
  - now apply IH.
Qed.

Lemma single_filter {A : Type} (p : A -> bool) (l : list A) (x : A) :
  NoDup l -> In x l -> p x = true ->
  (forall y, In y l -> p y = true -> y = x) ->
  filter p l = [x].
Proof.
  induction l as [|a l IH]; simpl; intros N Hx Px U; [contradiction|].
  inversion N as [|? ? Na Nl]; subst.
  destruct Hx as [->|Hx].
  - rewrite Px. f_equal.
    apply filter_nil_iff. intros y Hy.
    destruct (p y) eqn:Py; trivial.
    elim Na. rewrite <- (U y (or_intror Hy) Py). exact Hy.
  - destruct (p a) eqn:Pa.
    + elim Na. rewrite (U a (or_introl eq_refl) Pa). exact Hx.
    + apply IH; trivial. intros y Hy. apply U. now right.
Qed.

(** X22. [updateReport] never adds or removes a log row and never changes
    what [saveLog] wrote.  With no log row of the message, or with more
    than one, it changes nothing and does not call [done]; with exactly one
    (log ids being unique) and a database that serves it, [done] is called
    once, with that row carrying the code, the sent time and the received
    time of the report, that row is in the log, every other row is kept,
    and reporting the same again changes nothing more. *)
Theorem updateReport_patches (f : Faults) (find_rejects : bool)
    (lg : list GwLogRow.t) (origin : string) (report : Report.t) :
  map GwLogRow.log
    (fst (AppStorageReports.updateReport f find_rejects lg origin report))
  = map GwLogRow.log lg
  /\ ((forall r, In r lg -> ~ reported origin report r) ->
      AppStorageReports.updateReport f find_rejects lg origin report = (lg, []))
  /\ (forall x y,
        In x lg -> In y lg -> x <> y ->
        reported origin report x -> reported origin report y ->
        AppStorageReports.updateReport f find_rejects lg origin report
        = (lg, []))
  /\ (forall x,
        served f -> find_rejects = false ->
        NoDup (map (fun r => GwLog.id (GwLogRow.log r)) lg) ->
        In x lg -> reported origin report x ->
        (forall y, In y lg -> reported origin report y -> y = x) ->
        (exists row,
           snd (AppStorageReports.updateReport f find_rejects lg origin report)
           = [row]
           /\ GwLogRow.log row = GwLogRow.log x
           /\ GwLogRow.code row = Some (Report.code report)
           /\ GwLogRow.sent row = Some (Report.sent report)
           /\ GwLogRow.received row = Some (Report.received report)
           /\ In row
                 (fst (AppStorageReports.updateReport f find_rejects lg origin
                         report)))
        /\ (forall y, In y lg -> y <> x ->
                      In y (fst (AppStorageReports.updateReport f find_rejects
                                   lg origin report)))
        /\ (forall f' find_rejects',
              fst (AppStorageReports.updateReport f' find_rejects'
                     (fst (AppStorageReports.updateReport f find_rejects lg
                             origin report))
                     origin report)
              = fst (AppStorageReports.updateReport f find_rejects lg origin
                       report))).
Proof.
  split; [|split; [|split]].
  - unfold AppStorageReports.updateReport.
    destruct (count_rejects f); trivial.
    destruct (_ =? 1); trivial.
    destruct find_rejects; trivial.
    destruct (find _ lg) as [row|]; trivial.
    destruct (update_rejects f); trivial.
    simpl. rewrite map_map. apply map_ext.
    intros r. destruct (_ =? _); reflexivity.
  - intros H. unfold AppStorageReports.updateReport.
    destruct (count_rejects f); trivial.
    replace (filter (AppStorageReports.condition origin report) lg)
      with (@nil GwLogRow.t); [reflexivity|].
    symmetry. apply filter_nil_iff. intros r Hr.
    destruct (AppStorageReports.condition origin report r) eqn:C; trivial.
    apply condition_reported in C. elim (H r Hr C).
  - intros x y Hx Hy N Rx Ry. unfold AppStorageReports.updateReport.
    destruct (count_rejects f); trivial.
    assert (2 <= List.length
                   (filter (AppStorageReports.condition origin report) lg))%nat
      as L.
    { apply (two_members _ x y); trivial;
        apply filter_In; split; trivial; now apply condition_reported. }
    destruct (Z.eqb_spec
                (Z.of_nat
                   (List.length
                      (filter (AppStorageReports.condition origin report) lg)))
                1); [lia|reflexivity].
  - intros x (Hc & _ & Hu) -> Nid Hx Rx U.
    assert (NoDup lg) as Nl by (eapply NoDup_map_inv; exact Nid).
    assert (filter (AppStorageReports.condition origin report) lg = [x]) as F.
    { apply single_filter; trivial.
      - now apply condition_reported.
      - intros y Hy Cy. apply U; trivial. now apply condition_reported. }
    assert (forall l,
              NoDup (map (fun r => GwLog.id (GwLogRow.log r)) l) ->
              In x l ->
              map (fun r =>
                     if GwLog.id (GwLogRow.log r) =? GwLog.id (GwLogRow.log x)
                     then AppStorageReports.patched report r else r) l
              = map (fun r => if GwLog.id (GwLogRow.log r)
                                 =? GwLog.id (GwLogRow.log x)
                              then AppStorageReports.patched report x else r) l)
      as Same.
    { intros l N Hin. apply map_ext_in. intros r Hr.
      destruct (Z.eqb_spec (GwLog.id (GwLogRow.log r))
                  (GwLog.id (GwLogRow.log x))) as [E|E]; trivial.
      now rewrite (unique_id_log l r x N Hr Hin E). }
    assert (AppStorageReports.updateReport f false lg origin report
            = (map (fun r =>
                      if GwLog.id (GwLogRow.log r) =? GwLog.id (GwLogRow.log x)
                      then AppStorageReports.patched report r else r) lg,
               [AppStorageReports.patched report x])) as E.
    { unfold AppStorageReports.updateReport.
      rewrite Hc, F, (find_filter _ _ _ F), Hu. reflexivity. }
    rewrite E. cbn [fst snd].
    split; [|split].
    + exists (AppStorageReports.patched report x).
      repeat (split; [reflexivity|]).
      apply in_map_iff. exists x. split; trivial. now rewrite Z.eqb_refl.
    + intros y Hy Ny. apply in_map_iff. exists y. split; trivial.
      destruct (Z.eqb_spec (GwLog.id (GwLogRow.log y))
                  (GwLog.id (GwLogRow.log x))) as [Ei|Ei]; trivial.
      elim Ny. now apply (unique_id_log lg).
    + intros f' fr'.
      set (lg' := map _ lg).
      unfold AppStorageReports.updateReport.
      destruct (count_rejects f'); trivial.
      destruct (_ =? 1); trivial.
      destruct fr'; trivial.
      destruct (find _ lg') as [row|] eqn:Fd; trivial.
      destruct (update_rejects f'); trivial.
      cbn [fst].
      apply find_some in Fd. destruct Fd as [Hrow Crow].
      unfold lg' in Hrow. apply in_map_iff in Hrow.
      destruct Hrow as (r0 & Er0 & Hr0).
      assert (r0 = x) as ->.
      { apply U; trivial. apply condition_reported.
        destruct (Z.eqb_spec (GwLog.id (GwLogRow.log r0))
                    (GwLog.id (GwLogRow.log x))); subst row; exact Crow. }
      rewrite Z.eqb_refl in Er0. subst row.
      unfold lg'. rewrite map_map. apply map_ext. intros r. simpl.
      destruct (Z.eqb_spec (GwLog.id (GwLogRow.log r))
                  (GwLog.id (GwLogRow.log x))) as [Ei|Ei]; simpl.
      * rewrite Ei, Z.eqb_refl. reflexivity.
      * destruct (Z.eqb_spec (GwLog.id (GwLogRow.log r))
                    (GwLog.id (GwLogRow.log x))); [contradiction|reflexivity].
Qed.

Lemma updateReport_patches_witness :
  exists row,
    snd (AppStorageReports.updateReport no_faults false [Sample2.delivered]
           (Term.name Sample.term) Sample2.delivery)
    = [row]
    /\ GwLogRow.code row = Some 0
    /\ GwLogRow.sent row = Some 7
    /\ GwLogRow.received row = Some 9.
Proof.
  destruct (updateReport_patches no_faults false [Sample2.delivered]
              (Term.name Sample.term) Sample2.delivery) as (_ & _ & _ & H).
  assert (served no_faults) as Serving by (repeat split).
  assert (NoDup (map (fun r => GwLog.id (GwLogRow.log r)) [Sample2.delivered]))
    as Ids by (repeat constructor; intros []).
  assert (In Sample2.delivered [Sample2.delivered]) as Held by now left.
  assert (reported (Term.name Sample.term) Sample2.delivery Sample2.delivered)
    as Rep by (repeat split).
  assert (forall y,
            In y [Sample2.delivered] ->
            reported (Term.name Sample.term) Sample2.delivery y ->
            y = Sample2.delivered) as Only.
  { intros y [<-|[]] _. reflexivity. }
  destruct (H Sample2.delivered Serving eq_refl Ids Held Rep Only)
    as ((row & E & _ & C & S & R & _) & _).
  exists row. auto.
Defined.

(** ** Recent activity *)

Lemma recent_kind_iff (q : GwQueue.t) :
  AppStorageReports.recent_kind q = true <-> message q.
Proof.
  unfold AppStorageReports.recent_kind, message.
  now rewrite orb_true_iff, !Z.eqb_eq.
Qed.

Lemma fold_max_spec (i : Z) (ids : list Z) :
  In (fold_right Z.max i ids) (i :: ids)
  /\ forall j, In j (i :: ids) -> j <= fold_right Z.max i ids.
Proof.
  induction ids as [|k ids [IH1 IH2]]; simpl.
  - split; [now left|]. intros j [E|[]]. lia.
  - split.
    + destruct (Z.max_spec k (fold_right Z.max i ids)) as [[_ ->]|[_ ->]].
      * simpl in IH1. tauto.
      * right. now left.
    + intros j [E|[E|Hj]].
      * specialize (IH2 j (or_introl E)). lia.
      * lia.
      * specialize (IH2 j (or_intror Hj)). lia.
Qed.

Lemma unique_id (db : list GwQueue.t) (a b : GwQueue.t) :
  NoDup (map GwQueue.id db) -> In a db -> In b db ->
  GwQueue.id a = GwQueue.id b -> a = b.
Proof.
  induction db as [|r db IH]; simpl; intros N Ha Hb E; [contradiction|].
  inversion N as [|? ? Nr Nl]; subst.
  destruct Ha as [<-|Ha], Hb as [<-|Hb]; trivial.
  - elim Nr. rewrite E. now apply in_map.
  - elim Nr. rewrite <- E. now apply in_map.
  - now apply IH.
Qed.

Lemma filter_unique_id (p : GwQueue.t -> bool) (db : list GwQueue.t) :
  NoDup (map GwQueue.id db) -> NoDup (map GwQueue.id (filter p db)).
Proof.
  induction db as [|a db IH]; simpl; intros N; trivial.
  inversion N as [|? ? Na Nl]; subst.
  destruct (p a); simpl; auto.
  constructor; auto.
  intros Hin. apply Na. apply in_map_iff in Hin.
  destruct Hin as (x & Ex & Hx). apply filter_In in Hx.
  rewrite <- Ex. apply in_map. tauto.
Qed.

Lemma member_firstn {A : Type} (n : nat) (l : list A) (x : A) :
  In x (firstn n l) -> In x l.
Proof.
  revert l. induction n as [|n IH]; intros [|a l]; simpl; try tauto.
  intros [E|H]; auto.
Qed.

Lemma member_skipn {A : Type} (n : nat) (l : list A) (x : A) :
  In x (skipn n l) -> In x l.
Proof.
  revert l. induction n as [|n IH]; intros [|a l]; simpl; try tauto.
  intros H. right. now apply IH.
Qed.

Lemma sorted_skipn {A : Type} (R : A -> A -> Prop) (n : nat) (l : list A) :
  StronglySorted R l -> StronglySorted R (skipn n l).
Proof.
  revert l. induction n as [|n IH]; intros l S; simpl; trivial.
  destruct l as [|a l]; trivial.
  apply IH. now inversion S.
Qed.

Lemma sorted_firstn {A : Type} (R : A -> A -> Prop) (n : nat) (l : list A) :
  StronglySorted R l -> StronglySorted R (firstn n l).
Proof.
  revert l. induction n as [|n IH]; intros l S; simpl; [constructor|].
  destruct l as [|a l]; [constructor|].
  inversion S as [|? ? Sl Fa]; subst. constructor; auto.
  rewrite Forall_forall in *. intros x Hx. apply Fa.
  revert Hx. apply member_firstn.
Qed.

Lemma firstn_NoDup {A : Type} (n : nat) (l : list A) :
  NoDup l -> NoDup (firstn n l).
Proof.
  revert l. induction n as [|n IH]; intros l N; simpl; [constructor|].
  destruct l as [|a l]; [constructor|].
  inversion N as [|? ? Na Nl]; subst. constructor; auto.
  intros H. apply Na. revert H. apply member_firstn.
Qed.

Lemma skipn_NoDup {A : Type} (n : nat) (l : list A) :
  NoDup l -> NoDup (skipn n l).
Proof.
  revert l. induction n as [|n IH]; intros l N; simpl; trivial.
  destruct l as [|a l]; trivial.
  apply IH. now inversion N.
Qed.

Lemma eqb_collation : collation String.eqb.
Proof.
  repeat split.
  - apply String.eqb_refl.
  - intros x y E. apply String.eqb_eq in E. subst. apply String.eqb_refl.
  - intros x y z E F. apply String.eqb_eq in E. now subst.
Qed.

Section Recents.
Variable collate : string -> string -> bool.
Hypothesis equivalence : collation collate.

Lemma same_refl (x : option string) : AppStorageReports.same_address collate x x = true.
Proof.
  destruct equivalence as (R & _). destruct x; simpl; trivial.
Qed.

Lemma same_sym (x y : option string) : AppStorageReports.same_address collate x y = true -> AppStorageReports.same_address collate y x = true.
Proof.
  destruct equivalence as (_ & S & _). destruct x, y; simpl; trivial.
  apply S.
Qed.

Lemma same_trans (x y z : option string) :
  AppStorageReports.same_address collate x y = true -> AppStorageReports.same_address collate y z = true -> AppStorageReports.same_address collate x z = true.
Proof.
  destruct equivalence as (_ & _ & T).
  destruct x, y, z; simpl; trivial; try discriminate.
  apply T.
Qed.

Lemma groups_In (l : list (option string)) (x : option string) :
  In x (AppStorageReports.groups collate l) -> In x l.
Proof.
  induction l as [|a l IH]; simpl; [tauto|].
  destruct (existsb (AppStorageReports.same_address collate a) l); simpl; tauto.
Qed.

Lemma groups_cover (l : list (option string)) (x : option string) :
  In x l ->
  exists y, In y (AppStorageReports.groups collate l) /\ AppStorageReports.same_address collate x y = true.
Proof.
  revert x. induction l as [|a l IH]; intros x; simpl; [tauto|].
  destruct (existsb (AppStorageReports.same_address collate a) l) eqn:E.
  - intros [<-|H]; auto.
    apply existsb_exists in E. destruct E as (y & Hy & Ey).
    destruct (IH y Hy) as (z & Hz & Ez). exists z. split; trivial.
    now apply same_trans with y.
  - intros [<-|H].
    + exists a. split; [now left|apply same_refl].
    + destruct (IH x H) as (z & Hz & Ez). exists z.
      split; [now right|trivial].
Qed.

Lemma groups_apart (l : list (option string)) :
  ForallOrdPairs (fun x y => AppStorageReports.same_address collate x y = false)
    (AppStorageReports.groups collate l).
Proof.
  induction l as [|a l IH]; simpl; [constructor|].
  destruct (existsb (AppStorageReports.same_address collate a) l) eqn:E; trivial.
  constructor; trivial.
  apply Forall_forall. intros y Hy. apply groups_In in Hy.
  destruct (AppStorageReports.same_address collate a y) eqn:F; trivial.
  assert (existsb (AppStorageReports.same_address collate a) l = true) as T
    by (apply existsb_exists; eauto).
  congruence.
Qed.

Variable db : list GwQueue.t.

(** The greatest id of a group is the id of one of its rows. *)
Lemma max_id_spec (x : option string) :
  In x (AppStorageReports.addresses db) ->
  (exists r,
     In r db /\ message r /\ AppStorageReports.same_address collate (GwQueue.address r) x = true
     /\ GwQueue.id r = AppStorageReports.max_id collate db x)
  /\ forall r,
       In r db -> message r -> AppStorageReports.same_address collate (GwQueue.address r) x = true ->
       GwQueue.id r <= AppStorageReports.max_id collate db x.
Proof.
  intros Hx. unfold AppStorageReports.max_id.
  set (p := fun q => AppStorageReports.recent_kind q
                     && AppStorageReports.same_address collate (GwQueue.address q) x).
  assert (forall r, In r (filter p db)
                    <-> In r db /\ message r
                        /\ AppStorageReports.same_address collate (GwQueue.address r) x = true) as M.
  { intros r. unfold p.
    rewrite filter_In, andb_true_iff, recent_kind_iff. tauto. }
  apply in_map_iff in Hx. destruct Hx as (r0 & E0 & H0).
  apply filter_In in H0. destruct H0 as [H0 K0].
  apply recent_kind_iff in K0.
  assert (In r0 (filter p db)) as F0.
  { apply M. repeat split; trivial. rewrite E0. apply same_refl. }
  destruct (map GwQueue.id (filter p db)) as [|i ids] eqn:Ids.
  - apply (in_map GwQueue.id) in F0. rewrite Ids in F0. contradiction.
  - destruct (fold_max_spec i ids) as [Hin Hmax]. split.
    + rewrite <- Ids in Hin. apply in_map_iff in Hin.
      destruct Hin as (r & Er & Hr). apply M in Hr.
      exists r. tauto.
    + intros r Hr Kr Ar. apply Hmax. rewrite <- Ids.
      apply in_map. apply M. auto.
Qed.

Lemma joined_In (a : GwQueue.t) :
  In a (AppStorageReports.joined collate db)
  <-> In a db /\ In (GwQueue.id a) (AppStorageReports.latest collate db).
Proof.
  unfold AppStorageReports.joined. rewrite in_flat_map. split.
  - intros (a' & Ha' & Hin). apply in_flat_map in Hin.
    destruct Hin as (b & Hb & Hin).
    destruct (Z.eqb_spec (GwQueue.id a') b) as [E|E]; [|contradiction].
    destruct Hin as [<-|[]]. split; trivial. now rewrite E.
  - intros [Ha Hl]. exists a. split; trivial.
    apply in_flat_map. exists (GwQueue.id a). split; trivial.
    rewrite Z.eqb_refl. now left.
Qed.

Hypothesis ids : NoDup (map GwQueue.id db).

Lemma joined_latest (a : GwQueue.t) :
  In a (AppStorageReports.joined collate db)
  <-> latest_of_address collate db a.
Proof.
  rewrite joined_In.
  unfold latest_of_address, same_party, AppStorageReports.latest.
  split.
  - intros [Ha Hl]. apply in_map_iff in Hl. destruct Hl as (x & Ex & Hx).
    apply groups_In in Hx.
    destruct (max_id_spec x Hx) as [(r & Hr & Kr & Ar & Ir) Hmax].
    assert (a = r) as -> by (apply (unique_id db); trivial; congruence).
    split; trivial. split; trivial.
    intros r' Hr' Kr' Ar'. rewrite Ir. apply Hmax; trivial.
    now apply same_trans with (GwQueue.address r).
  - intros (Ha & Ka & Hmax). split; trivial.
    assert (In (GwQueue.address a) (AppStorageReports.addresses db)) as Hx.
    { apply in_map. apply filter_In. split; trivial.
      now apply recent_kind_iff. }
    destruct (groups_cover _ _ Hx) as (y & Hy & Ey).
    apply in_map_iff. exists y. split; trivial.
    destruct (max_id_spec y (groups_In _ _ Hy))
      as [(r & Hr & Kr & Ar & Ir) Hm].
    specialize (Hm a Ha Ka Ey).
    assert (GwQueue.id r <= GwQueue.id a).
    { apply Hmax; trivial. apply same_trans with y; trivial.
      now apply same_sym. }
    lia.
Qed.

Lemma latest_NoDup : NoDup (AppStorageReports.latest collate db).
Proof.
  unfold AppStorageReports.latest.
  pose proof (groups_In (AppStorageReports.addresses db)) as G.
  pose proof (groups_apart (AppStorageReports.addresses db)) as N.
  induction (AppStorageReports.groups collate
               (AppStorageReports.addresses db)) as [|x gs IH];
    simpl; [constructor|].
  inversion N as [|? ? Nx Ng]; subst. constructor.
  - intros Hin. apply in_map_iff in Hin. destruct Hin as (y & Ey & Hy).
    destruct (max_id_spec x (G x (or_introl eq_refl)))
      as [(r & Hr & _ & Ar & Ir) _].
    destruct (max_id_spec y (G y (or_intror Hy)))
      as [(s & Hs & _ & As & Is) _].
    assert (r = s) by (apply (unique_id db); trivial; congruence).
    subst s. rewrite Forall_forall in Nx. specialize (Nx y Hy).
    assert (AppStorageReports.same_address collate x y = true).
    { apply same_trans with (GwQueue.address r); trivial.
      now apply same_sym. }
    congruence.
  - apply IH; trivial. intros y Hy. apply G. now right.
Qed.

Lemma latest_ids (i : Z) :
  In i (AppStorageReports.latest collate db) -> In i (map GwQueue.id db).
Proof.
  unfold AppStorageReports.latest. intros H. apply in_map_iff in H.
  destruct H as (x & Ex & Hx). apply groups_In in Hx.
  destruct (max_id_spec x Hx) as [(r & Hr & _ & _ & Ir) _].
  rewrite <- Ex, <- Ir. now apply in_map.
Qed.

Lemma joined_filter :
  AppStorageReports.joined collate db
  = filter (fun a => existsb (Z.eqb (GwQueue.id a))
                       (AppStorageReports.latest collate db)) db.
Proof.
  unfold AppStorageReports.joined.
  assert (forall (a : GwQueue.t) (l : list Z),
            NoDup l ->
            flat_map (fun b => if GwQueue.id a =? b then [a] else []) l
            = if existsb (Z.eqb (GwQueue.id a)) l then [a] else []) as Inner.
  { intros a l. induction 1 as [|b l Nb Nl IH]; simpl; trivial.
    rewrite IH. destruct (Z.eqb_spec (GwQueue.id a) b) as [E|E]; simpl; trivial.
    replace (existsb (Z.eqb (GwQueue.id a)) l) with false; trivial.
    symmetry. apply not_true_is_false. intros T.
    apply existsb_exists in T. destruct T as (c & Hc & Ec).
    apply Z.eqb_eq in Ec. congruence. }
  pose proof latest_NoDup as N.
  generalize dependent (AppStorageReports.latest collate db). intros L N.
  clear ids. induction db as [|a l IH]; simpl; trivial.
  rewrite Inner by trivial. rewrite IH.
  now destruct (existsb (Z.eqb (GwQueue.id a)) L).
Qed.

Lemma joined_NoDup : NoDup (AppStorageReports.joined collate db).
Proof.
  rewrite joined_filter. apply NoDup_filter.
  now apply NoDup_map_inv with (f := GwQueue.id).
Qed.

Lemma joined_count :
  List.length (AppStorageReports.joined collate db)
  = List.length
      (AppStorageReports.groups collate (AppStorageReports.addresses db)).
Proof.
  transitivity (List.length (AppStorageReports.latest collate db)).
  - rewrite joined_filter.
    rewrite <- (length_map GwQueue.id). apply Permutation_length.
    apply NoDup_Permutation.
    + now apply filter_unique_id.
    + apply latest_NoDup.
    + intros i. rewrite in_map_iff. split.
      * intros (a & Ea & Ha). apply filter_In in Ha. destruct Ha as [_ Ha].
        apply existsb_exists in Ha. destruct Ha as (j & Hj & Ej).
        apply Z.eqb_eq in Ej. congruence.
      * intros Hi. pose proof (latest_ids i Hi) as Hdb.
        apply in_map_iff in Hdb. destruct Hdb as (a & Ea & Ha).
        exists a. split; trivial. apply filter_In. split; trivial.
        apply existsb_exists. exists i. split; trivial.
        now apply Z.eqb_eq.
  - unfold AppStorageReports.latest. apply length_map.
Qed.

End Recents.

(** X23. [countRecents] and [getRecents] read, of the messages sent and
    received, the latest of each address: when the ids of the table are
    pairwise distinct, the joined rows are exactly the rows that are the
    latest message of their address, none twice and one for each address
    that has such a message, whatever else the table holds; and
    [countRecents] counts the addresses. *)
Theorem recents_per_address (collate : string -> string -> bool)
    (db : list GwQueue.t) :
  collation collate ->
  NoDup (map GwQueue.id db) ->
  (forall a,
     In a (AppStorageReports.joined collate db)
     <-> latest_of_address collate db a)
  /\ NoDup (AppStorageReports.joined collate db)
  /\ (forall a b,
        In a (AppStorageReports.joined collate db) ->
        In b (AppStorageReports.joined collate db) ->
        same_party collate a b -> a = b)
  /\ (forall r,
        In r db -> message r ->
        exists a,
          In a (AppStorageReports.joined collate db)
          /\ same_party collate r a)
  /\ AppStorageReports.countRecents collate db
     = Z.of_nat
         (List.length
            (AppStorageReports.groups collate
               (AppStorageReports.addresses db))).
Proof.
  intros C N. split; [|split; [|split; [|split]]].
  - intros a. now apply joined_latest.
  - now apply joined_NoDup.
  - intros a b Ha Hb E.
    apply (joined_latest collate C db N) in Ha, Hb.
    destruct Ha as (Ha & Ka & Ma), Hb as (Hb & Kb & Mb).
    apply (unique_id db); trivial.
    specialize (Ma b Hb Kb). specialize (Mb a Ha Ka).
    unfold same_party in *.
    pose proof (same_sym collate C _ _ E). intuition lia.
  - intros r Hr Kr.
    assert (In (GwQueue.address r)
              (map GwQueue.address (filter AppStorageReports.recent_kind db)))
      as Hx.
    { apply in_map. apply filter_In. split; trivial.
      now apply recent_kind_iff. }
    destruct (groups_cover collate C _ _ Hx) as (y & Hy & Ey).
    destruct (max_id_spec collate C db y (groups_In collate _ _ Hy))
      as [(a & Ha & Ka & Aa & Ia) _].
    exists a. split.
    + apply joined_In. split; trivial.
      unfold AppStorageReports.latest. rewrite Ia. now apply in_map.
    + unfold same_party. apply same_trans with y; trivial.
      now apply same_sym.
  - unfold AppStorageReports.countRecents. f_equal.
    now apply joined_count.
Qed.

Lemma recents_per_address_witness :
  AppStorageReports.joined String.eqb Sample2.talks
  = [Sample2.talk 2 ACTIVITY_INBOX "0822" 20;
     Sample2.talk 3 ACTIVITY_INBOX "0811" 30]
  /\ AppStorageReports.countRecents String.eqb Sample2.talks = 2
  /\ latest_of_address String.eqb Sample2.talks
       (Sample2.talk 3 ACTIVITY_INBOX "0811" 30).
Proof.
  assert (NoDup (map GwQueue.id Sample2.talks)) as N.
  { simpl. repeat constructor; simpl; intuition discriminate. }
  destruct (recents_per_address String.eqb Sample2.talks eqb_collation N)
    as (H & _ & _ & _ & E).
  split; [reflexivity|]. split.
  - rewrite E. reflexivity.
  - apply H. simpl. tauto.
Defined.

(** X24. A page of [getRecents] holds only rows that are the latest
    message of their address, none twice, the newer first, and as many as
    the limit allows of the rows [countRecents] counts beyond the offset;
    a first page as long as the count holds every such row. *)
Theorem getRecents_page (collate : string -> string -> bool)
    (db : list GwQueue.t) (offset limit : nat) :
  collation collate ->
  NoDup (map GwQueue.id db) ->
  (forall a,
     In a (AppStorageReports.getRecents collate db offset limit) ->
     latest_of_address collate db a)
  /\ NoDup (AppStorageReports.getRecents collate db offset limit)
  /\ StronglySorted (fun a b => GwQueue.time b <= GwQueue.time a)
       (AppStorageReports.getRecents collate db offset limit)
  /\ Z.of_nat
       (List.length (AppStorageReports.getRecents collate db offset limit))
     = Z.min (Z.of_nat limit)
         (Z.max 0
            (AppStorageReports.countRecents collate db - Z.of_nat offset))
  /\ (AppStorageReports.countRecents collate db <= Z.of_nat limit ->
      forall a,
        latest_of_address collate db a ->
        In a (AppStorageReports.getRecents collate db 0 limit)).
Proof.
  intros C N. unfold AppStorageReports.getRecents.
  split; [|split; [|split; [|split]]].
  - intros a Ha. apply member_firstn, member_skipn in Ha.
    apply order_by_In in Ha. now apply joined_latest.
  - apply firstn_NoDup, skipn_NoDup.
    eapply Permutation_NoDup.
    + symmetry. apply order_by_perm.
    + now apply joined_NoDup.
  - apply sorted_firstn, sorted_skipn.
    eapply StronglySorted_impl;
      [|apply (order_by_sorted AppStorageReports.newest_first)].
    + intros a b E. unfold AppStorageReports.newest_first in E. lia.
    + intros a b E. unfold AppStorageReports.newest_first in *. lia.
    + intros a b c E F. unfold AppStorageReports.newest_first in *. lia.
  - rewrite length_firstn, length_skipn, order_by_length.
    unfold AppStorageReports.countRecents. lia.
  - intros Hc a Ha. simpl.
    rewrite firstn_all2.
    + apply order_by_In. now apply joined_latest.
    + rewrite order_by_length.
      unfold AppStorageReports.countRecents in Hc. lia.
Qed.

Lemma getRecents_page_witness :
  AppStorageReports.getRecents String.eqb Sample2.talks 0 1
  = [Sample2.talk 3 ACTIVITY_INBOX "0811" 30]
  /\ AppStorageReports.getRecents String.eqb Sample2.talks 1 1
     = [Sample2.talk 2 ACTIVITY_INBOX "0822" 20]
  /\ latest_of_address String.eqb Sample2.talks
       (Sample2.talk 2 ACTIVITY_INBOX "0822" 20).
Proof.
  assert (NoDup (map GwQueue.id Sample2.talks)) as N.
  { simpl. repeat constructor; simpl; intuition discriminate. }
  destruct (getRecents_page String.eqb Sample2.talks 1 1 eqb_collation N)
    as (H & _).
  split; [reflexivity|]. split; [reflexivity|].
  apply H. simpl. tauto.
Defined.

(** ** Dates of the prepaid plugin *)

Lemma has_app (c : ascii) (a b : string) :
  PrepaidPlugin.has c (a ++ b)
  = PrepaidPlugin.has c a || PrepaidPlugin.has c b.
Proof.
  induction a as [|x a IH]; simpl; trivial.
  now rewrite IH, orb_assoc.
Qed.

Lemma every_app (p : ascii -> bool) (a b : string) :
  every p (a ++ b) = every p a && every p b.
Proof.
  induction a as [|x a IH]; simpl; trivial.
  now rewrite IH, andb_assoc.
Qed.

Lemma every_has (p : ascii -> bool) (c : ascii) (a : string) :
  every p a = true -> p c = false -> PrepaidPlugin.has c a = false.
Proof.
  intros Ha Hc. induction a as [|x a IH]; simpl in *; trivial.
  apply andb_true_iff in Ha. destruct Ha as [Hx Ha].
  rewrite (IH Ha), orb_false_r.
  destruct (Ascii.eqb_spec x c); trivial. congruence.
Qed.

Lemma every_impl (p q : ascii -> bool) (a : string) :
  (forall c, p c = true -> q c = true) ->
  every p a = true -> every q a = true.
Proof.
  intros H. induction a as [|x a IH]; simpl; trivial.
  rewrite !andb_true_iff. intros [Hx Ha]. auto.
Qed.

Lemma append_cons (a : string) (c : ascii) (b : string) :
  ((a ++ String c "") ++ b = a ++ String c b)%string.
Proof.
  induction a as [|x a IH]; simpl; trivial. now rewrite IH.
Qed.

Lemma append_empty (a : string) : (a ++ "" = a)%string.
Proof.
  induction a as [|x a IH]; simpl; trivial. now rewrite IH.
Qed.

Lemma prefix_append (a b : string) : String.prefix a (a ++ b) = true.
Proof.
  induction a as [|x a IH]; simpl.
  - now destruct b.
  - destruct (ascii_dec x x); [trivial|congruence].
Qed.

Section Split.
Variable c : ascii.
Variable sep' : string.

(** Nothing is cut where the first character of the separator is
    missing. *)
Lemma split_from_free (a piece rest : string) :
  PrepaidPlugin.has c a = false ->
  PrepaidPlugin.split_from (String c sep') 0 piece (a ++ rest)
  = PrepaidPlugin.split_from (String c sep') 0 (piece ++ a) rest.
Proof.
  revert piece. induction a as [|x a IH]; intros piece H; simpl in *.
  - now rewrite append_empty.
  - apply orb_false_iff in H. destruct H as [Hx Ha].
    destruct (ascii_dec c x) as [E|E].
    + subst. now rewrite Ascii.eqb_refl in Hx.
    + rewrite (IH _ Ha). now rewrite append_cons.
Qed.

Lemma split_from_skip (t piece rest : string) :
  PrepaidPlugin.split_from (String c sep') (String.length t) piece
    (t ++ rest)
  = PrepaidPlugin.split_from (String c sep') 0 piece rest.
Proof.
  induction t as [|x t IH]; simpl; trivial.
Qed.

(** An occurrence of the separator ends the piece. *)
Lemma split_from_match (piece rest : string) :
  PrepaidPlugin.split_from (String c sep') 0 piece
    (String c sep' ++ rest)
  = piece :: PrepaidPlugin.split_from (String c sep') 0 "" rest.
Proof.
  cbn [append PrepaidPlugin.split_from].
  change (String.prefix (String c sep') (String c (sep' ++ rest)))
    with (String.prefix (String c sep') (String c sep' ++ rest)).
  rewrite prefix_append. f_equal.
  cbn [String.length]. rewrite Nat.sub_1_r. cbn [Nat.pred].
  apply split_from_skip.
Qed.

Lemma split_from_last (a piece : string) :
  PrepaidPlugin.has c a = false ->
  PrepaidPlugin.split_from (String c sep') 0 piece a = [(piece ++ a)%string].
Proof.
  intros H. rewrite <- (append_empty a) at 1.
  now rewrite split_from_free.
Qed.

End Split.

Lemma split_two (c : ascii) (a b : string) :
  PrepaidPlugin.has c a = false -> PrepaidPlugin.has c b = false ->
  PrepaidPlugin.split (String c "") (a ++ String c b) = [a; b].
Proof.
  intros Ha Hb. unfold PrepaidPlugin.split.
  rewrite split_from_free by trivial.
  change (String c b) with (String c "" ++ b)%string.
  rewrite split_from_match. now rewrite split_from_last.
Qed.

Lemma split_three (c : ascii) (d m y : string) :
  PrepaidPlugin.has c d = false -> PrepaidPlugin.has c m = false ->
  PrepaidPlugin.has c y = false ->
  PrepaidPlugin.split (String c "") (d ++ String c (m ++ String c y))
  = [d; m; y].
Proof.
  intros Hd Hm Hy. unfold PrepaidPlugin.split.
  rewrite split_from_free by trivial.
  change (String c (m ++ String c y))
    with (String c "" ++ (m ++ String c y))%string.
  rewrite split_from_match. cbn [append]. f_equal.
  apply (split_two c m y Hm Hy).
Qed.

Lemma append_middle (a : string) (c : ascii) (b rest : string) :
  (a ++ String c (b ++ rest) = (a ++ String c b) ++ rest)%string.
Proof.
  induction a as [|x a IH]; simpl; trivial. now rewrite IH.
Qed.

Lemma separator_cases (str : string) :
  PrepaidPlugin.separator str
  = if PrepaidPlugin.has "/" str then Some "/"%char
    else if PrepaidPlugin.has "-" str then Some "-"%char
    else if PrepaidPlugin.has "." str then Some "."%char
    else None.
Proof.
  unfold PrepaidPlugin.separator. cbn [forEach fst].
  destruct (PrepaidPlugin.has "/" str), (PrepaidPlugin.has "-" str),
    (PrepaidPlugin.has "." str); reflexivity.
Qed.

Lemma unseparated_has (c : ascii) (a : string) :
  In c ["."; "-"; "/"]%char -> every unseparated a = true ->
  PrepaidPlugin.has c a = false.
Proof.
  intros Hc Ha. apply every_has with unseparated; trivial.
  destruct Hc as [<-|[<-|[<-|[]]]]; reflexivity.
Qed.

(** X25. [fixDate] on a day, a month and a year written with the
    separators it knows: with the same separator twice, the three pieces
    are read as day, month (a number, or else a name through
    [monthIndex]) and year, a year of two characters after the first two
    of the current year; with two different separators the date is cut
    at one of them only and comes back as it was given. *)
Theorem fixDate_separated (parseInt : string -> option Z) (year : string)
    (sep sep' : ascii) (d m y : string) :
  In sep ["."; "-"; "/"]%char ->
  In sep' ["."; "-"; "/"]%char ->
  every unseparated d = true ->
  every unseparated m = true ->
  every unseparated y = true ->
  PrepaidPlugin.fixDate parseInt year (d ++ String sep (m ++ String sep' y))
  = if Ascii.eqb sep sep' then
      PrepaidPlugin.Formatted
        (parseInt (if (String.length y =? 2)%nat
                   then (String.substring 0 2 year ++ y)%string else y))
        (if isNaN m then Some (PrepaidPlugin.monthIndex (Some m))
         else parseInt m)
        (parseInt d)
    else PrepaidPlugin.Kept (d ++ String sep (m ++ String sep' y)).
Proof.
  intros Hs Hs' Hd Hm Hy.
  pose proof (fun c H => unseparated_has c d H Hd) as Fd.
  pose proof (fun c H => unseparated_has c m H Hm) as Fm.
  pose proof (fun c H => unseparated_has c y H Hy) as Fy.
  assert (In "."%char ["."; "-"; "/"]%char) as I1 by (simpl; tauto).
  assert (In "-"%char ["."; "-"; "/"]%char) as I2 by (simpl; tauto).
  assert (In "/"%char ["."; "-"; "/"]%char) as I3 by (simpl; tauto).
  unfold PrepaidPlugin.fixDate, PrepaidPlugin.parts.
  rewrite separator_cases, !has_app.
  cbn [PrepaidPlugin.has]. rewrite !has_app. cbn [PrepaidPlugin.has].
  rewrite !(Fd _ I1), !(Fd _ I2), !(Fd _ I3), !(Fm _ I1), !(Fm _ I2),
    !(Fm _ I3), !(Fy _ I1), !(Fy _ I2), !(Fy _ I3).
  assert (forall c s a b,
            In c ["."; "-"; "/"]%char -> Ascii.eqb s c = false ->
            every unseparated a = true -> every unseparated b = true ->
            PrepaidPlugin.has c (a ++ String s b) = false) as F.
  { intros c s a b Hc Hsc Ha Hb. rewrite has_app. cbn [PrepaidPlugin.has].
    now rewrite Hsc, (unseparated_has c a), (unseparated_has c b). }
  destruct Hs as [<-|[<-|[<-|[]]]], Hs' as [<-|[<-|[<-|[]]]];
    cbn [Ascii.eqb Bool.eqb orb andb];
    try (rewrite split_three by auto; destruct (isNaN m); reflexivity);
    try (rewrite split_two; [reflexivity|now auto|now apply F]);
    rewrite append_middle, split_two; solve [reflexivity|auto].
Qed.

Lemma fixDate_separated_witness :
  PrepaidPlugin.fixDate Sample2.digits "2024" "31-Des-24"
  = PrepaidPlugin.Formatted (Some 2024) (Some 12) (Some 31)
  /\ PrepaidPlugin.fixDate Sample2.digits "2024" "31-12/2024"
     = PrepaidPlugin.Kept "31-12/2024".
Proof.
  assert (In "-"%char ["."; "-"; "/"]%char) as I2 by (simpl; tauto).
  assert (In "/"%char ["."; "-"; "/"]%char) as I3 by (simpl; tauto).
  split.
  - exact (fixDate_separated Sample2.digits "2024" "-" "-" "31" "Des" "24"
             I2 I2 eq_refl eq_refl eq_refl).
  - exact (fixDate_separated Sample2.digits "2024" "-" "/" "31" "12" "2024"
             I2 I3 eq_refl eq_refl eq_refl).
Defined.

Lemma drop_while_every (p : ascii -> bool) (a rest : string) :
  every p a = true -> drop_while p (a ++ rest) = drop_while p rest.
Proof.
  induction a as [|x a IH]; simpl; trivial.
  intros H. apply andb_true_iff in H. destruct H as [Hx Ha].
  rewrite Hx. auto.
Qed.

Lemma take_while_every (p : ascii -> bool) (a rest : string) :
  every p a = true ->
  PrepaidPlugin.take_while p (a ++ rest)
  = (a ++ PrepaidPlugin.take_while p rest)%string.
Proof.
  induction a as [|x a IH]; simpl; trivial.
  intros H. apply andb_true_iff in H. destruct H as [Hx Ha].
  rewrite Hx. now rewrite IH.
Qed.

Lemma take_while_none (p : ascii -> bool) (a : string) :
  every (fun c => negb (p c)) a = true ->
  PrepaidPlugin.take_while p a = ""%string.
Proof.
  destruct a as [|x a]; simpl; trivial.
  intros H. apply andb_true_iff in H. destruct H as [Hx _].
  apply negb_true_iff in Hx. now rewrite Hx.
Qed.

Lemma plain_unseparated (a : string) :
  every plain a = true -> every unseparated a = true.
Proof.
  apply every_impl. intros c H. unfold plain in H.
  now apply andb_true_iff in H.
Qed.

Lemma plain_letterless (a : string) :
  every plain a = true ->
  every (fun c => negb (PrepaidPlugin.is_letter c)) a = true.
Proof.
  apply every_impl. intros c H. unfold plain in H.
  now apply andb_true_iff in H.
Qed.

Lemma letter_unseparated (a : string) :
  every PrepaidPlugin.is_letter a = true -> every unseparated a = true.
Proof.
  apply every_impl. intros c H.
  unfold unseparated. apply negb_true_iff.
  destruct (Ascii.eqb_spec c "."); [subst; discriminate|].
  destruct (Ascii.eqb_spec c "-"); [subst; discriminate|].
  destruct (Ascii.eqb_spec c "/"); [subst; discriminate|].
  reflexivity.
Qed.

Lemma separator_none (str : string) :
  every unseparated str = true -> PrepaidPlugin.separator str = None.
Proof.
  intros H. rewrite separator_cases.
  rewrite !(unseparated_has _ str); simpl; tauto.
Qed.

(** X26. [fixDate] without a separator: a string that holds no letter
    either comes back as it was given; a day and a year around a month
    name, the only letters of the string, are read as day, month and
    year, the month through [monthIndex] unless the name reads as a
    number. *)
Theorem fixDate_named (parseInt : string -> option Z) (year : string) :
  (forall str,
     every plain str = true ->
     PrepaidPlugin.fixDate parseInt year str = PrepaidPlugin.Kept str)
  /\ (forall d name y,
        every plain d = true ->
        every plain y = true ->
        every PrepaidPlugin.is_letter name = true ->
        name <> ""%string ->
        PrepaidPlugin.fixDate parseInt year (d ++ name ++ y)
        = PrepaidPlugin.Formatted
            (parseInt (if (String.length y =? 2)%nat
                       then (String.substring 0 2 year ++ y)%string else y))
            (if isNaN name then Some (PrepaidPlugin.monthIndex (Some name))
             else parseInt name)
            (parseInt d)).
Proof.
  split.
  - intros str H. unfold PrepaidPlugin.fixDate, PrepaidPlugin.parts.
    rewrite separator_none by now apply plain_unseparated.
    unfold PrepaidPlugin.exec.
    rewrite <- (append_empty str) at 1.
    rewrite (drop_while_every _ str "") by now apply plain_letterless.
    reflexivity.
  - intros d name y Hd Hy Hn Ne.
    unfold PrepaidPlugin.fixDate, PrepaidPlugin.parts.
    rewrite separator_none.
    2:{ rewrite !every_app.
        rewrite (plain_unseparated d), (plain_unseparated y),
          (letter_unseparated name); trivial. }
    destruct name as [|c name']; [congruence|].
    assert (PrepaidPlugin.is_letter c = true) as Hc.
    { simpl in Hn. now apply andb_true_iff in Hn. }
    assert (forall a, every plain a = true -> PrepaidPlugin.has c a = false)
      as F.
    { intros a Ha. apply every_has with plain; trivial.
      unfold plain. rewrite Hc. apply andb_false_r. }
    unfold PrepaidPlugin.exec.
    rewrite drop_while_every by now apply plain_letterless.
    cbn [append drop_while]. rewrite Hc. cbn [negb].
    change (String c (name' ++ y)) with (String c name' ++ y)%string.
    rewrite take_while_every by trivial.
    rewrite take_while_none by now apply plain_letterless.
    rewrite append_empty.
    unfold PrepaidPlugin.split.
    rewrite split_from_free by auto.
    rewrite split_from_match, split_from_last by auto.
    cbn [append PrepaidPlugin.splice].
    destruct (isNaN (String c name')); reflexivity.
Qed.

Lemma fixDate_named_witness :
  PrepaidPlugin.fixDate Sample2.digits "2024" "31122024"
  = PrepaidPlugin.Kept "31122024"
  /\ PrepaidPlugin.fixDate Sample2.digits "2024" "31Des24"
     = PrepaidPlugin.Formatted (Some 2024) (Some 12) (Some 31).
Proof.
  destruct (fixDate_named Sample2.digits "2024") as [K F].
  split.
  - apply K. reflexivity.
  - apply (F "31" "Des" "24")%string; try reflexivity. discriminate.
Defined.
